(** * The dataset analytics engine, embedded and verified

    The development follows the source units that carry the
    analytics logic of the dashboard:

    - the aggregation worker ([self.onmessage], the grouping, aggregation,
      sorting and truncation pipeline),
    - the data context ([calculateMetricsFromData], the summary computer),
    - the overview component ([pickQuickColumns], [buildHistogram],
      [pearson], [buildCorrelation], [computeQualityScore],
      [buildCategoryCounts], [sortRows], the progress bar),
    - the visualizations component ([chartStateReducer], [isEqual], the
      initial axes and the exchange with the worker),
    - the backend configuration ([loadEnvFromFile]).

    JavaScript numbers are IEEE 754 binary64 values and are modelled by
    Rocq's primitive floats; counters that only ever hold array lengths are
    kept as [nat] and converted where the code does arithmetic on them.
    Functions of the ECMAScript runtime whose full definition is outside this
    repository (number formatting and parsing, locale collation) are the
    fields of the class [JsRuntime], and the engine's bound on the arguments
    of one call is the class [JsLimits]: every general theorem holds for any
    implementation of them. Where the language leaves a result to the
    implementation (the order [Array.prototype.sort] gives under a
    comparator that is not consistent), statements are made under the
    proviso that excludes the case. *)

From Stdlib Require Import ZArith NArith List String Ascii Bool Lia Floats Zpower.
From Stdlib Require Import Sorted Permutation DecimalString QArith Qround Qminmax.
Import ListNotations.

Set Warnings "-inexact-float".

Local Open Scope string_scope.
Local Open Scope list_scope.

(** ** ECMAScript values and runtime *)

Module Js.

(** The scalar values a dataset cell can hold. *)
Inductive JsValue : Type :=
| VUndefined
| VNull
| VBool (b : bool)
| VNum (n : float)
| VStr (s : string).

(** The part of the runtime that the sources call and do not define. *)
Class JsRuntime : Type := {
  (** [Number::toString], radix 10 *)
  NumberToString : float -> string;
  (** [StringToNumber], the conversion behind [Number(s)] *)
  StringToNumber : string -> float;
  (** [String.prototype.localeCompare] *)
  localeCompare : string -> string -> float;
  (** [Number.prototype.toFixed] *)
  toFixed : float -> nat -> string;
  (** [String.prototype.toLowerCase] *)
  toLowerCase : string -> string
}.

(** *** Numbers *)

Definition isNaN (x : float) : bool := PrimFloat.is_nan x.
Definition isFinite (x : float) : bool := PrimFloat.is_finite x.

(** [ToBoolean] on a number: [+0], [-0] and [NaN] are falsy. *)
Definition truthy (x : float) : bool := negb (PrimFloat.is_zero x || PrimFloat.is_nan x).

(** [a || b] on numbers. *)
Definition orElse (a b : float) : float := if truthy a then a else b.

(** [Math.min] and [Math.max] on two arguments: [NaN] is contagious and
    [-0] is smaller than [+0]. *)
Definition is_neg_zero (x : float) : bool :=
  match Prim2SF x with S754_zero true => true | _ => false end.

Definition Math_min2 (a b : float) : float :=
  if isNaN a || isNaN b then nan
  else if (a <? b)%float then a
  else if (b <? a)%float then b
  else if is_neg_zero a then a else b.

Definition Math_max2 (a b : float) : float :=
  if isNaN a || isNaN b then nan
  else if (b <? a)%float then a
  else if (a <? b)%float then b
  else if is_neg_zero a then b else a.

(** [Math.min(...values)] and [Math.max(...values)]. *)
Definition Math_min (values : list float) : float :=
  fold_left Math_min2 values infinity.

Definition Math_max (values : list float) : float :=
  fold_left Math_max2 values neg_infinity.

Definition Math_sqrt (x : float) : float := PrimFloat.sqrt x.

(** The double that represents an integer of magnitude at most 2^53,
    built in canonical form; larger integers are rounded to nearest. *)
Definition pos2SF (s : bool) (p : positive) : spec_float :=
  let d := Zpos (digits2_pos p) in
  if (d <=? prec)%Z
  then S754_finite s (Pos.shiftl p (Z.to_N (prec - d))) (d - prec)
  else binary_normalize prec emax (if s then Zneg p else Zpos p) 0 false.

Definition Z2float (z : Z) : float :=
  match z with
  | Z0 => zero
  | Zpos p => SF2Prim (pos2SF false p)
  | Zneg p => SF2Prim (pos2SF true p)
  end.

(** A length or counter as a number; array lengths stay below 2^32. *)
Definition nat2float (n : nat) : float := Z2float (Z.of_nat n).

(** The exact integer value of an integer-valued double ([None] for
    fractions, infinities and [NaN]). *)
Definition SF2Z (x : spec_float) : option Z :=
  match x with
  | S754_zero _ => Some 0%Z
  | S754_finite s m e =>
      if (0 <=? e)%Z then Some (cond_Zopp s (Zpos m * 2 ^ e))%Z
      else if (Z.land (Zpos m) (Z.ones (- e)) =? 0)%Z
           then Some (cond_Zopp s (Z.shiftr (Zpos m) (- e)))
           else None
  | _ => None
  end.

Definition float2Z (x : float) : option Z := SF2Z (Prim2SF x).

(** [Math.floor]. *)
Definition Math_floor (x : float) : float :=
  match Prim2SF x with
  | S754_finite s m e =>
      if (0 <=? e)%Z then x
      else Z2float (Z.shiftr (cond_Zopp s (Zpos m)) (- e))
  | _ => x
  end.

(** [Math.round]: the integer nearest to [x], ties towards [+Infinity];
    a result of zero keeps the sign of [x]. *)
Definition Math_round (x : float) : float :=
  match Prim2SF x with
  | S754_finite s m e =>
      if (0 <=? e)%Z then x
      else
        let n := Z.shiftr (2 * cond_Zopp s (Zpos m) + 2 ^ (- e)) (1 - e) in
        if (n =? 0)%Z then (if s then neg_zero else zero) else Z2float n
  | _ => x
  end.

(** *** Vocabulary for statements about numbers *)

(** Every finite double is an integer multiple of 2^-1074. [ordv] is that
    integer, with the infinities placed beyond every finite value; doubles
    other than [NaN] compare as their images do
    ([FloatFacts.SFcompare_ordv]). *)
Definition ordv (x : spec_float) : Z :=
  match x with
  | S754_zero _ => 0
  | S754_finite s m e => cond_Zopp s (Zpos m * 2 ^ (e + 1074))
  | S754_infinity s => cond_Zopp s (2 ^ 2100)
  | S754_nan => 0
  end.

Definition ord (x : float) : Z := ordv (Prim2SF x).

Definition SFnan (x : spec_float) : bool :=
  match x with S754_nan => true | _ => false end.

Definition SFzero (x : spec_float) : bool :=
  match x with S754_zero _ => true | _ => false end.

(** Zero of either sign, or above zero. *)
Definition SFnonneg (x : spec_float) : bool :=
  match x with
  | S754_zero _ => true
  | S754_infinity s => negb s
  | S754_finite s _ _ => negb s
  | S754_nan => false
  end.

Definition SFfinite (x : spec_float) : bool :=
  match x with
  | S754_zero _ | S754_finite _ _ _ => true
  | _ => false
  end.

(** What rounding a value of sign [s] can give, and what it gives when
    nothing is lost to underflow. *)
Inductive signed (s : bool) : spec_float -> Prop :=
| signed_zero : signed s (S754_zero s)
| signed_infinity : signed s (S754_infinity s)
| signed_finite m e : signed s (S754_finite s m e).

Inductive nonzero : spec_float -> Prop :=
| nonzero_infinity s : nonzero (S754_infinity s)
| nonzero_finite s m e : nonzero (S754_finite s m e).

(** *** Conversions *)

Section Conversions.
Context {rt : JsRuntime}.

(** [ToNumber] on scalars. *)
Definition ToNumber (v : JsValue) : float :=
  match v with
  | VUndefined => nan
  | VNull => zero
  | VBool true => one
  | VBool false => zero
  | VNum n => n
  | VStr s => StringToNumber s
  end.

(** [ToString] on scalars; it is also [ToPropertyKey] on them. *)
Definition ToString (v : JsValue) : string :=
  match v with
  | VUndefined => "undefined"
  | VNull => "null"
  | VBool true => "true"
  | VBool false => "false"
  | VNum n => NumberToString n
  | VStr s => s
  end.

End Conversions.

(** [SameValueZero], the equality of [Set] and [Map] keys. *)
Definition SameValueZero (a b : JsValue) : bool :=
  match a, b with
  | VUndefined, VUndefined => true
  | VNull, VNull => true
  | VBool x, VBool y => Bool.eqb x y
  | VNum x, VNum y => (x =? y)%float || (isNaN x && isNaN y)
  | VStr x, VStr y => String.eqb x y
  | _, _ => false
  end.

(** [new Set(values)], as the list of its members in insertion order. *)
Definition Set_add (s : list JsValue) (v : JsValue) : list JsValue :=
  if existsb (SameValueZero v) s then s else s ++ [v].

Definition Set_of (values : list JsValue) : list JsValue :=
  fold_left Set_add values [].

(** A [Set<string>]. *)
Definition StrSet_add (s : list string) (v : string) : list string :=
  if existsb (String.eqb v) s then s else s ++ [v].

(** [s.includes(sub)] *)
Fixpoint includes (s sub : string) : bool :=
  String.prefix sub s ||
  match s with
  | EmptyString => false
  | String _ s' => includes s' sub
  end.

(** *** Objects as ordered property lists *)

(** An ordinary object holding values of type [A]: its own properties in
    creation order, each key once. *)
Definition JsObject (A : Type) : Type := list (string * A).

Fixpoint obj_get {A : Type} (o : JsObject A) (k : string) : option A :=
  match o with
  | [] => None
  | (k', v) :: o' => if String.eqb k' k then Some v else obj_get o' k
  end.

(** [o[k] = v]: an existing property keeps its place. *)
Fixpoint obj_set {A : Type} (o : JsObject A) (k : string) (v : A) : JsObject A :=
  match o with
  | [] => [(k, v)]
  | (k', v') :: o' =>
      if String.eqb k' k then (k', v) :: o' else (k', v') :: obj_set o' k v
  end.

(** The array index a property key denotes, if any: the canonical decimal
    form of an integer below 2^32 - 1. *)
Definition digit_of (c : ascii) : option N :=
  let n := N_of_ascii c in
  if ((48 <=? n) && (n <=? 57))%N then Some (n - 48)%N else None.

Fixpoint parse_digits (s : string) (acc : N) : option N :=
  match s with
  | EmptyString => Some acc
  | String c s' =>
      match digit_of c with
      | Some d => parse_digits s' (acc * 10 + d)%N
      | None => None
      end
  end.

Definition arrayIndex (k : string) : option N :=
  match k with
  | EmptyString => None
  | String c rest =>
      if Ascii.eqb c "0"
      then (match rest with EmptyString => Some 0%N | _ => None end)
      else match parse_digits k 0 with
           | Some n => if (n <=? 4294967294)%N then Some n else None
           | None => None
           end
  end.

Definition isArrayIndex (k : string) : bool :=
  match arrayIndex k with Some _ => true | None => false end.

(** Two array-index keys in ascending order of their indices. *)
Definition indexLe (a b : string) : Prop :=
  match arrayIndex a, arrayIndex b with
  | Some i, Some j => (i <= j)%N
  | _, _ => False
  end.

(** [OrdinaryOwnPropertyKeys]: array indices in ascending numeric order,
    then the other string keys in creation order. *)
Fixpoint insert_by_index {A : Type} (i : N) (x : A) (l : list (N * A)) : list (N * A) :=
  match l with
  | [] => [(i, x)]
  | (j, y) :: l' =>
      if (i <? j)%N then (i, x) :: l else (j, y) :: insert_by_index i x l'
  end.

Fixpoint index_entries {A : Type} (o : JsObject A) : list (N * (string * A)) :=
  match o with
  | [] => []
  | (k, v) :: o' =>
      match arrayIndex k with
      | Some i => insert_by_index i (k, v) (index_entries o')
      | None => index_entries o'
      end
  end.

Definition named_entries {A : Type} (o : JsObject A) : list (string * A) :=
  filter (fun kv => negb (isArrayIndex (fst kv))) o.

Definition Object_entries {A : Type} (o : JsObject A) : list (string * A) :=
  map snd (index_entries o) ++ named_entries o.

Definition Object_values {A : Type} (o : JsObject A) : list A :=
  map snd (Object_entries o).

(** *** Array.prototype.sort *)

(** ECMAScript asks for a stable sort and reads the comparator's result by
    its sign, a [NaN] counting as zero. For a consistent comparator the
    result is fixed by that contract; it is computed here by stable
    insertion. For a comparator that is not consistent on the elements (a
    difference of values one of which is [NaN] ties that element with
    every other) the contract leaves the order to the implementation, and
    the insertion is one of the orders an engine may return, not the order
    of every engine: statements about the order of a result carry the
    proviso that the comparator is consistent on the elements sorted. *)
Section Sort.
Context {A : Type}.
Variable comparefn : A -> A -> float.

Fixpoint sort_insert (x : A) (sorted : list A) : list A :=
  match sorted with
  | [] => [x]
  | y :: rest =>
      if (0 <? comparefn x y)%float then y :: sort_insert x rest
      else x :: sorted
  end.

Definition Array_sort (l : list A) : list A := fold_right sort_insert [] l.

End Sort.

(** *** Exceptions *)

(** The outcome of an evaluation that may throw; [err] is what [String]
    makes of the thrown value. *)
Inductive Result (A : Type) : Type :=
| Ok (a : A)
| Throw (err : string).
Arguments Ok {A} a.
Arguments Throw {A} err.

Definition bind {A B : Type} (m : Result A) (f : A -> Result B) : Result B :=
  match m with
  | Ok a => f a
  | Throw e => Throw e
  end.

Fixpoint mapM {A B : Type} (f : A -> Result B) (l : list A) : Result (list B) :=
  match l with
  | [] => Ok []
  | x :: l' => bind (f x) (fun y => bind (mapM f l') (fun ys => Ok (y :: ys)))
  end.

(** [for (const r of rows) body], the loop state threaded through. *)
Fixpoint for_of {S R : Type} (body : S -> R -> Result S) (rows : list R) (s : S) : Result S :=
  match rows with
  | [] => Ok s
  | r :: rest => bind (body s r) (for_of body rest)
  end.

(** *** Calls with a spread argument *)

(** [f(...args)] passes the elements of an array as the arguments of one
    call. An engine bounds the number of arguments a call can take (they
    go on its stack) and throws a [RangeError] beyond; the bound and the
    text of the error are the engine's. *)
Class JsLimits : Type := {
  maxArguments : nat;
  tooManyArguments : string
}.

Definition spread {lim : JsLimits} {A B : Type} (f : list A -> B) (args : list A) : Result B :=
  if (List.length args <=? maxArguments)%nat then Ok (f args) else Throw tooManyArguments.

(** *** Vocabulary for statements about order *)

(** [x] occurs before [y] in [l]. *)
Definition before {A : Type} (x y : A) (l : list A) : Prop :=
  exists l1 l2 l3, l = l1 ++ x :: l2 ++ y :: l3.

(** The comparator does not ask for [a] to come after [b]. *)
Definition inOrder {A : Type} (comparefn : A -> A -> float) (a b : A) : Prop :=
  (0 <? comparefn a b)%float = false.

(** The distinct strings of a list, in order of first occurrence. *)
Definition distinct (l : list string) : list string := fold_left StrSet_add l [].

(** The sum the loops accumulate: from zero, left to right. *)
Definition sum (l : list float) : float := fold_left PrimFloat.add l 0%float.

(** *** JSON.stringify *)

Definition chr (n : nat) : string := String (ascii_of_nat n) EmptyString.

Definition hexDigit (n : N) : string :=
  String (ascii_of_N (if (n <? 10)%N then 48 + n else 87 + n)%N) EmptyString.

(** One code unit of [QuoteJSONString]. Strings are sequences of UTF-8
    bytes; bytes from 128 on belong to well-formed text and pass unchanged. *)
Definition escapeChar (c : ascii) : string :=
  let n := N_of_ascii c in
  if (n =? 34)%N then chr 92 ++ chr 34
  else if (n =? 92)%N then chr 92 ++ chr 92
  else if (n =? 8)%N then chr 92 ++ "b"
  else if (n =? 9)%N then chr 92 ++ "t"
  else if (n =? 10)%N then chr 92 ++ "n"
  else if (n =? 12)%N then chr 92 ++ "f"
  else if (n =? 13)%N then chr 92 ++ "r"
  else if (n <? 32)%N then chr 92 ++ "u00" ++ hexDigit (n / 16) ++ hexDigit (n mod 16)
  else String c EmptyString.

Fixpoint escapeJSON (s : string) : string :=
  match s with
  | EmptyString => EmptyString
  | String c s' => escapeChar c ++ escapeJSON s'
  end.

Definition QuoteJSONString (s : string) : string := chr 34 ++ escapeJSON s ++ chr 34.

Section Json.
Context {rt : JsRuntime}.

(** [SerializeJSONProperty] on a scalar: [None] stands for [undefined],
    which makes [JSON.stringify] leave the property out. *)
Definition serializeValue (v : JsValue) : option string :=
  match v with
  | VUndefined => None
  | VNull => Some "null"
  | VBool true => Some "true"
  | VBool false => Some "false"
  | VNum n => Some (if isFinite n then NumberToString n else "null")
  | VStr s => Some (QuoteJSONString s)
  end.

Fixpoint serializeMembers (entries : list (string * JsValue)) : list string :=
  match entries with
  | [] => []
  | (k, v) :: rest =>
      match serializeValue v with
      | Some sv => (QuoteJSONString k ++ ":" ++ sv)%string :: serializeMembers rest
      | None => serializeMembers rest
      end
  end.

(** [JSON.stringify(o)] for an object of scalars. *)
Definition JSON_stringify (o : JsObject JsValue) : string :=
  "{" ++ String.concat "," (serializeMembers (Object_entries o)) ++ "}".

(** [JSON.stringify(rows)] for an array of such objects. *)
Definition JSON_stringify_array (rows : list (JsObject JsValue)) : string :=
  "[" ++ String.concat "," (map JSON_stringify rows) ++ "]".

End Json.

Declare Scope js_scope.
Delimit Scope js_scope with js.
Notation "x <- m ;; k" := (bind m (fun x => k))
  (at level 61, m at next level, right associativity) : js_scope.

End Js.

Import Js.
Local Open Scope js_scope.

(** ** The aggregation worker *)

Module Worker.

(** What a cell of a posted row can be: a scalar, an object whose
    conversions to string and to number succeed with the given results, or
    an object whose conversion to a primitive throws (a structured clone can
    carry one: an own data property [toString] shadows the method). *)
Inductive Cell : Type :=
| Scalar (v : JsValue)
| Object (str : string) (num : float)
| Throwing (err : string).

(** An element of the [data] array: an object, or [null]/[undefined]. *)
Definition Row : Type := option (JsObject Cell).

(** The [config] object; an absent field is [None]. *)
Record Config : Type := {
  xAxis : option string;
  yAxis : option string;
  aggregation : option string;
  sortKey : option string;
  sortDirection : option string
}.

(** [event.data || {}]: [data] is [None] when the payload carries no array
    under [data] (an absent or falsy payload included). *)
Record Message : Type := {
  data : option (list Row);
  config : option Config
}.

Record Group : Type := { g_name : Cell; g_value : float; g_count : nat }.

Record Point : Type := { name : string; value : float; size : nat }.

Inductive Response : Type :=
| Success (points : list Point)
| Error (error : string).

(** [config?.f], then the key a property access makes of it. *)
Definition field (config : option Config) (f : Config -> option string) : option string :=
  match config with
  | Some c => f c
  | None => None
  end.

Definition propertyKey (k : option string) : string :=
  match k with
  | Some s => s
  | None => "undefined"
  end.

(** [config?.f || dflt]: the empty string is falsy. *)
Definition fieldOr (config : option Config) (f : Config -> option string) (dflt : string) : string :=
  match field config f with
  | Some s => if String.eqb s "" then dflt else s
  | None => dflt
  end.

(** [row?.[k]] *)
Definition cell (row : Row) (k : string) : Cell :=
  match row with
  | Some o =>
      match obj_get o k with
      | Some c => c
      | None => Scalar VUndefined
      end
  | None => Scalar VUndefined
  end.

(** [c ?? dflt] *)
Definition nullish (c : Cell) : bool :=
  match c with
  | Scalar VUndefined | Scalar VNull => true
  | _ => false
  end.

Definition coalesce (c dflt : Cell) : Cell := if nullish c then dflt else c.

Section Engine.
Context {rt : JsRuntime}.

(** [Number(c)] *)
Definition NumberOf (c : Cell) : Result float :=
  match c with
  | Scalar v => Ok (ToNumber v)
  | Object _ num => Ok num
  | Throwing err => Throw err
  end.

(** [String(c)], also the property key [c] is used as. *)
Definition StringOf (c : Cell) : Result string :=
  match c with
  | Scalar v => Ok (ToString v)
  | Object str _ => Ok str
  | Throwing err => Throw err
  end.

(** The group key of a row: what lines 19 and 21 index [groups] with. *)
Definition keyOf (xk : string) (row : Row) : Result string :=
  StringOf (coalesce (cell row xk) (Scalar (VStr "Unknown"))).

(** The summand of a row (line 20). *)
Definition amountOf (yk : string) (row : Row) : Result float :=
  n <- NumberOf (cell row yk) ;; Ok (orElse n 0).

(** The rows of the group with key [k]. *)
Definition inGroup (xk k : string) (row : Row) : bool :=
  match keyOf xk row with
  | Ok k' => String.eqb k' k
  | Throw _ => false
  end.

Definition rowsOf (xk k : string) (rows : list Row) : list Row :=
  filter (inGroup xk k) rows.

(** The specification's reading of a missing key, in its own words: null,
    undefined, the empty string or the literal string null. *)
Definition specMissing (c : Cell) : bool :=
  match c with
  | Scalar VNull | Scalar VUndefined => true
  | Scalar (VStr s) => String.eqb s "" || String.eqb s "null"
  | _ => false
  end.

(** Lines 21 to 23: create the group on first sight, then add to it. *)
Definition tally (groups : JsObject Group) (x : Cell) (k : string) (y : float)
  : JsObject Group :=
  let g :=
    match obj_get groups k with
    | Some g => g
    | None => {| g_name := x; g_value := 0; g_count := 0 |}
    end in
  obj_set groups k
    {| g_name := g_name g; g_value := (g_value g + y)%float; g_count := S (g_count g) |}.

(** The body of the grouping loop (lines 19 to 23). *)
Definition accumulate (xk yk : string) (groups : JsObject Group) (row : Row)
  : Result (JsObject Group) :=
  let x := coalesce (cell row xk) (Scalar (VStr "Unknown")) in
  n <- NumberOf (cell row yk) ;;
  let y := orElse n 0 in
  k <- StringOf x ;;
  Ok (tally groups x k y).

(** What a row contributes: its group key and its summand. *)
Definition entryOf (xk yk : string) (row : Row) : Result (string * float) :=
  y <- amountOf yk row ;; k <- keyOf xk row ;; Ok (k, y).

(** The summands filed under key [k]. *)
Definition members (k : string) (entries : list (string * float)) : list float :=
  map snd (filter (fun e => String.eqb (fst e) k) entries).

(** The loop invariant: a group agrees with the entries filed under its
    key, and the keys stand in order of first occurrence. *)
Definition GroupOk (es : list (string * float)) (k : string) (g : Group) : Prop :=
  StringOf (g_name g) = Ok k /\
  g_count g = List.length (members k es) /\
  g_value g = sum (members k es) /\
  (0 < g_count g)%nat.

Definition Inv (es : list (string * float)) (groups : JsObject Group) : Prop :=
  map fst groups = distinct (map fst es) /\
  forall k g, obj_get groups k = Some g -> GroupOk es k g.

(** The point line 26 makes of the group stored under key [k]. *)
Definition pointOf (aggregation : string) (kg : string * Group) : Point :=
  {| name := fst kg;
     value := if String.eqb aggregation "average" && (0 <? g_count (snd kg))%nat
              then (g_value (snd kg) / nat2float (g_count (snd kg)))%float
              else g_value (snd kg);
     size := g_count (snd kg) |}.

(** The callback of [Object.values(groups).map] (line 26). *)
Definition toPoint (aggregation : string) (g : Group) : Result Point :=
  nm <- StringOf (g_name g) ;;
  Ok {| name := nm;
        value := if String.eqb aggregation "average" && (0 <? g_count g)%nat
                 then (g_value g / nat2float (g_count g))%float
                 else g_value g;
        size := g_count g |}.

(** The comparator handed to [result.sort] (lines 29 to 33). *)
Definition comparator (sortKey sortDirection : string) (a b : Point) : float :=
  if String.eqb sortKey "y"
  then (if String.eqb sortDirection "asc"
        then (value a - value b)%float
        else (value b - value a)%float)
  else (if String.eqb sortDirection "asc"
        then localeCompare (name a) (name b)
        else localeCompare (name b) (name a)).

(** The active sort order, [p] standing at or before the place of [q]: by
    value, as numbers, for the sort key [y], and by name, as
    [localeCompare] ranks the names, for any other key; ascending for the
    direction [asc] and descending for any other. *)
Definition activeOrder (sortKey sortDirection : string) (p q : Point) : Prop :=
  if String.eqb sortKey "y"
  then (if String.eqb sortDirection "asc"
        then (value p <=? value q)%float = true
        else (value q <=? value p)%float = true)
  else (if String.eqb sortDirection "asc"
        then (0 <? localeCompare (name p) (name q))%float = false
        else (0 <? localeCompare (name q) (name p))%float = false).

(** When the comparator is consistent on the points: by value, no value is
    [NaN] (a difference with [NaN] is [NaN], which the sort reads as a tie,
    so that a [NaN] value ties with values that do not tie with each other);
    by name, [localeCompare] puts [a] before [b] exactly when it puts [b]
    after [a], and not being put after is transitive. *)
Definition comparable (sortKey : string) (pts : list Point) : Prop :=
  if String.eqb sortKey "y"
  then Forall (fun p => isNaN (value p) = false) pts
  else (forall a b, (localeCompare a b <? 0)%float = (0 <? localeCompare b a)%float) /\
       (forall a b c, (0 <? localeCompare a b)%float = false ->
                      (0 <? localeCompare b c)%float = false ->
                      (0 <? localeCompare a c)%float = false).

(** The groups object after the loop (lines 16 to 24). *)
Definition grouping (rows : list Row) (config : option Config) : Result (JsObject Group) :=
  for_of (accumulate (propertyKey (field config xAxis)) (propertyKey (field config yAxis)))
         rows [].

(** The points before sorting (line 26). *)
Definition points (rows : list Row) (config : option Config) : Result (list Point) :=
  groups <- grouping rows config ;;
  mapM (toPoint (fieldOr config aggregation "sum")) (Object_values groups).

(** The points after sorting (lines 29 to 33). *)
Definition sorted (rows : list Row) (config : option Config) : Result (list Point) :=
  result <- points rows config ;;
  Ok (Array_sort (comparator (fieldOr config sortKey "y") (fieldOr config sortDirection "desc"))
                 result).

(** Lines 9 to 36 of the handler: group, aggregate, sort, truncate. *)
Definition aggregate (rows : list Row) (config : option Config) : Result (list Point) :=
  result <- sorted rows config ;;
  Ok (firstn 1000 result).

End Engine.

(** The handler's effects: the responses it posts, in order, and whether
    it completes or lets an exception out. *)
Definition Handler (A : Type) : Type := (list Response * Result A)%type.

Definition done {A : Type} (a : A) : Handler A := ([], Ok a).

Definition postMessage (r : Response) : Handler unit := ([r], Ok tt).

Definition eval {A : Type} (m : Result A) : Handler A := ([], m).

Definition andThen {A B : Type} (m : Handler A) (k : A -> Handler B) : Handler B :=
  match m with
  | (posted, Ok a) => let (more, r) := k a in (posted ++ more, r)
  | (posted, Throw e) => (posted, Throw e)
  end.

(** [try { body } catch (err) { handler(String(err)) }] *)
Definition tryCatch {A : Type} (body : Handler A) (handler : string -> Handler A) : Handler A :=
  match body with
  | (posted, Throw e) => let (more, r) := handler e in (posted ++ more, r)
  | (posted, Ok a) => (posted, Ok a)
  end.

(** [self.onmessage] *)
Definition onmessage {rt : JsRuntime} (event : Message) : Handler unit :=
  tryCatch
    (match data event with
     | None => postMessage (Error "No data array provided")
     | Some rows =>
         andThen (eval (aggregate rows (config event)))
                 (fun result => postMessage (Success result))
     end)
    (fun err => postMessage (Error err)).

End Worker.

(** ** Shared types *)

Module Types.

(** The summary record, as [calculateMetricsFromData] builds it. *)
Record DataSummary : Type := {
  totalRows : float;
  totalColumns : float;
  missingValues : float;
  duplicates : float;
  memoryUsage : string
}.

End Types.

Import Types.

(** ** The data context: summary computer *)

Module DataContext.

(** A row of [dataset.data] is an object of scalars, read and written by
    its own properties. This leaves two things of the source outside the
    functions of this module: a row that is [null] or [undefined], on
    which the read of line 44 throws a [TypeError] when there is a column
    to read; and a column named like a property that every object inherits
    from [Object.prototype] (see [inheritedNames]), which a row without a
    property of its own under the name answers with the inherited value,
    and which, for [__proto__], line 53 does not store as a property of the
    rebuilt row. *)
Definition Row : Type := JsObject JsValue.

(** The names of the properties of [Object.prototype]. *)
Definition inheritedNames : list string :=
  [ "constructor"; "__defineGetter__"; "__defineSetter__"; "hasOwnProperty";
    "__lookupGetter__"; "__lookupSetter__"; "isPrototypeOf"; "propertyIsEnumerable";
    "toString"; "valueOf"; "__proto__"; "toLocaleString" ].

Definition plainName (k : string) : bool :=
  negb (existsb (String.eqb k) inheritedNames).

Record ColumnInfo : Type := { name : string }.

(** A dataset as [calculateMetricsFromData] probes it: [data] and
    [columns] may be absent. *)
Record Dataset : Type := {
  columns : option (list ColumnInfo);
  data : option (list Row)
}.

(** [row[colName]] *)
Definition get (row : Row) (colName : string) : JsValue :=
  match obj_get row colName with
  | Some v => v
  | None => VUndefined
  end.

(** Line 45: [value === null || value === undefined || value === '' ||
    value === 'null']. *)
Definition isMissing (value : JsValue) : bool :=
  match value with
  | VNull | VUndefined => true
  | VStr s => String.eqb s "" || String.eqb s "null"
  | _ => false
  end.

(** The state of the loop over the rows (lines 32 to 37). *)
Record Scan : Type := {
  missing : nat;
  rowHashes : list string;
  rowValues : list Row
}.

(** The inner loop (lines 43 to 54): the missing cells of the row, whether
    all are missing, and the row rebuilt in column order. *)
Fixpoint scanRow (row : Row) (columnNames : list string)
  (missing : nat) (rowHasAllNulls : bool) (rowData : Row) : nat * bool * Row :=
  match columnNames with
  | [] => (missing, rowHasAllNulls, rowData)
  | colName :: rest =>
      let value := get row colName in
      if isMissing value
      then scanRow row rest (S missing) rowHasAllNulls (obj_set rowData colName value)
      else scanRow row rest missing false (obj_set rowData colName value)
  end.

(** What the inner loop computes, said directly: the row rebuilt in column
    order, whether all its cells are missing, and how many are. *)
Definition rebuilt (columnNames : list string) (row : Row) : Row :=
  fold_left (fun rowData colName => obj_set rowData colName (get row colName)) columnNames [].

Definition allNull (columnNames : list string) (row : Row) : bool :=
  forallb (fun colName => isMissing (get row colName)) columnNames.

Definition missingIn (columnNames : list string) (row : Row) : nat :=
  List.length (filter (fun colName => isMissing (get row colName)) columnNames).

Section Metrics.
Context {rt : JsRuntime}.

(** The canonical serializations of the rows that are not all null, each
    once. *)
Definition serializations (columnNames : list string) (rows : list Row) : list string :=
  distinct (map (fun row => JSON_stringify (rebuilt columnNames row))
                (filter (fun row => negb (allNull columnNames row)) rows)).

(** The duplicate count as the specification words it: the number of rows
    that are not all null, less the number of their distinct canonical
    serializations. *)
Definition specDuplicates (columnNames : list string) (rows : list Row) : float :=
  (nat2float (List.length (filter (fun row => negb (allNull columnNames row)) rows)) -
   nat2float (List.length (serializations columnNames rows)))%float.

(** The body of the outer loop (lines 39 to 62). *)
Definition scan (columnNames : list string) (st : Scan) (row : Row) : Scan :=
  let '(missing, rowHasAllNulls, rowData) := scanRow row columnNames (missing st) true [] in
  if negb rowHasAllNulls
  then {| missing := missing;
          rowHashes := StrSet_add (rowHashes st) (JSON_stringify rowData);
          rowValues := rowValues st ++ [rowData] |}
  else {| missing := missing; rowHashes := rowHashes st; rowValues := rowValues st |}.

Definition scanAll (columnNames : list string) (rows : list Row) : Scan :=
  fold_left (scan columnNames) rows {| missing := 0; rowHashes := []; rowValues := [] |}.

(** Lines 65 to 70; the size of the blob is the UTF-8 length of the text. *)
Definition memoryUsageOf (rows : list Row) : string :=
  let size := String.length (JSON_stringify_array rows) in
  if (size <? 1024)%nat then (NumberToString (nat2float size) ++ " B")%string
  else if (size <? 1024 * 1024)%nat
       then (toFixed (nat2float size / 1024)%float 2 ++ " KB")%string
       else (toFixed (nat2float size / (1024 * 1024))%float 2 ++ " MB")%string.

Definition calculateMetricsFromData (dataset : option Dataset) : option DataSummary :=
  match dataset with
  | None => None
  | Some ds =>
      match data ds, columns ds with
      | Some rows, Some cols =>
          if (List.length rows =? 0)%nat
          then Some {| totalRows := 0;
                       totalColumns := nat2float (List.length cols);
                       missingValues := 0;
                       duplicates := 0;
                       memoryUsage := "0 B" |}
          else
            let st := scanAll (map name cols) rows in
            Some {| totalRows := nat2float (List.length rows);
                    totalColumns := nat2float (List.length cols);
                    missingValues := nat2float (missing st);
                    duplicates := (nat2float (List.length rows) - nat2float (List.length (rowHashes st)))%float;
                    memoryUsage := memoryUsageOf rows |}
      | _, _ => None
      end
  end.

End Metrics.

End DataContext.

(** ** The overview component: quick columns, histogram, correlation, score *)

Module Overview.

Definition Row : Type := JsObject JsValue.

(** The fields of [Column] these functions read. *)
Record Column : Type := { name : string; type : option string }.

Record Dataset : Type := { columns : list Column; data : list Row }.

Record Bin : Type := { bin : string; count : nat }.

(** [r[name]] *)
Definition get (r : Row) (name : string) : JsValue :=
  match obj_get r name with
  | Some v => v
  | None => VUndefined
  end.

Definition isNumber (v : JsValue) : bool :=
  match v with
  | VNum n => negb (isNaN n) && isFinite n
  | _ => false
  end.

(** A string or [null] used as a condition: [null] and the empty string
    are falsy. *)
Definition chosen (c : option string) : bool :=
  match c with
  | Some s => negb (String.eqb s "")
  | None => false
  end.

(** [counts[idx] += 1] on the array of bin counts. A key that is no array
    index (a fraction, a negative number, [NaN]) names a property beside
    the elements and leaves them alone; an index from the length on would
    grow the array, which the clamp by [bins - 1] rules out (see
    [Histogram.binIndex_below_bins]), and is left alone here too. *)
Fixpoint increment (counts : list nat) (i : nat) : list nat :=
  match counts, i with
  | [], _ => []
  | c :: rest, O => S c :: rest
  | c :: rest, S i' => c :: increment rest i'
  end.

Definition bump (counts : list nat) (idx : float) : list nat :=
  match float2Z idx with
  | Some i => if (0 <=? i)%Z then increment counts (Z.to_nat i) else counts
  | None => counts
  end.

(** [a.map((c, i) => f c i)] *)
Fixpoint mapi {A B : Type} (f : A -> nat -> B) (a : list A) (i : nat) : list B :=
  match a with
  | [] => []
  | c :: rest => f c i :: mapi f rest (S i)
  end.

(** The double loop of lines 223 to 232, over the ordered names. *)
Definition matrixOf {A : Type} (f : string -> string -> A) (names : list string)
  : list (list A) :=
  map (fun ni => map (fun nj => f ni nj) names) names.

(** The local [mean] of [pearson]. *)
Definition mean (a : list float) : float :=
  (fold_left PrimFloat.add a 0 / nat2float (List.length a))%float.

(** The loop of [pearson] (lines 191 to 197). *)
Definition pearsonStep (mx my : float) (acc : float * float * float) (xy : float * float)
  : float * float * float :=
  let '(num, dx, dy) := acc in
  let vx := (fst xy - mx)%float in
  let vy := (snd xy - my)%float in
  ((num + vx * vy)%float, (dx + vx * vx)%float, (dy + vy * vy)%float).

Definition pearson (xs ys : list float) : float :=
  let n := Nat.min (List.length xs) (List.length ys) in
  if (n =? 0)%nat then 0%float
  else
    let x := firstn n xs in
    let y := firstn n ys in
    let mx := mean x in
    let my := mean y in
    let '(num, dx, dy) := fold_left (pearsonStep mx my) (combine x y) (0, 0, 0)%float in
    let denom := orElse (Math_sqrt (dx * dy)) 1 in
    (num / denom)%float.

(** The element of the counts that an index selects: the integer it
    denotes, when that lies within the array. *)
Definition cellOf (bins : nat) (idx : float) : option nat :=
  match float2Z idx with
  | Some i => if (0 <=? i)%Z && (i <? Z.of_nat bins)%Z then Some (Z.to_nat i) else None
  | None => None
  end.

Definition countedIn (bins : nat) (index : float -> float) (j : nat) (v : float) : bool :=
  match cellOf bins (index v) with
  | Some k => (k =? j)%nat
  | None => false
  end.

Definition counted (bins : nat) (index : float -> float) (v : float) : bool :=
  match cellOf bins (index v) with
  | Some _ => true
  | None => false
  end.

(** The width of the bins (lines 146 to 149). *)
Definition binWidth (values : list float) (bins : nat) : float :=
  (orElse (Math_max values - Math_min values) 1 / nat2float bins)%float.

(** The index line 152 computes for a value. *)
Definition binIndex (min width : float) (bins : nat) (v : float) : float :=
  Math_min2 (Z2float (Z.of_nat bins - 1)) (Math_floor ((v - min) / width)).

Section Builders.
Context {rt : JsRuntime} {lim : JsLimits}.

(** Lines 113 and 114. *)
Definition typedNumeric (col : Column) : bool :=
  match type col with
  | Some t => includes (toLowerCase t) "num" || includes (toLowerCase t) "int"
  | None => false
  end.

(** The filter of lines 120 to 122 and 208 to 210. *)
Definition numLike (v : JsValue) : bool :=
  isNumber v ||
  (negb (isNaN (ToNumber v)) &&
   negb (match v with VNull => true | _ => false end) &&
   negb (match v with VStr s => String.eqb s "" | _ => false end)).

(** [numLike.length >= Math.max(5, Math.floor(sample.length * 0.6))] *)
Definition mostlyNumeric (sample : list JsValue) : bool :=
  (Math_max2 5 (Math_floor (nat2float (List.length sample) * 0.6))
   <=? nat2float (List.length (filter numLike sample)))%float.

(** Lines 129 to 133. *)
Definition nonEmpty (v : JsValue) : bool :=
  match v with
  | VNull | VUndefined => false
  | VStr s => negb (String.eqb s "")
  | _ => true
  end.

Definition uniqueCount (sample : list JsValue) : nat :=
  List.length (Set_of (filter nonEmpty sample)).

(** The body of the loop of [pickQuickColumns], up to the [break]. *)
Definition pickStep (data : list Row) (col : Column) (numericCol categoricalCol : option string)
  : option string * option string :=
  let numericCol :=
    if negb (chosen numericCol)
    then (if typedNumeric col then Some (name col)
          else if mostlyNumeric (map (fun r => get r (name col)) (firstn 20 data))
               then Some (name col) else numericCol)
    else numericCol in
  let categoricalCol :=
    if negb (chosen categoricalCol)
    then (let n := uniqueCount (map (fun r => get r (name col)) (firstn 50 data)) in
          if (1 <? n)%nat && (n <=? 20)%nat then Some (name col) else categoricalCol)
    else categoricalCol in
  (numericCol, categoricalCol).

Fixpoint pickLoop (columns : list Column) (data : list Row)
  (numericCol categoricalCol : option string) : option string * option string :=
  match columns with
  | [] => (numericCol, categoricalCol)
  | col :: rest =>
      let '(numericCol, categoricalCol) := pickStep data col numericCol categoricalCol in
      if chosen numericCol && chosen categoricalCol then (numericCol, categoricalCol)
      else pickLoop rest data numericCol categoricalCol
  end.

(** Returns [(numericCol, categoricalCol)]. *)
Definition pickQuickColumns (columns : list Column) (data : list Row)
  : option string * option string :=
  pickLoop columns data None None.

Definition binLabel (min width : float) (i : nat) : string :=
  (toFixed (min + nat2float i * width)%float 1 ++ "–" ++
   toFixed (min + nat2float (i + 1) * width)%float 1)%string.

(** [bins] is [None] when the caller leaves the argument out. Lines 146
    and 147 spread the values into the arguments of [Math.min] and of
    [Math.max]: on a list too long for one call they throw, and nothing in
    the function catches that. *)
Definition buildHistogram (values : list float) (bins : option nat) : Result (list Bin) :=
  let bins := match bins with Some b => b | None => 12%nat end in
  match values with
  | [] => Ok []
  | _ :: _ =>
      min <- spread Math_min values ;;
      max <- spread Math_max values ;;
      let range := orElse (max - min) 1 in
      let width := (range / nat2float bins)%float in
      let counts :=
        fold_left (fun counts v => bump counts (binIndex min width bins v))
                  values (repeat 0%nat bins) in
      Ok (mapi (fun c i => {| bin := binLabel min width i; count := c |}) counts 0)
  end.

(** Lines 203 to 213. *)
Definition eligible (data : list Row) (name : string) : bool :=
  mostlyNumeric (map (fun r => get r name) (firstn 50 data)).

(** Lines 215 to 221: the [series] object. *)
Definition seriesOf (data : list Row) (name : string) : list float :=
  filter (fun v => negb (isNaN v)) (map (fun r => ToNumber (get r name)) data).

Definition buildSeries (data : list Row) (numericNames : list string) : JsObject (list float) :=
  fold_left (fun series name => obj_set series name (seriesOf data name)) numericNames [].

(** [series[name] || []] *)
Definition lookup (series : JsObject (list float)) (name : string) : list float :=
  match obj_get series name with
  | Some a => a
  | None => []
  end.

(** Lines 227 to 230. *)
Definition entry (series : JsObject (list float)) (ni nj : string) : float :=
  let xi := lookup series ni in
  let yj := lookup series nj in
  let len := Nat.min (List.length xi) (List.length yj) in
  if (len =? 0)%nat then 0%float else pearson (firstn len xi) (firstn len yj).

(** Returns [(numericNames, matrix)]. *)
Definition buildCorrelation (columns : list Column) (data : list Row)
  : list string * list (list float) :=
  let numericNames := filter (eligible data) (map name columns) in
  let series := buildSeries data numericNames in
  (numericNames, matrixOf (entry series) numericNames).

End Builders.

(** The summary fields are typed [number], so the destructuring defaults
    do not fire; nothing in the body throws on numbers, so the [catch] is
    never entered. *)
Definition computeQualityScore (summary : option DataSummary) (dataset : option Dataset)
  : float :=
  match summary, dataset with
  | Some s, Some ds =>
      if (List.length (columns ds) =? 0)%nat then 0%float
      else
        let totalRows := totalRows s in
        let totalColumns := nat2float (List.length (columns ds)) in
        if (totalRows <=? 0)%float || (totalColumns <=? 0)%float then 0%float
        else
          let totalCells := (totalRows * totalColumns)%float in
          let missingPenalty :=
            if (0 <? totalCells)%float
            then (Math_min2 1 (Math_max2 0 (missingValues s / totalCells)) * 0.9)%float
            else 0%float in
          let dupPenalty :=
            if (0 <? totalRows)%float
            then (Math_min2 1 (Math_max2 0 (duplicates s / totalRows)) * 0.5)%float
            else 0%float in
          let score := (100 * (1 - (missingPenalty + dupPenalty)))%float in
          let score := Math_max2 0 (Math_min2 100 (Math_round score)) in
          if isFinite score then score else 0%float
  | _, _ => 0%float
  end.

(** The deviations of a series from its computed mean. *)
Definition deviations (a : list float) : list float :=
  map (fun v => (v - mean a)%float) a.

(** The score of a summary that passes the guards of lines 246 to 258, in
    the order the code evaluates it (lines 260 to 273): each penalty is 0
    unless its denominator is above 0, the penalties are added, and the
    rounding comes before the clamp. *)
Definition clamp01 (x : float) : float := Math_min2 1 (Math_max2 0 x).

Definition scoreOf (missingValues duplicates totalRows : float) (totalColumns : nat) : float :=
  let totalCells := (totalRows * nat2float totalColumns)%float in
  let missingPenalty :=
    if (0 <? totalCells)%float then (clamp01 (missingValues / totalCells) * 0.9)%float
    else 0%float in
  let dupPenalty :=
    if (0 <? totalRows)%float then (clamp01 (duplicates / totalRows) * 0.5)%float
    else 0%float in
  Math_max2 0 (Math_min2 100 (Math_round (100 * (1 - (missingPenalty + dupPenalty))))).

(** The score as the specification words it,
    [round(clamp(100 * (1 - missingPenalty - duplicatePenalty), 0, 100))],
    once evaluated on doubles as written and once in exact arithmetic. *)
Definition specScore (missingValues duplicates totalRows : float) (totalColumns : nat) : float :=
  let totalCells := (totalRows * nat2float totalColumns)%float in
  let missingPenalty := (clamp01 (missingValues / totalCells) * 0.9)%float in
  let duplicatePenalty := (clamp01 (duplicates / totalRows) * 0.5)%float in
  Math_round (Math_max2 0 (Math_min2 100 (100 * (1 - missingPenalty - duplicatePenalty)))).

Definition clampQ (lo hi x : Q) : Q := Qmax lo (Qmin hi x).

Definition specScoreExact (missingValues duplicates totalRows totalColumns : Z) : Z :=
  let totalCells := (inject_Z totalRows * inject_Z totalColumns)%Q in
  let missingPenalty :=
    (clampQ 0 1 (inject_Z missingValues / totalCells) * (9 # 10))%Q in
  let duplicatePenalty :=
    (clampQ 0 1 (inject_Z duplicates / inject_Z totalRows) * (1 # 2))%Q in
  Qfloor (clampQ 0 100 (100 * (1 - missingPenalty - duplicatePenalty)) + (1 # 2))%Q.

End Overview.

(** ** A reference runtime for the examples

    The general theorems quantify over the runtime. The examples run on this
    instance, which agrees with ECMAScript on the arguments they use: it
    prints and reads decimal integers of magnitude below 2^53, [NaN] and the
    infinities, pads [toFixed] on such integers, lowers ASCII letters and
    compares strings byte by byte. Its answers on other arguments (fractions
    to print, other numeric literals to read, text beyond ASCII) are
    placeholders. *)

Module Reference.

Definition printZ (z : Z) : string := NilZero.string_of_int (Z.to_int z).

Definition refNumberToString (x : float) : string :=
  match Prim2SF x with
  | S754_nan => "NaN"
  | S754_infinity false => "Infinity"
  | S754_infinity true => "-Infinity"
  | S754_zero _ => "0"
  | S754_finite s m e =>
      match SF2Z (S754_finite s m e) with
      | Some z => printZ z
      | None => (printZ (cond_Zopp s (Zpos m)) ++ "p" ++ printZ e)%string
      end
  end.

Definition readDigits (s : string) : option Z :=
  match s with
  | EmptyString => None
  | _ => option_map Z.of_N (parse_digits s 0)
  end.

Definition readUnsigned (negative : bool) (s : string) : float :=
  if String.eqb s "Infinity" then (if negative then neg_infinity else infinity)
  else match readDigits s with
       | Some 0%Z => if negative then neg_zero else zero
       | Some z => Z2float (if negative then - z else z)
       | None => nan
       end.

Definition refStringToNumber (s : string) : float :=
  match s with
  | EmptyString => zero
  | String c rest =>
      if Ascii.eqb c "-" then readUnsigned true rest
      else if Ascii.eqb c "+" then readUnsigned false rest
      else readUnsigned false s
  end.

Fixpoint compareBytes (a b : string) : float :=
  match a, b with
  | EmptyString, EmptyString => 0%float
  | EmptyString, String _ _ => (-1)%float
  | String _ _, EmptyString => 1%float
  | String x a', String y b' =>
      if (N_of_ascii x <? N_of_ascii y)%N then (-1)%float
      else if (N_of_ascii y <? N_of_ascii x)%N then 1%float
      else compareBytes a' b'
  end.

Fixpoint zeros (n : nat) : string :=
  match n with
  | O => EmptyString
  | S n' => String "0" (zeros n')
  end.

Definition refToFixed (x : float) (digits : nat) : string :=
  match digits with
  | O => refNumberToString x
  | S _ => (refNumberToString x ++ "." ++ zeros digits)%string
  end.

Definition lowerChar (c : ascii) : ascii :=
  let n := N_of_ascii c in
  if ((65 <=? n) && (n <=? 90))%N then ascii_of_N (n + 32) else c.

Fixpoint refToLowerCase (s : string) : string :=
  match s with
  | EmptyString => EmptyString
  | String c s' => String (lowerChar c) (refToLowerCase s')
  end.

(** A bound of the order of the bounds of the engines in use. *)
#[export] Instance limits : JsLimits := {
  maxArguments := 256 * 256;
  tooManyArguments := "RangeError: Maximum call stack size exceeded"
}.

#[export] Instance runtime : JsRuntime := {
  NumberToString := refNumberToString;
  StringToNumber := refStringToNumber;
  localeCompare := compareBytes;
  toFixed := refToFixed;
  toLowerCase := refToLowerCase
}.

End Reference.

(** ** Sample inputs *)

Module Inputs.

Definition row (region : JsValue) (sales : JsValue) : Worker.Row :=
  Some [("region", Worker.Scalar region); ("sales", Worker.Scalar sales)].

Definition byValueDesc (aggregation : string) : Worker.Config :=
  {| Worker.xAxis := Some "region"; Worker.yAxis := Some "sales";
     Worker.aggregation := Some aggregation;
     Worker.sortKey := Some "y"; Worker.sortDirection := Some "desc" |}.

(** The dataset of the scenarios of the specification. *)
Definition regions : list Worker.Row :=
  [ row (VStr "A") (VNum 10); row (VStr "A") (VNum 20); row (VStr "B") (VNum 5) ].

(** One row whose [sales] is no number. *)
Definition withText : list Worker.Row :=
  [ row (VStr "A") (VNum 10); row (VStr "A") (VStr "N/A") ].

(** Keys the specification calls missing. *)
Definition blanks : list Worker.Row :=
  [ row (VStr "") (VNum 5); row (VStr "null") (VNum 7); row VNull (VNum 1); None ].

(** Two groups of equal value, their keys array indices. *)
Definition numbered : list Worker.Row :=
  [ row (VStr "10") (VNum 5); row (VStr "9") (VNum 5) ].

(** Four groups, three of them of equal value, two of those under keys
    that are array indices, met in descending order of the index. *)
Definition tied : list Worker.Row :=
  [ row (VStr "b") (VNum 5); row (VStr "10") (VNum 5); row (VStr "a") (VNum 7);
    row (VStr "9") (VNum 5) ].

(** Three groups of values 1, [NaN] (an infinity and its opposite, summed)
    and 2. *)
Definition withNaN : list Worker.Row :=
  [ row (VStr "a") (VNum 1);
    row (VStr "b") (VStr "Infinity"); row (VStr "b") (VStr "-Infinity");
    row (VStr "c") (VNum 2) ].

(** 1002 groups of one row, the group [i] of value [i], met in ascending
    order of [i]; [single i] is the point of the group [i]. *)
Definition manyRows : list Worker.Row :=
  map (fun i => row (VNum (nat2float i)) (VNum (nat2float i))) (seq 0 1002).

Definition single (i : nat) : Worker.Point :=
  {| Worker.name := Reference.printZ (Z.of_nat i); Worker.value := nat2float i;
     Worker.size := 1 |}.

(** 1001 groups: the groups 0 to 998 of values 2000 down to 1002, the group
    999 of value [NaN], and last the group 1000 of value 5000, the greatest
    of all. *)
Definition lateTop : list Worker.Row :=
  map (fun i => row (VNum (nat2float i)) (VNum (nat2float (2000 - i)))) (seq 0 999) ++
  [ row (VNum 999) (VStr "Infinity"); row (VNum 999) (VStr "-Infinity");
    row (VNum 1000) (VNum 5000) ].

(** A cell whose conversion to a primitive throws. *)
Definition poisoned : list Worker.Row :=
  [ row (VStr "A") (VNum 10);
    Some [("region", Worker.Throwing "TypeError: Cannot convert object to primitive value")] ].

(** Six rows of two numeric columns: one whose squares overflow, one
    constant at 0.1. *)
Definition pair (a b : float) : Overview.Row := [("a", VNum a); ("b", VNum b)].

Definition wild : list Overview.Row :=
  [ pair 1e200 0.1; pair (-1e200) 0.1; pair 0 0.1; pair 0 0.1; pair 0 0.1; pair 0 0.1 ]%float.

(** Five rows of two numeric columns, the second constant at 3. *)
Definition tame : list Overview.Row :=
  [ pair 1 3; pair 2 3; pair 3 3; pair 4 3; pair 5 3 ]%float.

(** Two identical rows and one row of nulls. *)
Definition person (id name : JsValue) : DataContext.Row := [("id", id); ("name", name)].

Definition twoAndNull : DataContext.Dataset :=
  {| DataContext.columns :=
       Some [ {| DataContext.name := "id" |}; {| DataContext.name := "name" |} ];
     DataContext.data :=
       Some [ person (VNum 1) (VStr "x"); person (VNum 1) (VStr "x"); person VNull VNull ] |}.

(** One column, typed numeric, with two distinct values. *)
Definition typed : list Overview.Column :=
  [ {| Overview.name := "n"; Overview.type := Some "Numeric" |} ].

Definition twoValues : list Overview.Row := [ [("n", VNum 1)]; [("n", VNum 2)] ].

(** A summary of 4 rows with 2 missing cells and 1 duplicate, for a
    dataset of 5 columns. *)
Definition smallSummary : Types.DataSummary :=
  {| Types.totalRows := 4; Types.totalColumns := 5; Types.missingValues := 2;
     Types.duplicates := 1; Types.memoryUsage := "0 B" |}.

(** A summary of no rows, and one whose row count is no number. *)
Definition emptySummary : Types.DataSummary :=
  {| Types.totalRows := 0; Types.totalColumns := 5; Types.missingValues := 0;
     Types.duplicates := 0; Types.memoryUsage := "0 B" |}.

Definition uncounted : Types.DataSummary :=
  {| Types.totalRows := nan; Types.totalColumns := 5; Types.missingValues := 2;
     Types.duplicates := 1; Types.memoryUsage := "0 B" |}.

Definition column (name : string) : Overview.Column :=
  {| Overview.name := name; Overview.type := None |}.

Definition fiveColumns : Overview.Dataset :=
  {| Overview.columns := [column "a"; column "b"; column "c"; column "d"; column "e"];
     Overview.data := [] |}.

End Inputs.

(** ** Vocabulary for the worker's failures and for its caller *)

Module WorkerTerms.
Import Worker.

(** A cell whose conversion to a primitive throws, and what it throws. *)
Definition thrownBy (c : Cell) : option string :=
  match c with
  | Throwing err => Some err
  | _ => None
  end.

(** What the loop body throws on a row: line 20 converts the value cell
    first, line 21 then makes a property key of the key cell. *)
Definition rowError (xk yk : string) (row : Row) : option string :=
  match thrownBy (cell row yk) with
  | Some err => Some err
  | None => thrownBy (cell row xk)
  end.

(** The exception of the first row, in order, on which the body throws. *)
Fixpoint firstError (xk yk : string) (rows : list Row) : option string :=
  match rows with
  | [] => None
  | row :: rest =>
      match rowError xk yk row with
      | Some err => Some err
      | None => firstError xk yk rest
      end
  end.

End WorkerTerms.

(** ** The overview component: vocabulary for the column picks *)

Module OverviewTerms.
Import Overview.

(** The least number of number-like values that makes a sample of [n]
    values numeric: [Math.max(5, Math.floor(n * 0.6))] on the sample sizes
    that occur (at most 50), in integers. *)
Definition threshold (n : nat) : nat := Nat.max 5 (n * 3 / 5).

(** The walk of one of the two picks through the columns: a pick that is
    truthy stays, a falsy one is replaced by the name of a column that
    qualifies. *)
Definition advance (qualifies : Column -> bool) (columns : list Column)
  (pick : option string) : option string :=
  fold_left (fun pick col =>
               if chosen pick then pick
               else if qualifies col then Some (name col) else pick)
            columns pick.

(** The first column that qualifies and has a name; failing that, the
    empty name if a nameless column qualifies. *)
Definition firstNamed (qualifies : Column -> bool) (columns : list Column) : option string :=
  match find (fun c => qualifies c && negb (String.eqb (name c) "")) columns with
  | Some c => Some (name c)
  | None => if existsb qualifies columns then Some "" else None
  end.

Section Picks.
Context {rt : JsRuntime}.

(** Lines 112 to 125: the column is typed numeric, or its sample of 20 rows
    is mostly number-like. *)
Definition numericLooking (data : list Row) (col : Column) : bool :=
  typedNumeric col || mostlyNumeric (map (fun r => get r (name col)) (firstn 20 data)).

(** Lines 129 to 133: the sample of 50 rows shows 2 to 20 distinct
    non-empty values. *)
Definition fewValued (data : list Row) (col : Column) : bool :=
  let n := uniqueCount (map (fun r => get r (name col)) (firstn 50 data)) in
  (1 <? n)%nat && (n <=? 20)%nat.

End Picks.

End OverviewTerms.

(** ** The overview component: progress bar *)

Module ProgressBar.

(** [safeValue] of [ProgressBar] (lines 280 to 286). *)
Definition safeValue (value : float) : float :=
  if isFinite value then Math_max2 0 (Math_min2 100 (Math_round value)) else 0%float.

End ProgressBar.

(** ** The overview component: category counts and the table sort *)

Module OverviewCharts.
Import Overview.

(** An entry of the bar data: a category and the number of its values. *)
Record Count : Type := { name : string; value : nat }.

(** A [Map] with string keys: its entries in insertion order, each key
    once; setting an existing key keeps its place. *)
Definition JsMap (A : Type) : Type := list (string * A).
Definition Map_get {A : Type} (m : JsMap A) (k : string) : option A := obj_get m k.
Definition Map_set {A : Type} (m : JsMap A) (k : string) (v : A) : JsMap A := obj_set m k v.

(** [v === null || v === undefined || v === ""] *)
Definition blank (v : JsValue) : bool :=
  match v with
  | VNull | VUndefined => true
  | VStr s => String.eqb s ""
  | _ => false
  end.

(** [n || 0] on a count read from the map. *)
Definition orZero (n : option nat) : nat :=
  match n with
  | Some (S n') => S n'
  | _ => 0%nat
  end.

(** The string order that [<] and [>] decide on two strings. *)
Class JsStringOrder : Type := {
  lessThan : string -> string -> bool
}.

Section Charts.
Context {rt : JsRuntime}.

Definition categoryKey (v : JsValue) : string :=
  if blank v then "(blank)" else ToString v.

(** The body of the loop of [buildCategoryCounts] (lines 166 to 170). *)
Definition countKey (map : JsMap nat) (v : JsValue) : JsMap nat :=
  let key := categoryKey v in
  Map_set map key (orZero (Map_get map key) + 1)%nat.

(** [topN] is [None] when the caller leaves the argument out. *)
Definition buildCategoryCounts (values : list JsValue) (topN : option nat) : list Count :=
  let topN := match topN with Some n => n | None => 15%nat end in
  let map := fold_left countKey values [] in
  let arr := List.map (fun e => {| name := fst e; value := snd e |}) map in
  let arr := Array_sort (fun a b => (nat2float (value b) - nat2float (value a))%float) arr in
  firstn topN arr.

(** [String(v ?? "").toLowerCase()] *)
Definition sortText (v : JsValue) : string :=
  toLowerCase (match v with
               | VNull | VUndefined => ""
               | _ => ToString v
               end).

Context {so : JsStringOrder}.

(** The comparator of [sortRows] (lines 348 to 360). *)
Definition compareRows (key dir : string) (a b : Row) : float :=
  let va := get a key in
  let vb := get b key in
  if isNumber va && isNumber vb
  then (if String.eqb dir "asc"
        then (ToNumber va - ToNumber vb)%float
        else (ToNumber vb - ToNumber va)%float)
  else
    let sa := sortText va in
    let sb := sortText vb in
    if lessThan sa sb then (if String.eqb dir "asc" then (-1)%float else 1%float)
    else if lessThan sb sa then (if String.eqb dir "asc" then 1%float else (-1)%float)
    else 0%float.

(** [sortRows]: the sorted copy of the rows. *)
Definition sortRows (rows : list Row) (key dir : string) : list Row :=
  Array_sort (compareRows key dir) rows.

End Charts.

(** How often a key occurs among the keys of the values. *)
Definition occurrences (k : string) (keys : list string) : nat :=
  List.length (filter (String.eqb k) keys).

(** The invariant of the counting loop: the map lists the distinct keys in
    order of first occurrence, each with the number of its occurrences. *)
Definition Counted (keys : list string) (m : JsMap nat) : Prop :=
  map fst m = distinct keys /\
  forall k n, obj_get m k = Some n -> n = occurrences k keys /\ (0 < n)%nat.

End OverviewCharts.

(** ** The visualizations component: chart state, layouts and the worker's caller *)

Module Visualizations.

Set Warnings "-register-all".

(** A value as the deep comparison sees it: a scalar, or an object (an
    array included, its indices being its keys) with its identity and its
    own enumerable properties, each key once. *)
Inductive Value : Type :=
| Prim (v : JsValue)
| Obj (ref : nat) (props : list (string * Value)).

(** [a === b] on scalars. *)
Definition strictEqualsScalar (a b : JsValue) : bool :=
  match a, b with
  | VUndefined, VUndefined => true
  | VNull, VNull => true
  | VBool x, VBool y => Bool.eqb x y
  | VNum x, VNum y => (x =? y)%float
  | VStr x, VStr y => String.eqb x y
  | _, _ => false
  end.

(** [a === b]: objects are equal when they are the same object. *)
Definition strictEquals (a b : Value) : bool :=
  match a, b with
  | Prim x, Prim y => strictEqualsScalar x y
  | Obj r _, Obj r' _ => Nat.eqb r r'
  | _, _ => false
  end.

(** [o[k]] *)
Definition prop (props : list (string * Value)) (k : string) : Value :=
  match obj_get props k with
  | Some v => v
  | None => Prim VUndefined
  end.

(** [Object.keys(o)] *)
Definition Object_keys {A : Type} (props : list (string * A)) : list string :=
  map fst (Object_entries props).

(** [isEqual] (lines 8 to 19). After the test [a === b], a scalar on
    either side ([null] and [undefined] by [== null], the others by
    [typeof]) gives [false]; two objects are compared key by key, in the
    order of [Object.keys(a)]. *)
Fixpoint isEqual (a b : Value) {struct a} : bool :=
  if strictEquals a b then true
  else
    match a, b with
    | Obj _ pa, Obj _ pb =>
        let ka := Object_entries (map (fun kv => (fst kv, isEqual (snd kv))) pa) in
        let kb := Object_keys pb in
        if negb (List.length ka =? List.length kb)%nat then false
        else forallb (fun k => existsb (String.eqb (fst k)) kb && snd k (prop pb (fst k))) ka
    | _, _ => false
    end.

(** Every object of a value lists each of its keys once. *)
Fixpoint noRepeat (keys : list string) : bool :=
  match keys with
  | [] => true
  | k :: rest => negb (existsb (String.eqb k) rest) && noRepeat rest
  end.

Fixpoint wellFormed (a : Value) : bool :=
  match a with
  | Prim _ => true
  | Obj _ props => noRepeat (map fst props) && forallb (fun kv => wellFormed (snd kv)) props
  end.

Inductive FilterType : Type := categorical | range.

Record Filter : Type := { column : string; value : Value; type : FilterType }.

Record ChartState : Type := {
  xAxis : string;
  yAxis : string;
  aggregation : string;
  sortKey : string;
  sortDirection : string;
  colorPalette : string;
  filters : list Filter;
  layout : Value;
  isProcessing : bool
}.

(** The payload of [INIT_STATE]: the fields it carries. *)
Record Patch : Type := {
  p_xAxis : option string;
  p_yAxis : option string;
  p_aggregation : option string;
  p_sortKey : option string;
  p_sortDirection : option string;
  p_colorPalette : option string;
  p_filters : option (list Filter);
  p_layout : option Value;
  p_isProcessing : option bool
}.

Inductive Action : Type :=
| SET_AXIS (axis value : string)
| SET_AGGREGATION (payload : string)
| SET_SORT (key direction : string)
| SET_PALETTE (payload : string)
| SET_RANGE_FILTER (column : string) (value : Value)
| ADD_FILTER (column : string) (value : Value)
| RESET_FILTERS
| INIT_STATE (payload : Patch)
| SET_LAYOUT (payload : Value)
| SET_PROCESSING (payload : bool)
| Other (type : string).

Definition withAxes (state : ChartState) (x y : string) : ChartState :=
  {| xAxis := x; yAxis := y; aggregation := aggregation state; sortKey := sortKey state;
     sortDirection := sortDirection state; colorPalette := colorPalette state;
     filters := filters state; layout := layout state; isProcessing := isProcessing state |}.

Definition withFilters (state : ChartState) (fs : list Filter) : ChartState :=
  {| xAxis := xAxis state; yAxis := yAxis state; aggregation := aggregation state;
     sortKey := sortKey state; sortDirection := sortDirection state;
     colorPalette := colorPalette state; filters := fs; layout := layout state;
     isProcessing := isProcessing state |}.

Definition withProcessing (state : ChartState) (p : bool) : ChartState :=
  {| xAxis := xAxis state; yAxis := yAxis state; aggregation := aggregation state;
     sortKey := sortKey state; sortDirection := sortDirection state;
     colorPalette := colorPalette state; filters := filters state; layout := layout state;
     isProcessing := p |}.

Definition orKeep {A : Type} (given : option A) (kept : A) : A :=
  match given with
  | Some a => a
  | None => kept
  end.

(** [state.filters.filter(f => f.column !== column)] *)
Definition without (fs : list Filter) (col : string) : list Filter :=
  filter (fun f => negb (String.eqb (column f) col)) fs.

(** [chartStateReducer] (lines 83 to 108); [Other] stands for the action
    types of the [default] branch. *)
Definition chartStateReducer (state : ChartState) (action : Action) : ChartState :=
  match action with
  | SET_AXIS axis value =>
      if String.eqb axis "x" && String.eqb value (yAxis state)
      then withAxes state value (xAxis state)
      else if String.eqb axis "y" && String.eqb value (xAxis state)
      then withAxes state (yAxis state) value
      else if String.eqb axis "x" then withAxes state value (yAxis state)
      else withAxes state (xAxis state) value
  | SET_AGGREGATION payload =>
      {| xAxis := xAxis state; yAxis := yAxis state; aggregation := payload;
         sortKey := sortKey state; sortDirection := sortDirection state;
         colorPalette := colorPalette state; filters := filters state;
         layout := layout state; isProcessing := isProcessing state |}
  | SET_SORT key direction =>
      {| xAxis := xAxis state; yAxis := yAxis state; aggregation := aggregation state;
         sortKey := key; sortDirection := direction;
         colorPalette := colorPalette state; filters := filters state;
         layout := layout state; isProcessing := isProcessing state |}
  | SET_PALETTE payload =>
      {| xAxis := xAxis state; yAxis := yAxis state; aggregation := aggregation state;
         sortKey := sortKey state; sortDirection := sortDirection state;
         colorPalette := payload; filters := filters state;
         layout := layout state; isProcessing := isProcessing state |}
  | SET_RANGE_FILTER col v =>
      withFilters state (without (filters state) col ++
                         [ {| column := col; value := v; type := range |} ])
  | ADD_FILTER col v =>
      withFilters state (without (filters state) col ++
                         [ {| column := col; value := v; type := categorical |} ])
  | RESET_FILTERS => withFilters state []
  | INIT_STATE p =>
      {| xAxis := orKeep (p_xAxis p) (xAxis state);
         yAxis := orKeep (p_yAxis p) (yAxis state);
         aggregation := orKeep (p_aggregation p) (aggregation state);
         sortKey := orKeep (p_sortKey p) (sortKey state);
         sortDirection := orKeep (p_sortDirection p) (sortDirection state);
         colorPalette := orKeep (p_colorPalette p) (colorPalette state);
         filters := orKeep (p_filters p) (filters state);
         layout := orKeep (p_layout p) (layout state);
         isProcessing := orKeep (p_isProcessing p) (isProcessing state) |}
  | SET_LAYOUT payload =>
      {| xAxis := xAxis state; yAxis := yAxis state; aggregation := aggregation state;
         sortKey := sortKey state; sortDirection := sortDirection state;
         colorPalette := colorPalette state; filters := filters state;
         layout := payload; isProcessing := isProcessing state |}
  | SET_PROCESSING payload => withProcessing state payload
  | Other _ => state
  end.

(** The actions that can put filters of their own into the state. *)
Definition carriesFilters (a : Action) : bool :=
  match a with
  | INIT_STATE p => match p_filters p with Some _ => true | None => false end
  | _ => false
  end.

(** An array literal as an object: its elements under their indices. *)
Definition array (ref : nat) (elements : list Value) : Value :=
  Obj ref (Overview.mapi (fun e i => (Reference.printZ (Z.of_nat i), e)) elements 0).

Definition item (ref : nat) (i : string) (x y w h : float) : Value :=
  Obj ref [ ("i", Prim (VStr i)); ("x", Prim (VNum x)); ("y", Prim (VNum y));
            ("w", Prim (VNum w)); ("h", Prim (VNum h)) ].

Definition INITIAL_LAYOUTS : Value :=
  Obj 1 [ ("lg", array 2 [ item 3 "bar" 0 0 6 8; item 4 "line" 6 0 6 8;
                           item 5 "area" 0 8 6 8; item 6 "pie" 6 8 6 8;
                           item 7 "scatter" 0 16 6 8; item 8 "treemap" 6 16 6 8 ]) ].

Definition initialState : ChartState :=
  {| xAxis := ""; yAxis := ""; aggregation := "sum"; sortKey := "y";
     sortDirection := "desc"; colorPalette := "vibrant"; filters := [];
     layout := INITIAL_LAYOUTS; isProcessing := false |}.

(** [handleLayoutChange]: the action it dispatches, if any. *)
Definition handleLayoutChange (state : ChartState) (allLayouts : Value) : ChartState :=
  if negb (isEqual allLayouts (layout state))
  then chartStateReducer state (SET_LAYOUT allLayouts)
  else state.

(** What the component holds of the charts: the reducer's state and the
    points last received. *)
Record View : Type := { state : ChartState; chartData : list Worker.Point }.

(** The effect of lines 282 to 290: the message posted to the worker, if
    one is posted. The config carries [filters] and [numericColumns] as
    well, which the worker does not read. *)
Definition request (st : ChartState) (data : option (list Worker.Row)) : option Worker.Message :=
  match data with
  | Some rows =>
      if negb (String.eqb (xAxis st) "") && negb (String.eqb (yAxis st) "")
      then Some {| Worker.data := Some rows;
                   Worker.config :=
                     Some {| Worker.xAxis := Some (xAxis st);
                             Worker.yAxis := Some (yAxis st);
                             Worker.aggregation := Some (aggregation st);
                             Worker.sortKey := Some (sortKey st);
                             Worker.sortDirection := Some (sortDirection st) |} |}
      else None
  | None => None
  end.

(** [processData]: the flag is raised before the message is posted. *)
Definition sending (v : View) : View :=
  {| state := chartStateReducer (state v) (SET_PROCESSING true); chartData := chartData v |}.

(** The [onmessage] handler of [useDataProcessor] (lines 118 to 126). *)
Definition receive (v : View) (response : Worker.Response) : View :=
  {| state := chartStateReducer (state v) (SET_PROCESSING false);
     chartData := match response with
                  | Worker.Success data => data
                  | Worker.Error _ => chartData v
                  end |}.

(** A request and the handling of what the worker posts in answer to it,
    with nothing else happening in between. *)
Definition exchange {rt : JsRuntime} (v : View) (data : option (list Worker.Row)) : View :=
  match request (state v) data with
  | Some message => fold_left receive (fst (Worker.onmessage message)) (sending v)
  | None => v
  end.

(** The column kinds of lines 254 to 264: a column is numeric when the
    first row holds a number under its name ([NaN] and the infinities
    included); without a first row no column is. *)
Definition isTypeofNumber (v : JsValue) : bool :=
  match v with
  | VNum _ => true
  | _ => false
  end.

Definition sampleRow (data : option (list Overview.Row)) : Overview.Row :=
  match data with
  | Some (first :: _) => first
  | _ => []
  end.

Definition numericColumns (columns : list string) (data : option (list Overview.Row))
  : list string :=
  filter (fun name => isTypeofNumber (Overview.get (sampleRow data) name)) columns.

Definition categoricalColumns (columns : list string) (data : option (list Overview.Row))
  : list string :=
  filter (fun name => negb (isTypeofNumber (Overview.get (sampleRow data) name))) columns.

(** [a || b] on array elements that may be absent: [undefined] and the
    empty string are falsy. *)
Definition orElseName (a b : option string) : option string :=
  if Overview.chosen a then a else b.

(** The effect of lines 267 to 273: the axes it initialises, if it does. *)
Definition initialAxes (st : ChartState) (columns : list string)
  (data : option (list Overview.Row)) : option (option string * option string) :=
  if negb (List.length columns =? 0)%nat && negb (Overview.chosen (Some (xAxis st)))
  then
    let initialX := orElseName (nth_error (categoricalColumns columns data) 0)
                               (nth_error columns 0) in
    let initialY := orElseName (nth_error (numericColumns columns data) 0)
                               (orElseName (nth_error columns 1) (nth_error columns 0)) in
    Some (initialX, initialY)
  else None.

End Visualizations.

(** ** The backend configuration: loading the environment file *)

Module FirebaseConfig.

(** What [fs] finds under a path. *)
Inductive File : Type :=
| Missing
| Unreadable
| Content (text : string).

(** [process.env], its variables in creation order. Names are compared as
    they are written (as on POSIX systems), and the text holds no NUL
    character. *)
Definition Env : Type := JsObject string.

(** The names [in] finds on [process.env] that are no variables: those of
    the properties it inherits. *)
Class NodeProcess : Type := {
  inheritedByEnv : string -> bool
}.

Definition cr : ascii := ascii_of_nat 13.
Definition lf : ascii := ascii_of_nat 10.

(** [content.split(/\r?\n/)] *)
Fixpoint splitLines (content : string) (line : string) : list string :=
  match content with
  | EmptyString => [line]
  | String c rest =>
      if Ascii.eqb c lf then line :: splitLines rest EmptyString
      else if Ascii.eqb c cr
      then match rest with
           | String c' rest' =>
               if Ascii.eqb c' lf then line :: splitLines rest' EmptyString
               else splitLines rest (line ++ String c EmptyString)
           | EmptyString => splitLines rest (line ++ String c EmptyString)
           end
      else splitLines rest (line ++ String c EmptyString)
  end.

(** The white space and line terminators of ECMAScript, as UTF-8 byte
    sequences: the length of the one [s] starts with, or 0. *)
Definition byte (s : string) (i : nat) : N :=
  match String.get i s with
  | Some c => N_of_ascii c
  | None => 256%N
  end.

Definition whiteSpaceAt (s : string) : nat :=
  let a := byte s 0 in
  let b := byte s 1 in
  let c := byte s 2 in
  if ((9 <=? a) && (a <=? 13))%N || (a =? 32)%N then 1%nat
  else if (a =? 194)%N && (b =? 160)%N then 2%nat
  else if (a =? 225)%N && (b =? 154)%N && (c =? 128)%N then 3%nat
  else if (a =? 226)%N && (b =? 128)%N &&
          (((128 <=? c) && (c <=? 138))%N || (c =? 168)%N || (c =? 169)%N || (c =? 175)%N)
       then 3%nat
  else if (a =? 226)%N && (b =? 129)%N && (c =? 159)%N then 3%nat
  else if (a =? 227)%N && (b =? 128)%N && (c =? 128)%N then 3%nat
  else if (a =? 239)%N && (b =? 187)%N && (c =? 191)%N then 3%nat
  else 0%nat.

(** The same at the end of the text: the length of the white space [s]
    ends with, or 0. *)
Definition whiteSpaceBefore (s : string) : nat :=
  let n := String.length s in
  if (0 <? n)%nat && (whiteSpaceAt (String.substring (n - 1) 1 s) =? 1)%nat then 1%nat
  else if (1 <? n)%nat && (whiteSpaceAt (String.substring (n - 2) 2 s) =? 2)%nat then 2%nat
  else if (2 <? n)%nat && (whiteSpaceAt (String.substring (n - 3) 3 s) =? 3)%nat then 3%nat
  else 0%nat.

Fixpoint trimStartFuel (fuel : nat) (s : string) : string :=
  match fuel with
  | O => s
  | S fuel' =>
      match whiteSpaceAt s with
      | O => s
      | n => trimStartFuel fuel' (String.substring n (String.length s - n) s)
      end
  end.

Fixpoint trimEndFuel (fuel : nat) (s : string) : string :=
  match fuel with
  | O => s
  | S fuel' =>
      match whiteSpaceBefore s with
      | O => s
      | n => trimEndFuel fuel' (String.substring 0 (String.length s - n) s)
      end
  end.

(** [s.trim()]; a text of [n] bytes holds at most [n] white spaces. *)
Definition trim (s : string) : string :=
  let s := trimStartFuel (String.length s) s in
  trimEndFuel (String.length s) s.

(** [line.indexOf('=')] *)
Fixpoint indexOfEquals (line : string) (i : nat) : option nat :=
  match line with
  | EmptyString => None
  | String c rest => if Ascii.eqb c "=" then Some i else indexOfEquals rest (S i)
  end.

(** The key and the value a line assigns, if it assigns: lines 11 to 17
    up to the test on [process.env]. *)
Definition assignment (line : string) : option (string * string) :=
  if String.eqb line "" || String.prefix "#" (trim line) then None
  else
    match indexOfEquals line 0 with
    | None => None
    | Some idx =>
        let key := trim (String.substring 0 idx line) in
        let value := trim (String.substring (idx + 1) (String.length line - (idx + 1)) line) in
        if String.eqb key "" then None else Some (key, value)
    end.

Section Process.
Context {np : NodeProcess}.

(** [key in process.env] *)
Definition inEnv (env : Env) (key : string) : bool :=
  match obj_get env key with
  | Some _ => true
  | None => inheritedByEnv key
  end.

(** The body of the loop (lines 10 to 19). *)
Definition loadLine (env : Env) (line : string) : Env :=
  match assignment line with
  | Some (key, value) => if inEnv env key then env else obj_set env key value
  | None => env
  end.

(** [loadEnvFromFile]: the environment it leaves. A file that is
    missing is not read; a read that throws is caught before any
    variable is set. *)
Definition loadEnvFromFile (file : File) (env : Env) : Env :=
  match file with
  | Missing => env
  | Unreadable => env
  | Content content => fold_left loadLine (splitLines content EmptyString) env
  end.

End Process.

(** The assignments of a text, in the order of its lines. *)
Definition assignments (content : string) : list (string * string) :=
  flat_map (fun line => match assignment line with Some kv => [kv] | None => [] end)
           (splitLines content EmptyString).

End FirebaseConfig.

(** ** More sample inputs *)

Module MoreInputs.
Import Inputs.

Definition byValueAsc : Worker.Config :=
  {| Worker.xAxis := Some "region"; Worker.yAxis := Some "sales";
     Worker.aggregation := Some "sum";
     Worker.sortKey := Some "y"; Worker.sortDirection := Some "asc" |}.

Definition byName (direction : string) : Worker.Config :=
  {| Worker.xAxis := Some "region"; Worker.yAxis := Some "sales";
     Worker.aggregation := Some "sum";
     Worker.sortKey := Some "x"; Worker.sortDirection := Some direction |}.

(** The groups of [tied], the group of greatest value met first. *)
Definition tiedLate : list Worker.Row :=
  [ row (VStr "a") (VNum 7); row (VStr "b") (VNum 5); row (VStr "10") (VNum 5);
    row (VStr "9") (VNum 5) ].

(** A row with a property outside the columns and its keys in another
    order, and the same row without. *)
Definition annotated : list DataContext.Row :=
  [ [("note", VStr "first"); ("name", VStr "x"); ("id", VNum 1)];
    person (VNum 1) (VStr "x"); person VNull (VStr "") ].

Definition plain : list DataContext.Row :=
  [ person (VNum 1) (VStr "x"); person (VNum 1) (VStr "x");
    [("id", VNull); ("name", VStr ""); ("seen", VBool true)] ].

Definition idAndName : list DataContext.ColumnInfo :=
  [ {| DataContext.name := "id" |}; {| DataContext.name := "name" |} ].

(** Four rows of one untyped column. *)
Definition fourRows : list Overview.Row :=
  [ [("n", VNum 1)]; [("n", VNum 2)]; [("n", VNum 3)]; [("n", VNum 4)] ].

(** A summary without missing cells and duplicates. *)
Definition cleanSummary : Types.DataSummary :=
  {| Types.totalRows := 4; Types.totalColumns := 5; Types.missingValues := 0;
     Types.duplicates := 0; Types.memoryUsage := "0 B" |}.

(** Category values with blanks. *)
Definition fruit : list JsValue :=
  [ VStr "pear"; VStr "fig"; VNull; VStr "fig"; VStr ""; VStr "pear"; VUndefined; VStr "kiwi" ].

(** Rows with a number under [n], out of order, two of them equal there. *)
Definition scores : list Overview.Row :=
  [ [("n", VNum 3); ("who", VStr "c")]; [("n", VNum 1); ("who", VStr "a")];
    [("n", VNum 3); ("who", VStr "d")]; [("n", VNum 2); ("who", VStr "b")] ].

(** The chart state once the axes are chosen. *)
Definition charted : Visualizations.ChartState :=
  Visualizations.chartStateReducer Visualizations.initialState
    (Visualizations.INIT_STATE
       {| Visualizations.p_xAxis := Some "region"; Visualizations.p_yAxis := Some "sales";
          Visualizations.p_aggregation := None; Visualizations.p_sortKey := None;
          Visualizations.p_sortDirection := None; Visualizations.p_colorPalette := None;
          Visualizations.p_filters := None; Visualizations.p_layout := None;
          Visualizations.p_isProcessing := None |}).

(** The same layout reported as a new object, its keys in another order. *)
Definition reported : Visualizations.Value :=
  Visualizations.Obj 20
    [ ("lg", Visualizations.array 21
               [ Visualizations.Obj 22
                   [ ("h", Visualizations.Prim (VNum 8)); ("w", Visualizations.Prim (VNum 6));
                     ("y", Visualizations.Prim (VNum 0)); ("x", Visualizations.Prim (VNum 0));
                     ("i", Visualizations.Prim (VStr "bar")) ] ]) ].

Definition stored : Visualizations.Value :=
  Visualizations.Obj 1
    [ ("lg", Visualizations.array 2 [ Visualizations.item 3 "bar" 0 0 6 8 ]) ].

(** Rows whose first row holds a number under every column. *)
Definition allNumbers : option (list Overview.Row) :=
  Some [ [("a", VNum 1); ("b", VNum 2)]; [("a", VNum 3); ("b", VStr "x")] ].

(** An environment file, and a process that inherits [toString]. *)
Definition envFile : string :=
  ("# settings" ++ String FirebaseConfig.lf "PORT = 8080" ++
   String FirebaseConfig.cr (String FirebaseConfig.lf "URL=http://h/?a=b") ++
   String FirebaseConfig.lf "PORT=9090" ++ String FirebaseConfig.lf "noequals" ++
   String FirebaseConfig.lf "toString=x" ++ String FirebaseConfig.lf " =y" ++
   String FirebaseConfig.lf "DEMO_MODE=false")%string.

#[export] Instance process : FirebaseConfig.NodeProcess := {
  FirebaseConfig.inheritedByEnv k := String.eqb k "toString"
}.

(** Byte order, which agrees with the order of [<] on ASCII text. *)
#[export] Instance byteOrder : OverviewCharts.JsStringOrder := {
  OverviewCharts.lessThan a b := (Reference.compareBytes a b <? 0)%float
}.

End MoreInputs.

(** * Properties *)

(** ** Doubles: order, signs and integers *)

Module FloatFacts.

Lemma digits2_pos_bounds (m : positive) :
  (2 ^ (Zpos (digits2_pos m) - 1) <= Zpos m < 2 ^ Zpos (digits2_pos m))%Z.
Proof.
  induction m as [m IH|m IH|]; simpl digits2_pos.
  - rewrite Pos2Z.inj_succ, Z.pow_succ_r by lia.
    replace (Z.succ (Zpos (digits2_pos m)) - 1)%Z with (Z.succ (Zpos (digits2_pos m) - 1))%Z by lia.
    rewrite Z.pow_succ_r by lia. lia.
  - rewrite Pos2Z.inj_succ, Z.pow_succ_r by lia.
    replace (Z.succ (Zpos (digits2_pos m)) - 1)%Z with (Z.succ (Zpos (digits2_pos m) - 1))%Z by lia.
    rewrite Z.pow_succ_r by lia. lia.
  - simpl. lia.
Qed.

Lemma bounded_spec (m : positive) (e : Z) :
  bounded prec emax m e = true ->
  (-1074 <= e <= 971 /\ Zpos (digits2_pos m) <= 53 /\
   (-1074 < e -> Zpos (digits2_pos m) = 53))%Z.
Proof.
  unfold bounded, canonical_mantissa, fexp, emin, prec, emax.
  intros H. apply andb_prop in H as [H1 H2].
  apply Z.eqb_eq in H1. apply Z.leb_le in H2. lia.
Qed.

Lemma finite_bounds (m : positive) (e : Z) :
  bounded prec emax m e = true ->
  (-1074 <= e <= 971 /\ Zpos m < 2 ^ 53 /\ (-1074 < e -> 2 ^ 52 <= Zpos m))%Z.
Proof.
  intros H. destruct (bounded_spec m e H) as (He & Hd & Hn).
  pose proof (digits2_pos_bounds m) as [Hlo Hhi].
  split; [exact He|]. split.
  - eapply Z.lt_le_trans; [exact Hhi|]. apply Z.pow_le_mono_r; lia.
  - intros Hlt. rewrite (Hn Hlt) in Hlo. exact Hlo.
Qed.

Lemma pow2_pos (e : Z) : (0 <= e -> 0 < 2 ^ e)%Z.
Proof. intros. apply Z.pow_pos_nonneg; lia. Qed.

Lemma Z_compare_mul_r (a b k : Z) : (0 < k)%Z -> (a * k ?= b * k)%Z = (a ?= b)%Z.
Proof.
  intros Hk. destruct (Z.compare_spec a b) as [->|H|H].
  - apply Z.compare_refl.
  - apply Z.compare_lt_iff. nia.
  - apply Z.compare_gt_iff. nia.
Qed.

Lemma scaled_lt (a b k p : Z) :
  (0 < k -> 2 ^ 1 <= p -> a < 2 ^ 52 * 2 ^ 1 -> 2 ^ 52 <= b -> 0 < b ->
   a * k < b * (k * p))%Z.
Proof.
  intros Hk Hp Ha Hb Hb0. change (2 ^ 1)%Z with 2%Z in *.
  assert (a < 2 * b)%Z by lia.
  assert (a * k < 2 * b * k)%Z by (apply Z.mul_lt_mono_pos_r; lia).
  assert (b * k * 2 <= b * k * p)%Z by (apply Z.mul_le_mono_nonneg_l; nia).
  lia.
Qed.

(** Scaled values of two positive finite numbers compare as the format does. *)
Lemma compare_finite_pos (m1 m2 : positive) (e1 e2 : Z) :
  bounded prec emax m1 e1 = true -> bounded prec emax m2 e2 = true ->
  match Z.compare e1 e2 with
  | Lt => Lt
  | Gt => Gt
  | Eq => Pos.compare_cont Eq m1 m2
  end = (Zpos m1 * 2 ^ (e1 + 1074) ?= Zpos m2 * 2 ^ (e2 + 1074))%Z.
Proof.
  intros H1 H2.
  destruct (finite_bounds _ _ H1) as (He1 & Hm1 & Hn1).
  destruct (finite_bounds _ _ H2) as (He2 & Hm2 & Hn2).
  destruct (Z.compare_spec e1 e2) as [->|Hlt|Hgt].
  - rewrite Z_compare_mul_r by (apply pow2_pos; clear - He1; lia). reflexivity.
  - symmetry. apply Z.compare_lt_iff.
    assert (E : (e2 + 1074 = (e1 + 1074) + (e2 - e1))%Z) by (clear; lia).
    rewrite E, (Z.pow_add_r 2 (e1 + 1074) (e2 - e1)) by (clear - He1 Hlt; lia).
    assert (0 < 2 ^ (e1 + 1074))%Z by (apply pow2_pos; clear - He1; lia).
    assert (2 ^ 1 <= 2 ^ (e2 - e1))%Z by (apply Z.pow_le_mono_r; clear - Hlt; lia).
    assert (2 ^ 52 <= Z.pos m2)%Z by (apply Hn2; clear - He1 Hlt; lia).
    change (2 ^ 53)%Z with (2 ^ 52 * 2 ^ 1)%Z in Hm1.
    apply (scaled_lt (Z.pos m1) (Z.pos m2)); auto; lia.
  - symmetry. apply Z.compare_gt_iff.
    assert (E : (e1 + 1074 = (e2 + 1074) + (e1 - e2))%Z) by (clear; lia).
    rewrite E, (Z.pow_add_r 2 (e2 + 1074) (e1 - e2)) by (clear - He2 Hgt; lia).
    assert (0 < 2 ^ (e2 + 1074))%Z by (apply pow2_pos; clear - He2; lia).
    assert (2 ^ 1 <= 2 ^ (e1 - e2))%Z by (apply Z.pow_le_mono_r; clear - Hgt; lia).
    assert (2 ^ 52 <= Z.pos m1)%Z by (apply Hn1; clear - He2 Hgt; lia).
    change (2 ^ 53)%Z with (2 ^ 52 * 2 ^ 1)%Z in Hm2.
    apply (scaled_lt (Z.pos m2) (Z.pos m1)); auto; lia.
Qed.

Lemma finite_below_infinity (m : positive) (e : Z) :
  bounded prec emax m e = true -> (Zpos m * 2 ^ (e + 1074) < 2 ^ 2100)%Z.
Proof.
  intros H. destruct (finite_bounds _ _ H) as (He & Hm & _).
  assert (2 ^ (e + 1074) <= 2 ^ 2045)%Z by (apply Z.pow_le_mono_r; lia).
  assert (0 < 2 ^ (e + 1074))%Z by (apply pow2_pos; lia).
  replace (2 ^ 2100)%Z with (2 ^ 53 * 2 ^ 2045 * 2 ^ 2)%Z
    by (rewrite <- !Z.pow_add_r by lia; reflexivity).
  assert (0 < 2 ^ 2045)%Z by (apply pow2_pos; lia).
  nia.
Qed.

Lemma finite_pos (m : positive) (e : Z) :
  bounded prec emax m e = true -> (0 < Zpos m * 2 ^ (e + 1074))%Z.
Proof.
  intros H. destruct (finite_bounds _ _ H) as (He & _).
  apply Z.mul_pos_pos; [lia | apply pow2_pos; lia].
Qed.

Ltac cmp_solve :=
  f_equal; symmetry;
  first [ apply Z.compare_eq_iff; lia
        | apply Z.compare_lt_iff; lia
        | apply Z.compare_gt_iff; lia ].

(** The format's comparison is the comparison of scaled values. *)
Lemma SFcompare_ordv (x y : spec_float) :
  valid_binary x = true -> valid_binary y = true ->
  SFnan x = false -> SFnan y = false ->
  SFcompare x y = Some (ordv x ?= ordv y)%Z.
Proof.
  intros Vx Vy Nx Ny.
  assert (Hinf : (0 < 2 ^ 2100)%Z) by (apply pow2_pos; lia).
  destruct x as [sx|sx| |sx mx ex], y as [sy|sy| |sy my ey];
    try discriminate; simpl in Vx, Vy;
    try (pose proof (finite_pos _ _ Vx); pose proof (finite_below_infinity _ _ Vx));
    try (pose proof (finite_pos _ _ Vy); pose proof (finite_below_infinity _ _ Vy));
    unfold SFcompare, ordv;
    generalize dependent (2 ^ 2100)%Z; intros;
    try (destruct sx); try (destruct sy); cbn [cond_Zopp]; try cmp_solve.
  - f_equal.
    rewrite Z.compare_opp, (Z.compare_antisym (Z.pos mx * _)).
    rewrite <- (compare_finite_pos mx my ex ey Vx Vy).
    destruct (ex ?= ey)%Z; reflexivity.
  - f_equal. apply compare_finite_pos; auto.
Qed.

(** *** Rounding keeps the sign *)

Lemma iter_pos_invariant {A : Type} (f : A -> A) (P : A -> Prop) :
  (forall x, P x -> P (f x)) -> forall p x, P x -> P (SpecFloat.iter_pos f p x).
Proof.
  intros Hf. induction p as [p IH|p IH|]; simpl; intros x Hx; auto.
Qed.

Lemma iter_pos_nat {A : Type} (f : A -> A) (p : positive) (x : A) :
  SpecFloat.iter_pos f p x = Nat.iter (Pos.to_nat p) f x.
Proof.
  revert x. induction p as [p IH|p IH|]; cbn [SpecFloat.iter_pos]; intros x.
  - rewrite !IH, <- Nat.iter_add, <- Nat.iter_succ_r. f_equal.
    rewrite Pos2Nat.inj_xI. lia.
  - rewrite !IH, <- Nat.iter_add. f_equal. rewrite Pos2Nat.inj_xO. lia.
  - reflexivity.
Qed.

Lemma shr_1_nonneg (mrs : shr_record) : (0 <= shr_m mrs -> 0 <= shr_m (shr_1 mrs))%Z.
Proof.
  destruct mrs as [m r s]. simpl. destruct m as [|[p|p|]|p]; simpl; lia.
Qed.

Lemma shr_1_digits (mrs : shr_record) :
  (1 < Zdigits2 (shr_m mrs) -> 0 < shr_m mrs ->
   Zdigits2 (shr_m (shr_1 mrs)) = Zdigits2 (shr_m mrs) - 1 /\ 0 < shr_m (shr_1 mrs))%Z.
Proof.
  destruct mrs as [m r s]. cbn [shr_m shr_1].
  destruct m as [|[p|p|]|p]; cbn [shr_m Zdigits2 digits2_pos];
    rewrite ?Pos2Z.inj_succ; lia.
Qed.

Lemma shr_iter_digits (n : nat) (mrs : shr_record) :
  (Z.of_nat n < Zdigits2 (shr_m mrs) -> 0 < shr_m mrs ->
   Zdigits2 (shr_m (Nat.iter n shr_1 mrs)) = Zdigits2 (shr_m mrs) - Z.of_nat n /\
   0 < shr_m (Nat.iter n shr_1 mrs))%Z.
Proof.
  induction n as [|n IH]; intros Hn Hm.
  - simpl. split; [lia | exact Hm].
  - simpl Nat.iter. destruct IH as [Hd Hp]; [lia | exact Hm |].
    destruct (shr_1_digits (Nat.iter n shr_1 mrs)) as [Hd' Hp']; [lia | exact Hp |].
    split; [lia | exact Hp'].
Qed.

Lemma shr_record_of_loc_m (m : Z) (l : location) : shr_m (shr_record_of_loc m l) = m.
Proof. destruct l as [|[]]; reflexivity. Qed.

Lemma Zdigits2_pos (m : Z) : (0 < m -> 0 < Zdigits2 m)%Z.
Proof. destruct m; simpl; lia. Qed.

(** Shifting to the format's exponent keeps a positive mantissa positive,
    as long as the exponent is not below the smallest one. *)
Lemma shr_fexp_pos (m e : Z) (l : location) :
  (0 < m -> -1074 <= e ->
   0 < shr_m (fst (shr_fexp prec emax m e l)) /\ -1074 <= snd (shr_fexp prec emax m e l))%Z.
Proof.
  intros Hm He. unfold shr_fexp, shr, fexp, SpecFloat.emin, prec, emax.
  pose proof (Zdigits2_pos m Hm) as Hd.
  destruct (Z.max (Zdigits2 m + e - 53) (3 - 1024 - 53) - e)%Z as [|p|p] eqn:En; simpl.
  - rewrite shr_record_of_loc_m. lia.
  - rewrite iter_pos_nat.
    destruct (shr_iter_digits (Pos.to_nat p) (shr_record_of_loc m l)) as [_ Hp].
    + rewrite shr_record_of_loc_m, positive_nat_Z. lia.
    + now rewrite shr_record_of_loc_m.
    + split; [exact Hp | lia].
  - rewrite shr_record_of_loc_m. lia.
Qed.

Lemma shr_fexp_nonneg (m e : Z) (l : location) :
  (0 <= m -> 0 <= shr_m (fst (shr_fexp prec emax m e l)))%Z.
Proof.
  intros Hm. unfold shr_fexp, shr.
  destruct (fexp prec emax (Zdigits2 m + e) - e)%Z as [|p|p]; simpl;
    try (rewrite shr_record_of_loc_m; exact Hm).
  apply iter_pos_invariant.
  - apply shr_1_nonneg.
  - now rewrite shr_record_of_loc_m.
Qed.

Lemma round_nearest_even_ge (m : Z) (l : location) : (m <= round_nearest_even m l)%Z.
Proof.
  unfold round_nearest_even. destruct l as [|[]]; try lia.
  destruct (Z.even m); lia.
Qed.

Lemma binary_round_aux_nonneg (s : bool) (m e : Z) (l : location) :
  (0 <= m)%Z -> signed s (binary_round_aux prec emax s m e l).
Proof.
  intros Hm. unfold binary_round_aux.
  pose proof (shr_fexp_nonneg m e l Hm) as H1.
  destruct (shr_fexp prec emax m e l) as [mrs' e']. simpl in H1.
  pose proof (round_nearest_even_ge (shr_m mrs') (loc_of_shr_record mrs')) as H2.
  pose proof (shr_fexp_nonneg (round_nearest_even (shr_m mrs') (loc_of_shr_record mrs'))
                e' loc_Exact) as H3.
  destruct (shr_fexp prec emax _ e' loc_Exact) as [mrs'' e'']. simpl in H3.
  destruct (shr_m mrs'') as [|p|p].
  - constructor.
  - destruct (e'' <=? emax - prec)%Z; constructor.
  - lia.
Qed.

Lemma binary_round_aux_pos (s : bool) (m e : Z) (l : location) :
  (0 < m)%Z -> (-1074 <= e)%Z -> nonzero (binary_round_aux prec emax s m e l).
Proof.
  intros Hm He. unfold binary_round_aux.
  pose proof (shr_fexp_pos m e l Hm He) as [H1 H1'].
  destruct (shr_fexp prec emax m e l) as [mrs' e']. simpl in H1, H1'.
  pose proof (round_nearest_even_ge (shr_m mrs') (loc_of_shr_record mrs')) as H2.
  destruct (shr_fexp_pos (round_nearest_even (shr_m mrs') (loc_of_shr_record mrs'))
                e' loc_Exact) as [H3 _]; [lia | exact H1' |].
  destruct (shr_fexp prec emax _ e' loc_Exact) as [mrs'' e'']. simpl in H3.
  destruct (shr_m mrs'') as [|p|p]; try lia.
  destruct (e'' <=? emax - prec)%Z; constructor.
Qed.

Lemma shl_align_exponent (m : positive) (e e' : Z) :
  (-1074 <= e -> -1074 <= e' -> -1074 <= snd (shl_align m e e'))%Z.
Proof.
  intros. unfold shl_align. destruct (e' - e)%Z; simpl; lia.
Qed.

Lemma binary_round_signed (s : bool) (m : positive) (e : Z) :
  (-1074 <= e)%Z ->
  signed s (binary_round prec emax s m e) /\ nonzero (binary_round prec emax s m e).
Proof.
  intros He. unfold binary_round.
  pose proof (shl_align_exponent m e (fexp prec emax (Z.pos (digits2_pos m) + e)) He) as Hz.
  destruct (shl_align m e _) as [mz ez]. simpl in Hz.
  assert (-1074 <= ez)%Z by (apply Hz; unfold fexp, SpecFloat.emin, prec, emax; lia).
  split.
  - apply binary_round_aux_nonneg. lia.
  - apply binary_round_aux_pos; lia.
Qed.

(** *** The sign of a difference *)

Lemma shl_align_value (m : positive) (e e' : Z) :
  (e' <= e)%Z ->
  snd (shl_align m e e') = e' /\
  (Zpos (fst (shl_align m e e')) = Zpos m * 2 ^ (e - e'))%Z.
Proof.
  intros Hle. unfold shl_align.
  destruct (e' - e)%Z as [|d|d] eqn:E; simpl.
  - assert (e = e') by lia. subst. rewrite Z.sub_diag. simpl. split; lia.
  - lia.
  - split; [reflexivity|].
    change (Pos.iter xO m d) with (shift_pos d m).
    rewrite shift_pos_correct. replace (e - e')%Z with (Zpos d) by lia.
    apply Z.mul_comm.
Qed.

Lemma aligned_ordv (s : bool) (m : positive) (e ez : Z) :
  (-1074 <= ez <= e)%Z ->
  (cond_Zopp s (Zpos (fst (shl_align m e ez))) * 2 ^ (ez + 1074) =
   ordv (S754_finite s m e))%Z.
Proof.
  intros H. destruct (shl_align_value m e ez) as [_ Hv]; [lia|].
  rewrite Hv. unfold ordv.
  replace (e + 1074)%Z with ((e - ez) + (ez + 1074))%Z by lia.
  rewrite (Z.pow_add_r 2 (e - ez) (ez + 1074)) by lia.
  destruct s; cbn [cond_Zopp]; ring.
Qed.

Lemma SFltb_zero_signed (s : bool) (r : spec_float) :
  signed s r -> nonzero r -> SFltb (S754_zero false) r = negb s.
Proof. intros Hs Hn. destruct Hs; inversion Hn; destruct s; reflexivity. Qed.

(** The difference is above zero exactly when the first number is above
    the second. *)
Lemma SFsub_pos (x y : spec_float) :
  valid_binary x = true -> valid_binary y = true ->
  SFltb (S754_zero false) (SFsub prec emax x y) = SFltb y x.
Proof.
  intros Vx Vy.
  destruct x as [sx|sx| |sx mx ex], y as [sy|sy| |sy my ey];
    try reflexivity;
    try (destruct sx; reflexivity);
    try (destruct sy; reflexivity);
    try (destruct sx, sy; reflexivity).
  unfold SFltb at 2. rewrite SFcompare_ordv by auto.
  simpl in Vx, Vy.
  destruct (bounded_spec _ _ Vx) as (Hex & _), (bounded_spec _ _ Vy) as (Hey & _).
  unfold SFsub.
  set (ez := Z.min ex ey).
  pose proof (aligned_ordv sx mx ex ez ltac:(unfold ez; lia)) as Hx.
  pose proof (aligned_ordv sy my ey ez ltac:(unfold ez; lia)) as Hy.
  assert (Hk : (0 < 2 ^ (ez + 1074))%Z) by (apply pow2_pos; unfold ez; lia).
  set (X := cond_Zopp sx (Zpos (fst (shl_align mx ex ez)))) in *.
  set (Y := cond_Zopp sy (Zpos (fst (shl_align my ey ez)))) in *.
  rewrite <- Hx, <- Hy, Z_compare_mul_r by exact Hk.
  unfold binary_normalize.
  destruct (X - Y)%Z as [|p|p] eqn:E.
  - assert (Y = X) by lia. subst Y. rewrite H, Z.compare_refl. reflexivity.
  - destruct (binary_round_signed false p ez) as [Hs Hn]; [unfold ez; lia|].
    rewrite (SFltb_zero_signed _ _ Hs Hn).
    rewrite (proj2 (Z.compare_lt_iff Y X)) by lia. reflexivity.
  - destruct (binary_round_signed true p ez) as [Hs _]; [unfold ez; lia|].
    rewrite (proj2 (Z.compare_gt_iff Y X)) by lia.
    destruct Hs; reflexivity.
Qed.

(** *** Primitive floats *)

Lemma is_nan_spec (x : float) : is_nan x = SFnan (Prim2SF x).
Proof.
  unfold is_nan. rewrite FloatAxioms.eqb_spec. pose proof (Prim2SF_valid x) as V.
  destruct (Prim2SF x) as [s|s| |s m e]; try (destruct s; reflexivity); try reflexivity.
  unfold SFeqb. rewrite SFcompare_ordv by auto. now rewrite Z.compare_refl.
Qed.

Lemma ltb_ord (x y : float) :
  is_nan x = false -> is_nan y = false -> (x <? y)%float = (ord x <? ord y)%Z.
Proof.
  rewrite !is_nan_spec. intros Nx Ny.
  rewrite FloatAxioms.ltb_spec. unfold SFltb.
  rewrite SFcompare_ordv by auto using Prim2SF_valid.
  unfold ord, Z.ltb. reflexivity.
Qed.

Lemma leb_ord (x y : float) :
  is_nan x = false -> is_nan y = false -> (x <=? y)%float = (ord x <=? ord y)%Z.
Proof.
  rewrite !is_nan_spec. intros Nx Ny.
  rewrite FloatAxioms.leb_spec. unfold SFleb.
  rewrite SFcompare_ordv by auto using Prim2SF_valid.
  unfold ord, Z.leb. destruct (_ ?= _)%Z; reflexivity.
Qed.

Lemma ltb_nan_l (x y : float) : is_nan x = true -> (x <? y)%float = false.
Proof.
  rewrite is_nan_spec, FloatAxioms.ltb_spec. destruct (Prim2SF x); try discriminate. reflexivity.
Qed.

Lemma ltb_nan_r (x y : float) : is_nan y = true -> (x <? y)%float = false.
Proof.
  rewrite is_nan_spec, FloatAxioms.ltb_spec.
  destruct (Prim2SF y); try discriminate. destruct (Prim2SF x); reflexivity.
Qed.

Lemma ltb_true_not_nan (x y : float) :
  (x <? y)%float = true -> is_nan x = false /\ is_nan y = false.
Proof.
  intros H. split.
  - destruct (is_nan x) eqn:E; auto. rewrite ltb_nan_l in H; auto.
  - destruct (is_nan y) eqn:E; auto. rewrite ltb_nan_r in H; auto.
Qed.

(** [0 < a - b] says [b < a], for all doubles. *)
Lemma sub_pos (a b : float) : (0 <? a - b)%float = (b <? a)%float.
Proof.
  rewrite !FloatAxioms.ltb_spec, FloatAxioms.sub_spec.
  change (Prim2SF 0) with (S754_zero false).
  apply SFsub_pos; apply Prim2SF_valid.
Qed.

Lemma ltb_asym (a b : float) : (a <? b)%float = true -> (b <? a)%float = false.
Proof.
  intros H. destruct (ltb_true_not_nan _ _ H) as [Na Nb].
  rewrite ltb_ord in * by auto. apply Z.ltb_lt in H. apply Z.ltb_ge. lia.
Qed.

Lemma ltb_irrefl (a : float) : (a <? a)%float = false.
Proof.
  destruct (is_nan a) eqn:E.
  - now apply ltb_nan_l.
  - rewrite ltb_ord by auto. apply Z.ltb_irrefl.
Qed.

Lemma not_ltb_leb (a b : float) :
  is_nan a = false -> is_nan b = false ->
  (a <? b)%float = false -> (b <=? a)%float = true.
Proof.
  intros Na Nb H. rewrite ltb_ord in H by auto. rewrite leb_ord by auto.
  apply Z.ltb_ge in H. apply Z.leb_le. lia.
Qed.

Lemma leb_trans (a b c : float) :
  (a <=? b)%float = true -> (b <=? c)%float = true -> (a <=? c)%float = true.
Proof.
  intros H1 H2.
  assert (Na : is_nan a = false).
  { destruct (is_nan a) eqn:E; auto. rewrite is_nan_spec in E.
    rewrite FloatAxioms.leb_spec in H1. destruct (Prim2SF a); discriminate. }
  assert (Nb : is_nan b = false).
  { destruct (is_nan b) eqn:E; auto. rewrite is_nan_spec in E.
    rewrite FloatAxioms.leb_spec in H2. destruct (Prim2SF b); discriminate. }
  assert (Nc : is_nan c = false).
  { destruct (is_nan c) eqn:E; auto. rewrite is_nan_spec in E.
    rewrite FloatAxioms.leb_spec in H2. destruct (Prim2SF c); try discriminate.
    destruct (Prim2SF b); discriminate. }
  rewrite leb_ord in * by auto. apply Z.leb_le in H1, H2. apply Z.leb_le. lia.
Qed.

(** *** Classes of doubles *)

Lemma is_zero_spec (x : float) :
  is_zero x = match Prim2SF x with S754_zero _ => true | _ => false end.
Proof.
  unfold is_zero. rewrite FloatAxioms.eqb_spec.
  change (Prim2SF zero) with (S754_zero false).
  destruct (Prim2SF x) as [s|s| |s m e]; try (destruct s); reflexivity.
Qed.

Lemma is_infinity_spec (x : float) :
  is_infinity x = match Prim2SF x with S754_infinity _ => true | _ => false end.
Proof.
  unfold is_infinity. rewrite FloatAxioms.eqb_spec, abs_spec.
  change (Prim2SF infinity) with (S754_infinity false).
  destruct (Prim2SF x) as [s|s| |s m e]; reflexivity.
Qed.

Lemma isFinite_spec (x : float) : isFinite x = SFfinite (Prim2SF x).
Proof.
  unfold isFinite, is_finite. rewrite is_nan_spec, is_infinity_spec.
  destruct (Prim2SF x); reflexivity.
Qed.

Lemma isNaN_spec (x : float) : isNaN x = SFnan (Prim2SF x).
Proof. apply is_nan_spec. Qed.

Lemma truthy_spec (x : float) :
  truthy x = match Prim2SF x with S754_zero _ | S754_nan => false | _ => true end.
Proof.
  unfold truthy. rewrite is_nan_spec, is_zero_spec.
  destruct (Prim2SF x); reflexivity.
Qed.

(** *** Integers as doubles *)

Lemma digits2_pos_shiftl (p : positive) (n : N) :
  Zpos (digits2_pos (Pos.shiftl p n)) = (Zpos (digits2_pos p) + Z.of_N n)%Z.
Proof.
  destruct n as [|k]; simpl; [lia|].
  induction k as [|k IH] using Pos.peano_ind.
  - simpl. lia.
  - rewrite Pos.iter_succ. simpl digits2_pos. rewrite Pos2Z.inj_succ, IH. lia.
Qed.

Lemma Zpos_shiftl (p : positive) (n : N) :
  Zpos (Pos.shiftl p n) = (Zpos p * 2 ^ Z.of_N n)%Z.
Proof.
  destruct n as [|k]; simpl Pos.shiftl.
  - simpl. lia.
  - change (Pos.iter xO p k) with (shift_pos k p).
    rewrite shift_pos_correct. apply Z.mul_comm.
Qed.

(** An integer of at most 53 bits is a double, and [pos2SF] is its
    canonical form. *)
Lemma pos2SF_small (s : bool) (p : positive) :
  (Zpos (digits2_pos p) <= 53)%Z ->
  pos2SF s p =
    S754_finite s (Pos.shiftl p (Z.to_N (53 - Zpos (digits2_pos p)))) (Zpos (digits2_pos p) - 53) /\
  valid_binary (pos2SF s p) = true /\
  ordv (pos2SF s p) = (cond_Zopp s (Zpos p) * 2 ^ 1074)%Z /\
  SF2Z (pos2SF s p) = Some (cond_Zopp s (Zpos p)).
Proof.
  intros Hd. unfold pos2SF. change prec with 53%Z.
  rewrite (proj2 (Z.leb_le _ _) Hd).
  remember (Zpos (digits2_pos p)) as d eqn:Ed.
  assert (Hd1 : (1 <= d)%Z) by (subst d; lia).
  split; [reflexivity|]. split; [|split].
  - cbn [valid_binary]. unfold bounded, canonical_mantissa, fexp, SpecFloat.emin.
    rewrite digits2_pos_shiftl, <- Ed, Z2N.id by lia.
    change prec with 53%Z. change emax with 1024%Z.
    apply andb_true_intro. split; [apply Z.eqb_eq | apply Z.leb_le]; lia.
  - unfold ordv. rewrite Zpos_shiftl, Z2N.id by lia.
    replace (2 ^ 1074)%Z with (2 ^ (53 - d) * 2 ^ (d - 53 + 1074))%Z.
    + destruct s; cbn [cond_Zopp]; ring.
    + rewrite <- Z.pow_add_r by lia. f_equal. lia.
  - unfold SF2Z. destruct (Z.leb_spec 0 (d - 53)) as [H|H].
    + assert (E : d = 53%Z) by lia. rewrite E. simpl Z.to_N.
      simpl Pos.shiftl. f_equal. f_equal. simpl. lia.
    + rewrite Zpos_shiftl, Z2N.id by lia.
      replace (- (d - 53))%Z with (53 - d)%Z by lia.
      rewrite Z.land_ones by lia.
      rewrite Z.mod_mul by (apply Z.pow_nonzero; lia). simpl Z.eqb. cbv iota.
      rewrite Z.shiftr_div_pow2 by lia.
      rewrite Z.div_mul by (apply Z.pow_nonzero; lia). reflexivity.
Qed.

Lemma small_digits (p : positive) : (Zpos p < 2 ^ 53 -> Zpos (digits2_pos p) <= 53)%Z.
Proof.
  intros H. destruct (digits2_pos_bounds p) as [Hlo _].
  destruct (Z.le_gt_cases (Zpos (digits2_pos p)) 53) as [|Hgt]; auto.
  assert (2 ^ 53 <= 2 ^ (Zpos (digits2_pos p) - 1))%Z by (apply Z.pow_le_mono_r; lia).
  lia.
Qed.

Lemma Prim2SF_Z2float (z : Z) :
  (- 2 ^ 53 < z < 2 ^ 53)%Z ->
  valid_binary (Prim2SF (Z2float z)) = true /\
  ord (Z2float z) = (z * 2 ^ 1074)%Z /\
  float2Z (Z2float z) = Some z /\
  SFfinite (Prim2SF (Z2float z)) = true.
Proof.
  intros Hz. unfold ord, float2Z. destruct z as [|p|p]; unfold Z2float.
  - change (Prim2SF zero) with (S754_zero false). simpl. auto.
  - destruct (pos2SF_small false p) as (E & V & Ho & Hz'); [apply small_digits; lia|].
    rewrite Prim2SF_SF2Prim by exact V.
    repeat split; auto. rewrite E. reflexivity.
  - destruct (pos2SF_small true p) as (E & V & Ho & Hz'); [apply small_digits; lia|].
    rewrite Prim2SF_SF2Prim by exact V.
    repeat split; auto. rewrite E. reflexivity.
Qed.

Lemma Some_inj {A : Type} (a b : A) : Some a = Some b -> a = b.
Proof. congruence. Qed.

(** An integer-valued double has its integer as scaled value. *)
Lemma SF2Z_ordv (x : spec_float) (i : Z) :
  valid_binary x = true -> SF2Z x = Some i -> ordv x = (i * 2 ^ 1074)%Z.
Proof.
  intros V H. destruct x as [s|s| |s m e]; try discriminate.
  - injection H as <-. reflexivity.
  - simpl in V. destruct (bounded_spec _ _ V) as (He & _).
    unfold SF2Z in H. unfold ordv. revert H.
    destruct (Z.leb_spec 0 e) as [H0|H0].
    + intros H. apply Some_inj in H. subst i. rewrite Z.pow_add_r by lia.
      destruct s; cbn [cond_Zopp]; ring.
    + destruct (Z.eqb_spec (Z.land (Zpos m) (Z.ones (- e))) 0) as [E|E]; [|discriminate].
      intros H. apply Some_inj in H. subst i. rewrite Z.land_ones in E by lia.
      rewrite Z.shiftr_div_pow2 by lia.
      assert (Hm : Zpos m = (2 ^ (- e) * (Zpos m / 2 ^ (- e)))%Z).
      { rewrite (Z.div_mod (Zpos m) (2 ^ (- e))) at 1 by (apply Z.pow_nonzero; lia). lia. }
      rewrite Hm at 1.
      replace (2 ^ 1074)%Z with (2 ^ (- e) * 2 ^ (e + 1074))%Z.
      * destruct s; cbn [cond_Zopp]; ring.
      * rewrite <- Z.pow_add_r by lia. f_equal. lia.
Qed.

(** *** [Math.min] and [Math.max] *)

Lemma ord_total (a b : float) :
  isNaN a = false -> isNaN b = false ->
  (a <? b)%float = false -> (b <? a)%float = false -> ord a = ord b.
Proof.
  unfold isNaN. intros Na Nb H1 H2. rewrite ltb_ord in H1, H2 by auto.
  apply Z.ltb_ge in H1, H2. lia.
Qed.

Lemma Math_min2_cases (a b : float) :
  isNaN a = false -> isNaN b = false ->
  (Math_min2 a b = a /\ ord a <= ord b)%Z \/ (Math_min2 a b = b /\ ord b <= ord a)%Z.
Proof.
  intros Na Nb. unfold Math_min2. rewrite Na, Nb. simpl.
  destruct (a <? b)%float eqn:E1.
  - left. split; auto. unfold isNaN in *. rewrite ltb_ord in E1 by auto.
    apply Z.ltb_lt in E1. lia.
  - destruct (b <? a)%float eqn:E2.
    + right. split; auto. unfold isNaN in *. rewrite ltb_ord in E2 by auto.
      apply Z.ltb_lt in E2. lia.
    + pose proof (ord_total a b Na Nb E1 E2).
      destruct (is_neg_zero a); [left | right]; split; auto; lia.
Qed.

Lemma Math_max2_cases (a b : float) :
  isNaN a = false -> isNaN b = false ->
  (Math_max2 a b = a /\ ord b <= ord a)%Z \/ (Math_max2 a b = b /\ ord a <= ord b)%Z.
Proof.
  intros Na Nb. unfold Math_max2. rewrite Na, Nb. simpl.
  destruct (b <? a)%float eqn:E1.
  - left. split; auto. unfold isNaN in *. rewrite ltb_ord in E1 by auto.
    apply Z.ltb_lt in E1. lia.
  - destruct (a <? b)%float eqn:E2.
    + right. split; auto. unfold isNaN in *. rewrite ltb_ord in E2 by auto.
      apply Z.ltb_lt in E2. lia.
    + pose proof (ord_total a b Na Nb E2 E1).
      destruct (is_neg_zero a); [right | left]; split; auto; lia.
Qed.

Lemma Math_min2_nan (a b : float) :
  isNaN a || isNaN b = true -> Math_min2 a b = nan.
Proof. intros H. unfold Math_min2. now rewrite H. Qed.

Lemma Math_max2_nan (a b : float) :
  isNaN a || isNaN b = true -> Math_max2 a b = nan.
Proof. intros H. unfold Math_max2. now rewrite H. Qed.

(** *** Differences and quotients that are not below zero *)

Lemma SFsub_eq (x y : spec_float) :
  valid_binary x = true -> valid_binary y = true ->
  SFfinite x = true -> SFfinite y = true -> ordv x = ordv y ->
  exists s, SFsub prec emax x y = S754_zero s.
Proof.
  intros Vx Vy Fx Fy E.
  destruct x as [sx|sx| |sx mx ex], y as [sy|sy| |sy my ey]; try discriminate.
  - destruct sx, sy; simpl; eauto.
  - simpl in Vy. pose proof (finite_pos _ _ Vy). unfold ordv in E.
    destruct sy; cbn [cond_Zopp] in E; lia.
  - simpl in Vx. pose proof (finite_pos _ _ Vx). unfold ordv in E.
    destruct sx; cbn [cond_Zopp] in E; lia.
  - simpl in Vx, Vy.
    destruct (bounded_spec _ _ Vx) as (Hex & _), (bounded_spec _ _ Vy) as (Hey & _).
    unfold SFsub.
    set (ez := Z.min ex ey).
    pose proof (aligned_ordv sx mx ex ez ltac:(unfold ez; lia)) as Hx.
    pose proof (aligned_ordv sy my ey ez ltac:(unfold ez; lia)) as Hy.
    assert (Hk : (0 < 2 ^ (ez + 1074))%Z) by (apply pow2_pos; unfold ez; lia).
    rewrite <- E, <- Hx in Hy.
    apply Z.mul_reg_r in Hy; [|lia].
    rewrite Hy, Z.sub_diag. simpl. eauto.
Qed.

Lemma ltb_zero_nonneg (r : float) :
  (0 <? r)%float = true -> SFnonneg (Prim2SF r) = true.
Proof.
  rewrite FloatAxioms.ltb_spec. change (Prim2SF 0) with (S754_zero false).
  destruct (Prim2SF r) as [s|s| |s m e]; try (destruct s); try discriminate; reflexivity.
Qed.

(** The difference of two finite doubles in order is not below zero. *)
Lemma sub_nonneg (x y : float) :
  isFinite x = true -> isFinite y = true -> (y <=? x)%float = true ->
  SFnonneg (Prim2SF (x - y)) = true.
Proof.
  rewrite !isFinite_spec. intros Fx Fy Hle.
  assert (Nx : is_nan x = false) by (rewrite is_nan_spec; destruct (Prim2SF x); auto; discriminate).
  assert (Ny : is_nan y = false) by (rewrite is_nan_spec; destruct (Prim2SF y); auto; discriminate).
  rewrite leb_ord in Hle by auto. apply Z.leb_le in Hle.
  destruct (Z.eq_dec (ord y) (ord x)) as [E|Hne].
  - rewrite FloatAxioms.sub_spec. unfold SF64sub.
    destruct (SFsub_eq (Prim2SF x) (Prim2SF y)) as (s & Hs);
      auto using Prim2SF_valid.
    now rewrite Hs.
  - apply ltb_zero_nonneg. rewrite sub_pos, ltb_ord by auto. apply Z.ltb_lt. lia.
Qed.

Lemma div_core_nonneg (m1 m2 : positive) (e1 e2 : Z) :
  (0 <= fst (fst (SFdiv_core_binary prec emax (Zpos m1) e1 (Zpos m2) e2)))%Z.
Proof.
  unfold SFdiv_core_binary.
  set (e' := Z.min _ _). set (sh := (e1 - e2 - e')%Z).
  set (m' := match sh with Z.pos _ => Z.shiftl (Zpos m1) sh | 0%Z => Zpos m1 | Z.neg _ => 0%Z end).
  assert (Hm' : (0 <= m')%Z).
  { unfold m'. destruct sh; try lia. apply Z.shiftl_nonneg. lia. }
  pose proof (Z.div_pos m' (Zpos m2) Hm' ltac:(lia)) as Hq.
  unfold Z.div in Hq. destruct (Z.div_eucl m' (Zpos m2)) as [q r]. exact Hq.
Qed.

(** What is not below zero, divided by a finite double above zero, is not
    below zero. *)
Lemma div_nonneg (x w : float) :
  SFnonneg (Prim2SF x) = true -> isFinite w = true -> (0 <? w)%float = true ->
  SFnonneg (Prim2SF (x / w)) = true.
Proof.
  rewrite isFinite_spec, FloatAxioms.ltb_spec, FloatAxioms.div_spec.
  change (Prim2SF 0) with (S754_zero false).
  intros Hx Fw Hw.
  destruct (Prim2SF w) as [sw|sw| |sw mw ew]; try discriminate.
  destruct sw; try discriminate.
  destruct (Prim2SF x) as [sx|sx| |sx mx ex]; try discriminate.
  - reflexivity.
  - destruct sx; try discriminate. reflexivity.
  - destruct sx; try discriminate.
    unfold SF64div, SFdiv.
    pose proof (div_core_nonneg mx mw ex ew) as Hq.
    destruct (SFdiv_core_binary prec emax (Zpos mx) ex (Zpos mw) ew) as [[mz ez] lz].
    simpl in Hq.
    destruct (binary_round_aux_nonneg (xorb false false) mz ez lz Hq); reflexivity.
Qed.

(** *** [Math.floor] of what is not below zero *)

Lemma Math_floor_nonneg (q : float) :
  SFnonneg (Prim2SF q) = true ->
  Prim2SF (Math_floor q) = S754_infinity false \/
  exists f, (0 <= f)%Z /\ float2Z (Math_floor q) = Some f /\
            SFfinite (Prim2SF (Math_floor q)) = true.
Proof.
  intros Hq. unfold Math_floor. pose proof (Prim2SF_valid q) as V.
  destruct (Prim2SF q) as [s|s| |s m e] eqn:E; try discriminate.
  - right. exists 0%Z. unfold float2Z. rewrite E. simpl. auto using Z.le_refl.
  - destruct s; try discriminate. now left.
  - destruct s; try discriminate. right. simpl in V.
    destruct (finite_bounds _ _ V) as (He & Hm & _).
    destruct (Z.leb_spec 0 e) as [H0|H0].
    + exists (Zpos m * 2 ^ e)%Z. unfold float2Z. rewrite E. simpl SFfinite.
      unfold SF2Z. rewrite (proj2 (Z.leb_le 0 e) H0). cbn [cond_Zopp].
      split; [|auto]. apply Z.mul_nonneg_nonneg; [lia | apply Z.pow_nonneg; lia].
    + cbn [cond_Zopp]. set (n := Z.shiftr (Zpos m) (- e)).
      assert (Hn : (0 <= n < 2 ^ 53)%Z).
      { unfold n. rewrite Z.shiftr_div_pow2 by lia. split.
        - apply Z.div_pos; [lia | apply pow2_pos; lia].
        - apply Z.div_lt_upper_bound; [apply pow2_pos; lia|].
          assert (1 <= 2 ^ (- e))%Z by (apply (Z.pow_le_mono_r 2 0); lia).
          nia. }
      destruct (Prim2SF_Z2float n) as (_ & _ & Hf & Hfin); [lia|].
      exists n. repeat split; auto; lia.
Qed.

(** *** [Math.min] of a list *)

Lemma fold_min_spec (l : list float) (a : float) :
  isNaN a = false -> Forall (fun v => isNaN v = false) l ->
  isNaN (fold_left Math_min2 l a) = false /\
  (fold_left Math_min2 l a = a \/ In (fold_left Math_min2 l a) l) /\
  (ord (fold_left Math_min2 l a) <= ord a)%Z /\
  Forall (fun v => (ord (fold_left Math_min2 l a) <= ord v)%Z) l.
Proof.
  revert a. induction l as [|x l IH]; intros a Na Hl; simpl.
  - repeat split; auto. lia.
  - inversion Hl as [|? ? Nx Hl']; subst.
    assert (Nm : isNaN (Math_min2 a x) = false /\
                 (Math_min2 a x = a \/ Math_min2 a x = x) /\
                 (ord (Math_min2 a x) <= ord a)%Z /\ (ord (Math_min2 a x) <= ord x)%Z).
    { destruct (Math_min2_cases a x Na Nx) as [[E H]|[E H]]; rewrite E;
        repeat split; auto; lia. }
    destruct Nm as (Nm & Hor & Ha & Hx).
    destruct (IH _ Nm Hl') as (Nr & Hin & Hle & Hall).
    split; [exact Nr|]. split; [|split].
    + destruct Hin as [E|Hin]; [|right; now right].
      rewrite E. destruct Hor as [E'|E']; rewrite E'; [now left | right; now left].
    + lia.
    + constructor; [lia | exact Hall].
Qed.

Lemma finite_not_nan (x : float) : isFinite x = true -> isNaN x = false.
Proof.
  rewrite isFinite_spec, isNaN_spec. destruct (Prim2SF x); auto; discriminate.
Qed.

Lemma finite_ord_lt (x : float) : isFinite x = true -> (ord x < 2 ^ 2100)%Z.
Proof.
  rewrite isFinite_spec. unfold ord. pose proof (Prim2SF_valid x) as V.
  assert (0 < 2 ^ 2100)%Z by (apply pow2_pos; lia).
  destruct (Prim2SF x) as [s|s| |s m e]; try discriminate; intros _; unfold ordv.
  - lia.
  - simpl in V. pose proof (finite_below_infinity _ _ V). pose proof (finite_pos _ _ V).
    destruct s; cbn [cond_Zopp]; lia.
Qed.

(** The minimum of finite values is one of them and below all of them. *)
Lemma Math_min_finite (values : list float) :
  values <> [] -> Forall (fun v => isFinite v = true) values ->
  isFinite (Math_min values) = true /\
  Forall (fun v => (Math_min values <=? v)%float = true) values.
Proof.
  intros Hne Hfin. unfold Math_min.
  assert (Hnan : Forall (fun v => isNaN v = false) values).
  { eapply Forall_impl; [|exact Hfin]. apply finite_not_nan. }
  destruct (fold_min_spec values infinity eq_refl Hnan) as (Nr & Hin & _ & Hall).
  assert (Hmem : In (fold_left Math_min2 values infinity) values).
  { destruct Hin as [E|]; auto. exfalso.
    destruct values as [|v values]; [congruence|].
    inversion Hall as [|? ? Hv _]; subst. inversion Hfin as [|? ? Fv _]; subst.
    rewrite E in Hv. pose proof (finite_ord_lt v Fv).
    change (ord infinity) with (2 ^ 2100)%Z in Hv. lia. }
  split.
  - eapply Forall_forall in Hfin; eauto.
  - apply Forall_forall. intros v Hv.
    rewrite leb_ord.
    + apply Z.leb_le. eapply Forall_forall in Hall; eauto.
    + exact Nr.
    + eapply Forall_forall in Hnan; eauto.
Qed.

(** *** [Math.round] and the clamp to [0, 100] *)

(** What [Math.round] returns: its argument when that is no fraction,
    a zero, or a non-zero integer of less than 54 bits. *)
Lemma Math_round_cases (x : float) :
  (Math_round x = x /\
   match Prim2SF x with S754_finite _ _ e => (0 <= e)%Z | _ => True end) \/
  (exists s, Prim2SF (Math_round x) = S754_zero s) \/
  (exists n, n <> 0%Z /\ (- 2 ^ 53 < n < 2 ^ 53)%Z /\ Math_round x = Z2float n).
Proof.
  unfold Math_round. pose proof (Prim2SF_valid x) as V.
  destruct (Prim2SF x) as [s|s| |s m e] eqn:E; auto.
  destruct (Z.leb_spec 0 e) as [H0|H0]; auto.
  right. simpl in V. destruct (finite_bounds _ _ V) as (He & Hm & _).
  set (n := Z.shiftr (2 * cond_Zopp s (Zpos m) + 2 ^ (- e)) (1 - e)).
  destruct (Z.eqb_spec n 0) as [En|En].
  - left. destruct s; [exists true | exists false]; reflexivity.
  - right. exists n. split; [exact En|]. split; [|reflexivity].
    unfold n. rewrite Z.shiftr_div_pow2 by lia.
    replace (1 - e)%Z with (1 + (- e))%Z by lia. rewrite Z.pow_add_r by lia.
    change (2 ^ 1)%Z with 2%Z.
    assert (HD : (2 <= 2 ^ (- e))%Z) by (apply (Z.pow_le_mono_r 2 1); lia).
    set (D := (2 ^ (- e))%Z) in *.
    assert (Hc : (- 2 ^ 53 < cond_Zopp s (Zpos m) < 2 ^ 53)%Z)
      by (destruct s; cbn [cond_Zopp]; lia).
    set (c := cond_Zopp s (Zpos m)) in *.
    split.
    + apply Z.lt_le_trans with (- 2 ^ 53 + 1)%Z; [lia|].
      apply Z.div_le_lower_bound; [lia|]. nia.
    + apply Z.div_lt_upper_bound; [lia|]. nia.
Qed.

Lemma ord_100 : ord 100 = (100 * 2 ^ 1074)%Z.
Proof.
  destruct (Prim2SF_Z2float 100) as (_ & H & _); [split; reflexivity|].
  exact H.
Qed.

Lemma ord_0 : ord 0 = 0%Z.
Proof. reflexivity. Qed.

Lemma Math_max2_0_zero (r : float) :
  isNaN r = false -> ord r = 0%Z -> Math_max2 0 r = 0%float.
Proof.
  intros Nr Hr. unfold Math_max2. rewrite Nr. simpl orb. cbv iota.
  unfold isNaN in Nr.
  rewrite !ltb_ord by auto. rewrite Hr, ord_0. reflexivity.
Qed.

(** The score after rounding, clamping and the finiteness test is an
    integer from 0 to 100. *)
Lemma clamped_round_range (score : float) :
  exists k, (0 <= k <= 100)%Z /\
    (if isFinite (Math_max2 0 (Math_min2 100 (Math_round score)))
     then Math_max2 0 (Math_min2 100 (Math_round score))
     else 0%float) = Z2float k.
Proof.
  set (R := Math_round score).
  assert (H1074 : (0 < 2 ^ 1074)%Z) by (apply pow2_pos; lia).
  destruct (isNaN R) eqn:NR.
  - exists 0%Z. split; [lia|].
    rewrite (Math_min2_nan 100 R) by (rewrite NR; apply orb_true_r).
    reflexivity.
  - destruct (Math_min2_cases 100 R eq_refl NR) as [[Et Ht]|[Et Ht]]; rewrite Et.
    + exists 100%Z. split; [lia|]. reflexivity.
    + destruct (Math_max2_cases 0 R eq_refl NR) as [[Ec Hc]|[Ec Hc]].
      * rewrite Ec. exists 0%Z. split; [lia|]. reflexivity.
      * rewrite ord_100 in Ht. rewrite ord_0 in Hc.
        destruct (Z.eq_dec (ord R) 0) as [Hz|Hnz].
        { rewrite Math_max2_0_zero by auto. exists 0%Z. split; [lia|]. reflexivity. }
        rewrite Ec.
        destruct (Math_round_cases score) as [[E Hx]|[(s & E)|(n & Hn0 & Hn & E)]];
          fold R in E.
        -- (* the argument itself: infinite, or an integer of at least 2^52 *)
           exfalso. rewrite E in *. clear E R. unfold ord in Ht, Hc, Hnz.
           pose proof (Prim2SF_valid score) as V. rewrite isNaN_spec in NR.
           destruct (Prim2SF score) as [s|s| |s m e] eqn:Es.
           ++ apply Hnz. reflexivity.
           ++ unfold ordv in Ht, Hc.
              assert (2 ^ 53 * 2 ^ 1074 < 2 ^ 2100)%Z
                by (rewrite <- Z.pow_add_r by lia; apply Z.pow_lt_mono_r; lia).
              destruct s; cbn [cond_Zopp] in *; nia.
           ++ discriminate.
           ++ simpl in V. destruct (finite_bounds _ _ V) as (He & Hm & Hlo).
              unfold ordv in Ht, Hc.
              assert (2 ^ 52 <= Zpos m)%Z by (apply Hlo; lia).
              assert (2 ^ 1074 <= 2 ^ (e + 1074))%Z by (apply Z.pow_le_mono_r; lia).
              destruct s; cbn [cond_Zopp] in *; nia.
        -- exfalso. apply Hnz. unfold ord. now rewrite E.
        -- rewrite E in *.
           destruct (Prim2SF_Z2float n Hn) as (_ & Ho & _ & Hf).
           rewrite Ho in Ht, Hc. exists n. split; [nia|].
           rewrite isFinite_spec, Hf. reflexivity.
Qed.

(** *** Products, and sums of zeros *)

Lemma mul_comm (a b : float) : (a * b = b * a)%float.
Proof.
  apply Prim2SF_inj. rewrite !mul_spec. unfold SF64mul, SFmul.
  destruct (Prim2SF a) as [sa|sa| |sa ma ea], (Prim2SF b) as [sb|sb| |sb mb eb];
    try reflexivity; rewrite ?(xorb_comm sa sb); try reflexivity.
  now rewrite (Pos.mul_comm ma mb), (Z.add_comm ea eb).
Qed.

Lemma mul_zero_finite (a b : float) :
  SFzero (Prim2SF a) = true -> isFinite b = true -> SFzero (Prim2SF (a * b)) = true.
Proof.
  rewrite isFinite_spec, mul_spec. unfold SF64mul, SFmul.
  destruct (Prim2SF a), (Prim2SF b); try discriminate; reflexivity.
Qed.

Lemma add_zero_zero (a b : float) :
  SFzero (Prim2SF a) = true -> SFzero (Prim2SF b) = true ->
  SFzero (Prim2SF (a + b)) = true.
Proof.
  rewrite add_spec. unfold SF64add, SFadd.
  destruct (Prim2SF a) as [sa|sa| |sa ma ea], (Prim2SF b) as [sb|sb| |sb mb eb];
    try discriminate.
  destruct sa, sb; reflexivity.
Qed.

Lemma zero_finite (a : float) : SFzero (Prim2SF a) = true -> isFinite a = true.
Proof. rewrite isFinite_spec. destruct (Prim2SF a); try discriminate; reflexivity. Qed.

(** The square root of a zero times anything is no usable denominator. *)
Lemma sqrt_zero_mul_falsy (a b : float) :
  SFzero (Prim2SF a) = true -> truthy (Math_sqrt (a * b)) = false.
Proof.
  intros Ha. rewrite truthy_spec. unfold Math_sqrt.
  rewrite sqrt_spec, mul_spec. unfold SF64sqrt, SFsqrt, SF64mul, SFmul.
  destruct (Prim2SF a) as [sa|sa| |sa ma ea]; try discriminate.
  destruct (Prim2SF b) as [sb|sb| |sb mb eb]; reflexivity.
Qed.

Lemma zero_div_one (a : float) :
  SFzero (Prim2SF a) = true -> SFzero (Prim2SF (a / 1)) = true.
Proof.
  rewrite div_spec. unfold SF64div, SFdiv.
  change (Prim2SF 1) with (S754_finite false 4503599627370496 (-52)).
  destruct (Prim2SF a); try discriminate; reflexivity.
Qed.

(** *** Equal numbers, and [NaN] *)

Lemma eqb_true_ord (x y : float) :
  (x =? y)%float = true -> is_nan x = false /\ is_nan y = false /\ ord x = ord y.
Proof.
  rewrite !is_nan_spec, FloatAxioms.eqb_spec. unfold ord.
  pose proof (Prim2SF_valid x) as Vx. pose proof (Prim2SF_valid y) as Vy.
  destruct (SFnan (Prim2SF x)) eqn:Nx.
  - destruct (Prim2SF x); discriminate.
  - destruct (SFnan (Prim2SF y)) eqn:Ny.
    + destruct (Prim2SF y); try discriminate. destruct (Prim2SF x); discriminate.
    + unfold SFeqb. rewrite SFcompare_ordv by auto.
      destruct (Z.compare_spec (ordv (Prim2SF x)) (ordv (Prim2SF y))); try discriminate.
      auto.
Qed.

(** Of two equal numbers neither is below the other. *)
Lemma eqb_not_ltb (a b : float) :
  (a =? b)%float = true -> (a <? b)%float = false /\ (b <? a)%float = false.
Proof.
  intros H. destruct (eqb_true_ord _ _ H) as (Na & Nb & E).
  rewrite !ltb_ord by auto. rewrite E. split; apply Z.ltb_irrefl.
Qed.

Lemma nan_unique (x : float) : isNaN x = true -> x = nan.
Proof.
  rewrite isNaN_spec. intros H. apply Prim2SF_inj.
  destruct (Prim2SF x); try discriminate. reflexivity.
Qed.

Lemma mul_nan_l (y : float) : (nan * y)%float = nan.
Proof. apply Prim2SF_inj. rewrite mul_spec. reflexivity. Qed.

End FloatFacts.

(** ** Sample runs *)

Module Samples.
Import Reference Inputs.

Example aggregate_sum :
  Worker.aggregate regions (Some (byValueDesc "sum")) =
  Ok [ {| Worker.name := "A"; Worker.value := 30; Worker.size := 2 |};
       {| Worker.name := "B"; Worker.value := 5; Worker.size := 1 |} ].
Proof. vm_compute. reflexivity. Qed.

Example aggregate_average :
  Worker.aggregate regions (Some (byValueDesc "average")) =
  Ok [ {| Worker.name := "A"; Worker.value := 15; Worker.size := 2 |};
       {| Worker.name := "B"; Worker.value := 5; Worker.size := 1 |} ].
Proof. vm_compute. reflexivity. Qed.

End Samples.

(** ** Objects and lists *)

Module ObjectFacts.

Lemma obj_get_set_same {A : Type} (o : JsObject A) (k : string) (v : A) :
  obj_get (obj_set o k v) k = Some v.
Proof.
  induction o as [|[k' v'] o IH]; simpl.
  - now rewrite String.eqb_refl.
  - destruct (String.eqb k' k) eqn:E; simpl; rewrite E; auto.
Qed.

Lemma obj_get_set_other {A : Type} (o : JsObject A) (k k' : string) (v : A) :
  k' <> k -> obj_get (obj_set o k v) k' = obj_get o k'.
Proof.
  intros Hne. induction o as [|[k0 v0] o IH]; simpl.
  - destruct (String.eqb k k') eqn:E; auto.
    apply String.eqb_eq in E. congruence.
  - destruct (String.eqb k0 k) eqn:E; simpl.
    + apply String.eqb_eq in E. subst k0.
      destruct (String.eqb k k') eqn:E'; auto.
      apply String.eqb_eq in E'. congruence.
    + destruct (String.eqb k0 k'); auto.
Qed.

Lemma obj_get_In {A : Type} (o : JsObject A) (k : string) (v : A) :
  obj_get o k = Some v -> In (k, v) o.
Proof.
  induction o as [|[k' v'] o IH]; simpl; [discriminate|].
  destruct (String.eqb k' k) eqn:E.
  - apply String.eqb_eq in E. intros [= ->]. subst. now left.
  - intros H. right. auto.
Qed.

Lemma obj_get_None {A : Type} (o : JsObject A) (k : string) :
  obj_get o k = None <-> ~ In k (map fst o).
Proof.
  induction o as [|[k' v'] o IH]; simpl.
  - tauto.
  - destruct (String.eqb k' k) eqn:E.
    + apply String.eqb_eq in E. split; [discriminate | intros H; exfalso; apply H; auto].
    + apply String.eqb_neq in E. rewrite IH. tauto.
Qed.

Lemma In_obj_get {A : Type} (o : JsObject A) (k : string) (v : A) :
  NoDup (map fst o) -> In (k, v) o -> obj_get o k = Some v.
Proof.
  induction o as [|[k' v'] o IH]; simpl; [tauto|].
  intros Hnd [H|H].
  - injection H as -> ->. now rewrite String.eqb_refl.
  - inversion Hnd; subst.
    destruct (String.eqb k' k) eqn:E; auto.
    apply String.eqb_eq in E. subst k'.
    exfalso. apply H2. change k with (fst (k, v)). now apply in_map.
Qed.

Lemma existsb_eqb_In (k : string) (l : list string) :
  existsb (String.eqb k) l = true <-> In k l.
Proof.
  rewrite existsb_exists. split.
  - intros (x & Hin & E). apply String.eqb_eq in E. now subst.
  - intros H. exists k. split; auto. apply String.eqb_refl.
Qed.

(** Writing a property adds its key at the end, once. *)
Lemma keys_obj_set {A : Type} (o : JsObject A) (k : string) (v : A) :
  map fst (obj_set o k v) = StrSet_add (map fst o) k.
Proof.
  unfold StrSet_add. induction o as [|[k' v'] o IH]; simpl; auto.
  destruct (String.eqb k' k) eqn:E; simpl.
  - rewrite String.eqb_sym, E. reflexivity.
  - rewrite String.eqb_sym, E. simpl. rewrite IH.
    destruct (existsb (String.eqb k) (map fst o)); reflexivity.
Qed.

Lemma distinct_snoc (l : list string) (k : string) :
  distinct (l ++ [k]) = StrSet_add (distinct l) k.
Proof. unfold distinct. now rewrite fold_left_app. Qed.

Lemma StrSet_add_NoDup (s : list string) (k : string) :
  NoDup s -> NoDup (StrSet_add s k).
Proof.
  intros H. unfold StrSet_add.
  destruct (existsb (String.eqb k) s) eqn:E; auto.
  apply NoDup_app; auto.
  - constructor; [simpl; tauto | constructor].
  - intros x Hx [<-|[]].
    apply existsb_eqb_In in Hx. congruence.
Qed.

Lemma StrSet_add_In (s : list string) (k x : string) :
  In x (StrSet_add s k) <-> In x s \/ x = k.
Proof.
  unfold StrSet_add. destruct (existsb (String.eqb k) s) eqn:E.
  - apply existsb_eqb_In in E. split; [tauto | intros [H| ->]; auto].
  - rewrite in_app_iff. simpl. intuition.
Qed.

Lemma distinct_NoDup (l : list string) : NoDup (distinct l).
Proof.
  induction l as [|k l IH] using rev_ind.
  - constructor.
  - rewrite distinct_snoc. now apply StrSet_add_NoDup.
Qed.

Lemma distinct_In (l : list string) (x : string) : In x (distinct l) <-> In x l.
Proof.
  induction l as [|k l IH] using rev_ind.
  - simpl. tauto.
  - rewrite distinct_snoc, StrSet_add_In, in_app_iff, IH. simpl. intuition.
Qed.

Lemma StrSet_add_length (s : list string) (k : string) :
  (List.length s <= List.length (StrSet_add s k) <= S (List.length s))%nat.
Proof.
  unfold StrSet_add. destruct (existsb (String.eqb k) s).
  - lia.
  - rewrite length_app. simpl. lia.
Qed.

Lemma distinct_length (l : list string) : (List.length (distinct l) <= List.length l)%nat.
Proof.
  induction l as [|k l IH] using rev_ind.
  - simpl. lia.
  - rewrite distinct_snoc, length_app. simpl.
    pose proof (StrSet_add_length (distinct l) k). lia.
Qed.

End ObjectFacts.

(** ** Order of elements, property enumeration and sorting *)

Module OrderFacts.

Lemma before_cons_iff {A : Type} (x y z : A) (l : list A) :
  before x y (z :: l) <-> (z = x /\ In y l) \/ before x y l.
Proof.
  split.
  - intros (l1 & l2 & l3 & E). destruct l1 as [|a l1]; simpl in E.
    + injection E as -> ->. left. split; auto.
      apply in_or_app. right. now left.
    + injection E as -> ->. right. now exists l1, l2, l3.
  - intros [[-> Hy] | (l1 & l2 & l3 & ->)].
    + apply in_split in Hy as (l2 & l3 & ->). now exists [], l2, l3.
    + now exists (z :: l1), l2, l3.
Qed.

Lemma before_nil {A : Type} (x y : A) : ~ before x y [].
Proof. intros (l1 & l2 & l3 & E). destruct l1; discriminate. Qed.

Lemma before_In {A : Type} (x y : A) (l : list A) :
  before x y l -> In x l /\ In y l.
Proof.
  intros (l1 & l2 & l3 & ->). split.
  - apply in_or_app. right. now left.
  - apply in_or_app. right. right. apply in_or_app. right. now left.
Qed.

Lemma before_app_l {A : Type} (x y : A) (l l' : list A) :
  before x y l -> before x y (l ++ l').
Proof.
  intros (l1 & l2 & l3 & ->). exists l1, l2, (l3 ++ l').
  now rewrite <- !app_assoc, <- !app_comm_cons, <- app_assoc.
Qed.

Lemma before_firstn {A : Type} (x y : A) (n : nat) (l : list A) :
  before x y (firstn n l) -> before x y l.
Proof.
  intros H. rewrite <- (firstn_skipn n l). now apply before_app_l.
Qed.

Lemma In_firstn {A : Type} (x : A) (n : nat) (l : list A) :
  In x (firstn n l) -> In x l.
Proof.
  intros H. rewrite <- (firstn_skipn n l). apply in_or_app. now left.
Qed.

Lemma before_asym {A : Type} (x y : A) (l : list A) :
  NoDup l -> before x y l -> before y x l -> False.
Proof.
  induction l as [|z l IH]; intros Hnd Hxy Hyx.
  - now apply before_nil in Hxy.
  - inversion Hnd as [|? ? Hz Hnd']; subst.
    apply before_cons_iff in Hxy, Hyx.
    destruct Hxy as [[-> Hy] | Hxy], Hyx as [[E Hx] | Hyx].
    + subst. contradiction.
    + apply before_In in Hyx. tauto.
    + subst. apply before_In in Hxy. tauto.
    + eauto.
Qed.

Lemma before_total {A : Type} (x y : A) (l : list A) :
  In x l -> In y l -> x <> y -> before x y l \/ before y x l.
Proof.
  induction l as [|z l IH]; simpl; [tauto|].
  intros [->|Hx] [->|Hy] Hne.
  - congruence.
  - left. apply before_cons_iff. auto.
  - right. apply before_cons_iff. auto.
  - destruct (IH Hx Hy Hne); [left | right]; apply before_cons_iff; auto.
Qed.

Lemma before_map {A B : Type} (f : A -> B) (x y : A) (l : list A) :
  before x y l -> before (f x) (f y) (map f l).
Proof.
  intros (l1 & l2 & l3 & ->). exists (map f l1), (map f l2), (map f l3).
  now rewrite map_app; simpl; rewrite map_app.
Qed.

Lemma before_refl_NoDup {A : Type} (x : A) (l : list A) :
  NoDup l -> ~ before x x l.
Proof.
  intros Hnd (l1 & l2 & l3 & ->).
  apply NoDup_remove_2 in Hnd. apply Hnd.
  apply in_or_app. right. apply in_or_app. right. now left.
Qed.

Lemma Sorted_firstn {A : Type} (R : A -> A -> Prop) (n : nat) (l : list A) :
  Sorted R l -> Sorted R (firstn n l).
Proof.
  revert l. induction n as [|n IH]; intros l Hs; simpl.
  - constructor.
  - destruct l as [|x l]; [constructor|].
    inversion Hs as [|? ? Hs' Hhd]; subst. constructor; auto.
    destruct n; simpl; [constructor|].
    destruct l; [constructor|]. constructor. now inversion Hhd.
Qed.

Lemma Sorted_weaken {A : Type} (R R' : A -> A -> Prop) (P : A -> Prop) (l : list A) :
  (forall a b, P a -> P b -> R a b -> R' a b) ->
  Forall P l -> Sorted R l -> Sorted R' l.
Proof.
  intros Himp HP Hs. induction Hs as [|x l Hs IH Hhd].
  - constructor.
  - inversion HP as [|? ? Px Pl]; subst. constructor; auto.
    destruct Hhd as [|y l Hxy]; constructor.
    inversion Pl; subst. auto.
Qed.

Lemma In_skipn {A : Type} (x : A) (n : nat) (l : list A) :
  In x (skipn n l) -> In x l.
Proof.
  intros H. rewrite <- (firstn_skipn n l). apply in_or_app. now right.
Qed.

Lemma StronglySorted_impl {A : Type} (R R' : A -> A -> Prop) (l : list A) :
  (forall a b, R a b -> R' a b) -> StronglySorted R l -> StronglySorted R' l.
Proof.
  intros Himp Hs. induction Hs as [|x l Hs IH Hx]; constructor; auto.
  eapply Forall_impl; [|exact Hx]. auto.
Qed.

Lemma StronglySorted_firstn {A : Type} (R : A -> A -> Prop) (n : nat) (l : list A) :
  StronglySorted R l -> StronglySorted R (firstn n l).
Proof.
  intros Hs. revert n. induction Hs as [|x l Hs IH Hx]; intros [|n]; simpl;
    try constructor; auto.
  apply Forall_forall. intros y Hy. apply In_firstn in Hy.
  eapply Forall_forall in Hx; eauto.
Qed.

(** In a list in order throughout, every element of a front part stands
    in order with every element of the rest. *)
Lemma StronglySorted_cut {A : Type} (R : A -> A -> Prop) (n : nat) (l : list A) (p q : A) :
  StronglySorted R l -> In p (firstn n l) -> In q (skipn n l) -> R p q.
Proof.
  revert l. induction n as [|n IH]; intros l Hs Hp Hq; simpl in Hp; [contradiction|].
  destruct l as [|x l]; simpl in *; [contradiction|].
  inversion Hs as [|? ? Hs' Hall]; subst.
  destruct Hp as [->|Hp].
  - eapply Forall_forall in Hall; eauto. eapply In_skipn; eauto.
  - eapply IH; eauto.
Qed.

(** *** [Array_sort] *)

Section SortFacts.
Context {A : Type}.
Variable comparefn : A -> A -> float.

Lemma sort_insert_split (x : A) (s : list A) :
  exists s1 s2, s = s1 ++ s2 /\ sort_insert comparefn x s = s1 ++ x :: s2.
Proof.
  induction s as [|y s (s1 & s2 & E1 & E2)]; simpl.
  - now exists [], [].
  - destruct (0 <? comparefn x y)%float.
    + exists (y :: s1), s2. simpl. now rewrite <- E1, E2.
    + now exists [], (y :: s).
Qed.

Lemma sort_insert_perm (x : A) (s : list A) :
  Permutation (sort_insert comparefn x s) (x :: s).
Proof.
  destruct (sort_insert_split x s) as (s1 & s2 & -> & ->).
  symmetry. apply Permutation_middle.
Qed.

Lemma Array_sort_perm (l : list A) : Permutation (Array_sort comparefn l) l.
Proof.
  induction l as [|x l IH]; simpl; auto.
  rewrite sort_insert_perm. now constructor.
Qed.

Lemma Array_sort_length (l : list A) :
  List.length (Array_sort comparefn l) = List.length l.
Proof. apply Permutation_length, Array_sort_perm. Qed.

Lemma Array_sort_In (x : A) (l : list A) : In x (Array_sort comparefn l) <-> In x l.
Proof.
  split; apply Permutation_in; [|symmetry]; apply Array_sort_perm.
Qed.

Lemma sort_insert_keeps_before (a x y : A) (s : list A) :
  before x y s -> before x y (sort_insert comparefn a s).
Proof.
  induction s as [|z s IH]; simpl; intros H.
  - now apply before_nil in H.
  - destruct (0 <? comparefn a z)%float.
    + apply before_cons_iff in H. apply before_cons_iff.
      destruct H as [[-> Hy] | H]; [left | right; auto].
      split; auto.
      eapply Permutation_in; [symmetry; apply sort_insert_perm|]. now right.
    + apply before_cons_iff. now right.
Qed.

Lemma sort_insert_goes_before (x y : A) (s : list A) :
  In y s -> (0 <? comparefn x y)%float = false ->
  before x y (sort_insert comparefn x s).
Proof.
  induction s as [|z s IH]; simpl; [tauto|].
  intros Hy Hc. destruct (0 <? comparefn x z)%float eqn:E.
  - destruct Hy as [->|Hy]; [congruence|].
    apply before_cons_iff. right. auto.
  - apply before_cons_iff. left. split; auto.
Qed.

(** The sort is stable: an element never moves behind a later element
    that the comparator does not put before it. *)
Lemma Array_sort_stable (x y : A) (l : list A) :
  before x y l -> (0 <? comparefn x y)%float = false ->
  before x y (Array_sort comparefn l).
Proof.
  induction l as [|z l IH]; intros H Hc.
  - now apply before_nil in H.
  - simpl. apply before_cons_iff in H. destruct H as [[-> Hy] | H].
    + apply sort_insert_goes_before; auto. now apply Array_sort_In.
    + apply sort_insert_keeps_before. auto.
Qed.

(** Two elements the comparator does not ask to exchange keep the order
    they had before the sort. *)
Lemma Array_sort_keeps_ties (x y : A) (l : list A) :
  NoDup l -> before x y (Array_sort comparefn l) ->
  (0 <? comparefn y x)%float = false -> before x y l.
Proof.
  intros Hnd Hb Hc.
  assert (Hnd' : NoDup (Array_sort comparefn l)).
  { eapply Permutation_NoDup; [symmetry; apply Array_sort_perm | exact Hnd]. }
  destruct (before_In _ _ _ Hb) as [Hx Hy].
  apply (proj1 (Array_sort_In _ _)) in Hx, Hy.
  assert (Hne : x <> y).
  { intros ->. now apply (before_refl_NoDup y _ Hnd'). }
  destruct (before_total x y l Hx Hy Hne) as [|Hyx]; auto.
  exfalso. apply (before_asym x y _ Hnd' Hb).
  apply Array_sort_stable; auto.
Qed.

(** With a comparator that never puts each of two elements after the
    other, neighbours in the result are in order. *)
Hypothesis comparefn_asym :
  forall a b, (0 <? comparefn a b)%float = true -> (0 <? comparefn b a)%float = false.

Lemma sort_insert_sorted (x : A) (s : list A) :
  Sorted (inOrder comparefn) s -> Sorted (inOrder comparefn) (sort_insert comparefn x s).
Proof.
  induction s as [|y s IH]; simpl; intros Hs.
  - repeat constructor.
  - destruct (0 <? comparefn x y)%float eqn:E.
    + inversion Hs as [|? ? Hs' Hhd]; subst.
      constructor; auto.
      destruct s as [|z s]; simpl.
      * constructor. now apply comparefn_asym.
      * destruct (0 <? comparefn x z)%float eqn:E'.
        -- constructor. now inversion Hhd.
        -- constructor. now apply comparefn_asym.
    + constructor; [assumption|]. constructor. exact E.
Qed.

Lemma Array_sort_sorted (l : list A) :
  Sorted (inOrder comparefn) (Array_sort comparefn l).
Proof.
  induction l as [|x l IH]; simpl.
  - constructor.
  - now apply sort_insert_sorted.
Qed.

End SortFacts.

(** *** [Object_entries] *)

Lemma insert_by_index_perm {A : Type} (i : N) (x : A) (l : list (N * A)) :
  Permutation (insert_by_index i x l) ((i, x) :: l).
Proof.
  induction l as [|[j y] l IH]; simpl; auto.
  destruct (i <? j)%N; auto.
  rewrite IH. apply perm_swap.
Qed.

Lemma index_entries_perm {A : Type} (o : JsObject A) :
  Permutation (map snd (index_entries o)) (filter (fun kv => isArrayIndex (fst kv)) o).
Proof.
  induction o as [|[k v] o IH]; simpl; auto.
  unfold isArrayIndex at 1. simpl.
  destruct (arrayIndex k) as [i|]; auto.
  rewrite insert_by_index_perm. simpl. now constructor.
Qed.

Lemma filter_partition_perm {A : Type} (f : A -> bool) (l : list A) :
  Permutation (filter f l ++ filter (fun x => negb (f x)) l) l.
Proof.
  induction l as [|x l IH]; simpl; auto.
  destruct (f x); simpl.
  - now constructor.
  - rewrite <- Permutation_middle. now constructor.
Qed.

Lemma Object_entries_perm {A : Type} (o : JsObject A) :
  Permutation (Object_entries o) o.
Proof.
  unfold Object_entries, named_entries.
  rewrite index_entries_perm.
  apply (filter_partition_perm (fun kv => isArrayIndex (fst kv))).
Qed.

Lemma Object_values_length {A : Type} (o : JsObject A) :
  List.length (Object_values o) = List.length o.
Proof.
  unfold Object_values. rewrite length_map.
  apply Permutation_length, Object_entries_perm.
Qed.

Lemma index_entries_key {A : Type} (o : JsObject A) (i : N) (kv : string * A) :
  In (i, kv) (index_entries o) -> arrayIndex (fst kv) = Some i.
Proof.
  induction o as [|[k v] o IH]; simpl; [tauto|].
  destruct (arrayIndex k) as [j|] eqn:E; auto.
  intros H. apply (Permutation_in _ (insert_by_index_perm _ _ _)) in H.
  destruct H as [H|H]; auto. injection H as <- <-. exact E.
Qed.

Lemma insert_by_index_sorted {A : Type} (i : N) (x : A) (l : list (N * A)) :
  Sorted (fun a b => (fst a <= fst b)%N) l ->
  Sorted (fun a b => (fst a <= fst b)%N) (insert_by_index i x l).
Proof.
  induction l as [|[j y] l IH]; simpl; intros Hs.
  - repeat constructor.
  - destruct (N.ltb_spec i j).
    + constructor; auto. constructor. simpl. lia.
    + inversion Hs as [|? ? Hs' Hhd]; subst. constructor; auto.
      destruct l as [|[j' y'] l]; simpl.
      * constructor. simpl. lia.
      * destruct (N.ltb_spec i j'); constructor; simpl; try lia.
        now inversion Hhd.
Qed.

(** The array-index keys come out in ascending order of their index. *)
Lemma index_entries_sorted {A : Type} (o : JsObject A) :
  Sorted (fun a b => (fst a <= fst b)%N) (index_entries o).
Proof.
  induction o as [|[k v] o IH]; simpl.
  - constructor.
  - destruct (arrayIndex k); auto. now apply insert_by_index_sorted.
Qed.

Lemma index_keys_sorted {A : Type} (o : JsObject A) :
  Sorted indexLe (map fst (map snd (index_entries o))).
Proof.
  pose proof (index_entries_sorted o) as Hs.
  pose proof (index_entries_key o) as Hk.
  induction Hs as [|[i [k v]] l Hs IH Hhd]; simpl.
  - constructor.
  - constructor.
    + apply IH. intros j kv Hin. apply Hk. now right.
    + destruct Hhd as [|[j [k' v']] l Hij]; simpl; constructor.
      unfold indexLe.
      pose proof (Hk i (k, v) (or_introl eq_refl)) as E1.
      pose proof (Hk j (k', v') (or_intror (or_introl eq_refl))) as E2.
      simpl in E1, E2. rewrite E1, E2. exact Hij.
Qed.

Lemma named_keys {A : Type} (o : JsObject A) :
  map fst (named_entries o) = filter (fun k => negb (isArrayIndex k)) (map fst o).
Proof.
  unfold named_entries. induction o as [|[k v] o IH]; simpl; auto.
  destruct (isArrayIndex k); simpl; now rewrite IH.
Qed.

End OrderFacts.

(** ** The grouping loop *)

Module GroupingFacts.
Import ObjectFacts OrderFacts Worker.

Section Grouping.
Context {rt : JsRuntime}.
Variables xk yk : string.

Lemma accumulate_entry (groups : JsObject Group) (row : Row) :
  accumulate xk yk groups row =
  (e <- entryOf xk yk row ;;
   Ok (tally groups (coalesce (cell row xk) (Scalar (VStr "Unknown"))) (fst e) (snd e))).
Proof.
  unfold accumulate, entryOf, amountOf, keyOf.
  destruct (NumberOf (cell row yk)); simpl; auto.
  destruct (StringOf _); simpl; auto.
Qed.

Lemma members_snoc (k k' : string) (y : float) (es : list (string * float)) :
  members k' (es ++ [(k, y)]) =
  members k' es ++ (if String.eqb k k' then [y] else []).
Proof.
  unfold members. rewrite filter_app, map_app. simpl.
  destruct (String.eqb k k'); reflexivity.
Qed.

Lemma members_nil (k : string) (es : list (string * float)) :
  ~ In k (map fst es) -> members k es = [].
Proof.
  unfold members. induction es as [|[k' y] es IH]; simpl; auto.
  intros H. destruct (String.eqb k' k) eqn:E.
  - apply String.eqb_eq in E. tauto.
  - tauto.
Qed.

Lemma sum_snoc (l : list float) (y : float) : sum (l ++ [y]) = (sum l + y)%float.
Proof. unfold sum. now rewrite fold_left_app. Qed.

Lemma Inv_nil : Inv [] [].
Proof. split; [reflexivity | discriminate]. Qed.

Lemma Inv_tally (es : list (string * float)) (groups : JsObject Group)
  (x : Cell) (k : string) (y : float) :
  Inv es groups -> StringOf x = Ok k -> Inv (es ++ [(k, y)]) (tally groups x k y).
Proof.
  intros [Hkeys Hok] Hx. unfold tally. split.
  - rewrite keys_obj_set, map_app, Hkeys. simpl. now rewrite distinct_snoc.
  - intros k' g' Hget. destruct (string_dec k' k) as [->|Hne].
    + rewrite obj_get_set_same in Hget. injection Hget as <-.
      unfold GroupOk. rewrite members_snoc, String.eqb_refl, length_app, sum_snoc.
      simpl. destruct (obj_get groups k) as [g|] eqn:E.
      * destruct (Hok _ _ E) as (Hn & Hc & Hv & Hpos).
        rewrite Hc, Hv. repeat split; auto; lia.
      * apply obj_get_None in E. rewrite Hkeys, distinct_In in E.
        rewrite (members_nil _ _ E). simpl. repeat split; auto; lia.
    + rewrite obj_get_set_other in Hget by exact Hne.
      destruct (Hok _ _ Hget) as (Hn & Hc & Hv & Hpos).
      unfold GroupOk. rewrite members_snoc.
      destruct (String.eqb k k') eqn:E.
      * apply String.eqb_eq in E. congruence.
      * rewrite app_nil_r. auto.
Qed.

Lemma for_of_accumulate (rows : list Row) (g0 g1 : JsObject Group) :
  for_of (accumulate xk yk) rows g0 = Ok g1 ->
  exists es', mapM (entryOf xk yk) rows = Ok es' /\
              forall es, Inv es g0 -> Inv (es ++ es') g1.
Proof.
  revert g0. induction rows as [|row rows IH]; simpl; intros g0 H.
  - injection H as <-. exists []. split; auto. intros es. now rewrite app_nil_r.
  - rewrite accumulate_entry in H.
    destruct (entryOf xk yk row) as [[k y]|] eqn:E; simpl in H; [|discriminate].
    destruct (IH _ H) as (es' & Hes' & Hinv).
    exists ((k, y) :: es'). rewrite Hes'. simpl. split; auto.
    intros es Hes.
    replace (es ++ (k, y) :: es') with ((es ++ [(k, y)]) ++ es')
      by now rewrite <- app_assoc.
    apply Hinv, Inv_tally; auto.
    unfold entryOf in E. destruct (amountOf yk row); simpl in E; [|discriminate].
    unfold keyOf in E.
    destruct (StringOf (coalesce (cell row xk) (Scalar (VStr "Unknown")))) eqn:Ek;
      simpl in E; [|discriminate].
    now injection E as <- <-.
Qed.

(** The loop runs through exactly when every row yields an entry. *)
Lemma for_of_accumulate_total (rows : list Row) (g0 : JsObject Group) (es : list (string * float)) :
  mapM (entryOf xk yk) rows = Ok es ->
  exists g1, for_of (accumulate xk yk) rows g0 = Ok g1.
Proof.
  revert g0 es. induction rows as [|row rows IH]; simpl; intros g0 es H.
  - eauto.
  - rewrite accumulate_entry.
    destruct (entryOf xk yk row) as [e|]; simpl in *; [|discriminate].
    destruct (mapM (entryOf xk yk) rows) as [es'|] eqn:E; simpl in H; [|discriminate].
    eapply IH; eauto.
Qed.

Lemma for_of_accumulate_throw (rows : list Row) (g0 : JsObject Group) (err : string) :
  mapM (entryOf xk yk) rows = Throw err ->
  for_of (accumulate xk yk) rows g0 = Throw err.
Proof.
  revert g0. induction rows as [|row rows IH]; simpl; intros g0 H; [discriminate|].
  rewrite accumulate_entry.
  destruct (entryOf xk yk row) as [e|]; simpl in *; [|congruence].
  destruct (mapM (entryOf xk yk) rows) as [es'|] eqn:E; simpl in H; [discriminate|].
  apply IH. congruence.
Qed.

(** The entries of a group are the summands of its rows. *)
Lemma members_rowsOf (rows : list Row) (es : list (string * float)) (k : string) :
  mapM (entryOf xk yk) rows = Ok es ->
  mapM (amountOf yk) (rowsOf xk k rows) = Ok (members k es).
Proof.
  revert es. induction rows as [|row rows IH]; simpl; intros es H.
  - now injection H as <-.
  - unfold entryOf at 1 in H. unfold inGroup.
    destruct (amountOf yk row) as [y|] eqn:Ey; simpl in H; [|discriminate].
    destruct (keyOf xk row) as [k'|] eqn:Ek; simpl in H; [|discriminate].
    destruct (mapM (entryOf xk yk) rows) as [es'|]; simpl in H; [|discriminate].
    injection H as <-. unfold members. simpl.
    destruct (String.eqb k' k); simpl.
    + rewrite Ey. simpl. fold (rowsOf xk k rows). rewrite (IH es' eq_refl). reflexivity.
    + now apply IH.
Qed.

Lemma keys_of_entries (rows : list Row) (es : list (string * float)) :
  mapM (entryOf xk yk) rows = Ok es ->
  mapM (keyOf xk) rows = Ok (map fst es).
Proof.
  revert es. induction rows as [|row rows IH]; simpl; intros es H.
  - now injection H as <-.
  - unfold entryOf at 1 in H.
    destruct (amountOf yk row) as [y|]; simpl in H; [|discriminate].
    destruct (keyOf xk row) as [k'|]; simpl in H; [|discriminate].
    destruct (mapM (entryOf xk yk) rows) as [es'|]; simpl in H; [|discriminate].
    injection H as <-. simpl. now rewrite (IH es' eq_refl).
Qed.

Lemma rowsOf_length (rows : list Row) (es : list (string * float)) (k : string) :
  mapM (entryOf xk yk) rows = Ok es ->
  List.length (rowsOf xk k rows) = List.length (members k es).
Proof.
  intros H. apply (members_rowsOf _ _ k) in H.
  revert H. generalize (members k es), (rowsOf xk k rows).
  intros l r. revert l. induction r as [|row r IH]; simpl; intros l H.
  - now injection H as <-.
  - destruct (amountOf yk row); simpl in H; [|discriminate].
    destruct (mapM (amountOf yk) r) as [l'|]; simpl in H; [|discriminate].
    injection H as <-. simpl. f_equal. now apply IH.
Qed.

(** Line 26 cannot throw: every stored name converts to its key. *)
Lemma mapM_toPoint (aggregation : string) (es : list (string * float))
  (groups : JsObject Group) (l : list (string * Group)) :
  Inv es groups -> incl l groups ->
  mapM (toPoint aggregation) (map snd l) = Ok (map (pointOf aggregation) l).
Proof.
  intros [Hkeys Hok] Hincl. induction l as [|[k g] l IH]; simpl; auto.
  assert (Hg : obj_get groups k = Some g).
  { apply In_obj_get.
    - rewrite Hkeys. apply distinct_NoDup.
    - apply Hincl. now left. }
  destruct (Hok _ _ Hg) as (Hn & _).
  unfold toPoint at 1. rewrite Hn. simpl.
  rewrite IH by (intros x Hx; apply Hincl; now right).
  reflexivity.
Qed.

End Grouping.

End GroupingFacts.

(** ** The aggregation pipeline *)

Module WorkerSpec.
Import ObjectFacts OrderFacts GroupingFacts Worker.

Section Pipeline.
Context {rt : JsRuntime}.
Variable config : option Config.

Let xk := propertyKey (field config xAxis).
Let yk := propertyKey (field config yAxis).
Let agg := fieldOr config aggregation "sum".
Let cmp := comparator (fieldOr config sortKey "y") (fieldOr config sortDirection "desc").

Lemma grouping_spec (rows : list Row) (groups : JsObject Group) :
  grouping rows config = Ok groups ->
  exists es, mapM (entryOf xk yk) rows = Ok es /\ Inv es groups.
Proof.
  intros H. apply for_of_accumulate in H as (es & Hes & Hinv).
  exists es. split; auto. apply (Hinv []), Inv_nil.
Qed.

Lemma points_spec (rows : list Row) (pts : list Point) :
  points rows config = Ok pts ->
  exists es groups,
    mapM (entryOf xk yk) rows = Ok es /\ Inv es groups /\
    grouping rows config = Ok groups /\
    pts = map (pointOf agg) (Object_entries groups).
Proof.
  unfold points. intros H.
  destruct (grouping rows config) as [groups|] eqn:Eg; simpl in H; [|discriminate].
  destruct (grouping_spec _ _ Eg) as (es & Hes & Hinv).
  exists es, groups.
  split; [exact Hes|]. split; [exact Hinv|]. split; [reflexivity|].
  unfold Object_values in H.
  rewrite (mapM_toPoint _ es groups) in H; auto.
  - fold agg in H. congruence.
  - intros x. apply Permutation_in, Object_entries_perm.
Qed.

Lemma sorted_spec (rows : list Row) (all : list Point) :
  sorted rows config = Ok all ->
  exists pts, points rows config = Ok pts /\ all = Array_sort cmp pts.
Proof.
  unfold sorted. intros H.
  destruct (points rows config) as [pts|]; simpl in H; [|discriminate].
  exists pts. split; auto. now injection H.
Qed.

Lemma aggregate_spec (rows : list Row) (result : list Point) :
  aggregate rows config = Ok result ->
  exists all, sorted rows config = Ok all /\ result = firstn 1000 all.
Proof.
  unfold aggregate. intros H.
  destruct (sorted rows config) as [all|]; simpl in H; [|discriminate].
  exists all. split; auto. now injection H.
Qed.

(** The pipeline returns exactly when no row throws, and then throws what
    the first failing row throws. *)
Lemma aggregate_total (rows : list Row) (es : list (string * float)) :
  mapM (entryOf xk yk) rows = Ok es -> exists result, aggregate rows config = Ok result.
Proof.
  intros H. destruct (for_of_accumulate_total xk yk rows [] es H) as (groups & Hg).
  assert (Hgr : grouping rows config = Ok groups) by exact Hg.
  destruct (grouping_spec _ _ Hgr) as (es' & _ & Hinv).
  unfold aggregate, sorted, points. rewrite Hgr. simpl.
  unfold Object_values. rewrite (mapM_toPoint _ es' groups); auto.
  - simpl. eauto.
  - intros x. apply Permutation_in, Object_entries_perm.
Qed.

Lemma aggregate_throw (rows : list Row) (err : string) :
  mapM (entryOf xk yk) rows = Throw err -> aggregate rows config = Throw err.
Proof.
  intros H. apply (for_of_accumulate_throw xk yk rows []) in H.
  unfold aggregate, sorted, points, grouping. fold xk yk. now rewrite H.
Qed.

Lemma names_of_points (groups : JsObject Group) :
  map name (map (pointOf agg) (Object_entries groups)) = map fst (Object_entries groups).
Proof. rewrite map_map. reflexivity. Qed.

Lemma NoDup_names (rows : list Row) (pts : list Point) :
  points rows config = Ok pts -> NoDup (map name pts).
Proof.
  intros H. destruct (points_spec _ _ H) as (es & groups & Hes & [Hkeys Hok] & _ & ->).
  rewrite names_of_points.
  eapply Permutation_NoDup.
  - symmetry. apply Permutation_map, Object_entries_perm.
  - rewrite Hkeys. apply distinct_NoDup.
Qed.

(** What a point says about the group of its name. *)
Lemma point_of_group (rows : list Row) (pts : list Point) (p : Point) :
  points rows config = Ok pts -> In p pts ->
  exists cs,
    mapM (amountOf yk) (rowsOf xk (name p) rows) = Ok cs /\
    (0 < List.length cs)%nat /\
    size p = List.length cs /\
    value p = if String.eqb agg "average"
              then (sum cs / nat2float (List.length cs))%float
              else sum cs.
Proof.
  intros H Hp. destruct (points_spec _ _ H) as (es & groups & Hes & [Hkeys Hok] & _ & ->).
  apply in_map_iff in Hp as ([k g] & <- & Hin).
  apply (Permutation_in _ (Object_entries_perm groups)) in Hin.
  apply In_obj_get in Hin; [|rewrite Hkeys; apply distinct_NoDup].
  destruct (Hok _ _ Hin) as (_ & Hc & Hv & Hpos).
  exists (members k es). simpl. repeat split.
  - now apply members_rowsOf.
  - lia.
  - exact Hc.
  - rewrite Hc in Hpos. destruct (String.eqb agg "average"); simpl; auto.
    apply Nat.ltb_lt in Hpos. rewrite <- Hc in Hpos. rewrite Hpos, Hv, Hc. reflexivity.
Qed.

(** Every row is counted in the one point named by its key. *)
Lemma point_of_row (rows : list Row) (pts : list Point) (row : Row) :
  points rows config = Ok pts -> In row rows ->
  exists k p, keyOf xk row = Ok k /\ In p pts /\ name p = k /\
              size p = List.length (rowsOf xk k rows).
Proof.
  intros H Hrow. destruct (points_spec _ _ H) as (es & groups & Hes & [Hkeys Hok] & _ & ->).
  pose proof (keys_of_entries _ _ _ _ Hes) as Hk.
  assert (Hex : exists k, keyOf xk row = Ok k /\ In k (map fst es)).
  { clear - Hk Hrow. revert Hk. generalize (map fst es) as ks.
    induction rows as [|r rows IH]; simpl in *; [tauto|]. intros ks Hk.
    destruct (keyOf xk r) as [k|] eqn:E; simpl in Hk; [|discriminate].
    destruct (mapM (keyOf xk) rows) as [ks'|]; simpl in Hk; [|discriminate].
    injection Hk as <-. destruct Hrow as [->|Hrow].
    - exists k. split; auto. now left.
    - destruct (IH Hrow ks' eq_refl) as (k' & ? & ?). exists k'. split; auto. now right. }
  destruct Hex as (k & Hkey & Hin).
  apply distinct_In in Hin. rewrite <- Hkeys in Hin.
  destruct (obj_get groups k) as [g|] eqn:Eg.
  - exists k, (pointOf agg (k, g)). repeat split; auto.
    + apply in_map. eapply Permutation_in; [symmetry; apply Object_entries_perm|].
      now apply obj_get_In.
    + simpl. destruct (Hok _ _ Eg) as (_ & Hc & _).
      rewrite Hc. symmetry. now apply (rowsOf_length xk yk).
  - apply obj_get_None in Eg. contradiction.
Qed.

End Pipeline.

(** The summand of a row is the number its value cell converts to, with 0
    in the place of [NaN] (and of a zero of either sign); it is never
    [NaN]. *)
Lemma amounts_coerced {rt : JsRuntime} (yk : string) (rs : list Row) (cs : list float) :
  mapM (amountOf yk) rs = Ok cs ->
  Forall2 (fun row c => exists n, NumberOf (cell row yk) = Ok n /\
                                  c = if isNaN n || PrimFloat.is_zero n then 0%float else n)
          rs cs /\
  Forall (fun c => isNaN c = false) cs.
Proof.
  revert cs. induction rs as [|row rs IH]; simpl; intros cs H.
  - injection H as <-. split; constructor.
  - unfold amountOf at 1 in H.
    destruct (NumberOf (cell row yk)) as [n|] eqn:En; simpl in H; [|discriminate].
    destruct (mapM (amountOf yk) rs) as [cs'|]; simpl in H; [|discriminate].
    injection H as <-. destruct (IH cs' eq_refl) as [IH1 IH2].
    assert (Ec : orElse n 0 = if isNaN n || PrimFloat.is_zero n then 0%float else n).
    { unfold orElse, truthy, isNaN.
      destruct (PrimFloat.is_zero n), (PrimFloat.is_nan n); reflexivity. }
    split; constructor; auto.
    + exists n. split; auto.
    + rewrite Ec. destruct (isNaN n) eqn:Nn; simpl; [reflexivity|].
      destruct (PrimFloat.is_zero n); [reflexivity | exact Nn].
Qed.

(** On points the comparator is consistent on, the sort leaves the list in
    the active order throughout. *)
Lemma sort_in_active_order {rt : JsRuntime} (key dir : string) (pts : list Point) :
  comparable key pts ->
  StronglySorted (activeOrder key dir) (Array_sort (comparator key dir) pts).
Proof.
  unfold comparable, activeOrder, comparator. intros Hc.
  destruct (String.eqb key "y").
  - assert (Hn : Forall (fun p => isNaN (value p) = false)
                        (Array_sort (fun a b =>
                           if String.eqb dir "asc" then (value a - value b)%float
                           else (value b - value a)%float) pts)).
    { apply Forall_forall. intros x Hx. apply Array_sort_In in Hx.
      eapply Forall_forall in Hc; eauto. }
    destruct (String.eqb dir "asc").
    + apply Sorted_StronglySorted.
      * intros a b c Hab Hbc. exact (FloatFacts.leb_trans _ _ _ Hab Hbc).
      * eapply (Sorted_weaken (inOrder (fun a b : Point => (value a - value b)%float)) _
                              (fun p => isNaN (value p) = false)); [|exact Hn|].
        -- intros a b Na Nb. unfold inOrder. rewrite FloatFacts.sub_pos.
           now apply FloatFacts.not_ltb_leb.
        -- apply Array_sort_sorted. intros a b.
           rewrite !FloatFacts.sub_pos. apply FloatFacts.ltb_asym.
    + apply Sorted_StronglySorted.
      * intros a b c Hab Hbc. exact (FloatFacts.leb_trans _ _ _ Hbc Hab).
      * eapply (Sorted_weaken (inOrder (fun a b : Point => (value b - value a)%float)) _
                              (fun p => isNaN (value p) = false)); [|exact Hn|].
        -- intros a b Na Nb. unfold inOrder. rewrite FloatFacts.sub_pos.
           now apply FloatFacts.not_ltb_leb.
        -- apply Array_sort_sorted. intros a b.
           rewrite !FloatFacts.sub_pos. apply FloatFacts.ltb_asym.
  - destruct Hc as [Hflip Htrans].
    assert (Hasym : forall a b, (0 <? localeCompare a b)%float = true ->
                                (0 <? localeCompare b a)%float = false).
    { intros a b H. apply FloatFacts.ltb_asym. now rewrite Hflip. }
    destruct (String.eqb dir "asc").
    + apply Sorted_StronglySorted.
      * intros a b c Hab Hbc. eapply Htrans; eauto.
      * apply (Array_sort_sorted (fun a b => localeCompare (name a) (name b))).
        intros a b. apply Hasym.
    + apply Sorted_StronglySorted.
      * intros a b c Hab Hbc. eapply Htrans; eauto.
      * apply (Array_sort_sorted (fun a b => localeCompare (name b) (name a))).
        intros a b. apply Hasym.
Qed.

(** C2, as amended: the result holds [min(1000, number of distinct group
    keys)] points and is the front of 1000 of a list [all] that arranges the
    points, one per distinct group key: the cut comes after the sort. When
    the comparator is consistent on the points (by value: no group value is
    [NaN]; by name: [localeCompare] orders the names), [all] is in the
    active sort order throughout, and every point of the result stands in
    that order with every point that was cut. *)
Theorem C2_truncation_after_sort {rt : JsRuntime}
  (rows : list Row) (config : option Config) (result : list Point) :
  aggregate rows config = Ok result ->
  exists keys pts all,
    mapM (keyOf (propertyKey (field config xAxis))) rows = Ok keys /\
    points rows config = Ok pts /\
    Permutation (map name pts) (distinct keys) /\
    Permutation all pts /\
    result = firstn 1000 all /\
    List.length result = Nat.min 1000 (List.length (distinct keys)) /\
    (comparable (fieldOr config sortKey "y") pts ->
     StronglySorted (activeOrder (fieldOr config sortKey "y")
                                 (fieldOr config sortDirection "desc")) all /\
     forall p q, In p result -> In q (skipn 1000 all) ->
       activeOrder (fieldOr config sortKey "y") (fieldOr config sortDirection "desc") p q).
Proof.
  intros H.
  destruct (aggregate_spec _ _ _ H) as (all & Hall & ->).
  destruct (sorted_spec _ _ _ Hall) as (pts & Hpts & ->).
  destruct (points_spec _ _ _ Hpts) as (es & groups & Hes & [Hkeys Hok] & _ & Hp).
  exists (map fst es), pts,
    (Array_sort (comparator (fieldOr config sortKey "y")
                            (fieldOr config sortDirection "desc")) pts).
  assert (Hperm : Permutation (map name pts) (distinct (map fst es))).
  { rewrite Hp, names_of_points, <- Hkeys.
    apply Permutation_map, Object_entries_perm. }
  split; [eapply keys_of_entries; eauto|].
  split; [exact Hpts|]. split; [exact Hperm|].
  split; [apply Array_sort_perm|]. split; [reflexivity|]. split.
  - rewrite length_firstn, Array_sort_length, <- (Permutation_length Hperm), length_map.
    reflexivity.
  - intros Hc.
    pose proof (sort_in_active_order _ (fieldOr config sortDirection "desc") _ Hc) as Hs.
    split; [exact Hs|]. intros p q Hin Hout. eapply StronglySorted_cut; eauto.
Qed.

(** C3: a point carries the number of rows of its group as [size] and, as
    [value], the sum of their summands, divided by that number when the
    mode is average. The summand of a row is the number its value cell
    converts to, with 0 in the place of [NaN] (what a cell that is no
    number converts to): no summand is [NaN], and a row whose cell is
    replaced by 0 is counted in [size] like any other. *)
Theorem C3_value_and_size {rt : JsRuntime}
  (rows : list Row) (config : option Config) (result : list Point) (p : Point) :
  aggregate rows config = Ok result ->
  In p result ->
  exists cs,
    mapM (amountOf (propertyKey (field config yAxis)))
         (rowsOf (propertyKey (field config xAxis)) (name p) rows) = Ok cs /\
    Forall2 (fun row c =>
               exists n, NumberOf (cell row (propertyKey (field config yAxis))) = Ok n /\
                         c = if isNaN n || PrimFloat.is_zero n then 0%float else n)
            (rowsOf (propertyKey (field config xAxis)) (name p) rows) cs /\
    Forall (fun c => isNaN c = false) cs /\
    (0 < List.length cs)%nat /\
    size p = List.length cs /\
    size p = List.length (rowsOf (propertyKey (field config xAxis)) (name p) rows) /\
    value p = if String.eqb (fieldOr config aggregation "sum") "average"
              then (sum cs / nat2float (List.length cs))%float
              else sum cs.
Proof.
  intros H Hp.
  destruct (aggregate_spec _ _ _ H) as (all & Hall & ->).
  destruct (sorted_spec _ _ _ Hall) as (pts & Hpts & ->).
  apply In_firstn, Array_sort_In in Hp.
  destruct (point_of_group _ _ _ _ Hpts Hp) as (cs & Hcs & Hpos & Hsize & Hval).
  destruct (amounts_coerced _ _ _ Hcs) as [Hco Hnn].
  exists cs. split; [exact Hcs|]. split; [exact Hco|]. split; [exact Hnn|].
  split; [exact Hpos|]. split; [exact Hsize|]. split; [|exact Hval].
  rewrite Hsize. symmetry. eapply Forall2_length; eauto.
Qed.

(** C4, as amended: a row whose key cell is null or undefined (an absent
    property or row included) is counted under the name Unknown; any other
    row, the empty string and the string null included, is counted under
    the string its key cell converts to. *)
Theorem C4_group_name {rt : JsRuntime}
  (rows : list Row) (config : option Config) (all : list Point) (row : Row) :
  sorted rows config = Ok all ->
  In row rows ->
  exists k p,
    (nullish (cell row (propertyKey (field config xAxis))) = true -> k = "Unknown") /\
    (nullish (cell row (propertyKey (field config xAxis))) = false ->
     StringOf (cell row (propertyKey (field config xAxis))) = Ok k) /\
    (forall s, cell row (propertyKey (field config xAxis)) = Scalar (VStr s) -> k = s) /\
    In p all /\ name p = k /\
    size p = List.length (rowsOf (propertyKey (field config xAxis)) k rows) /\
    NoDup (map name all).
Proof.
  intros H Hrow.
  destruct (sorted_spec _ _ _ H) as (pts & Hpts & ->).
  destruct (point_of_row _ _ _ _ Hpts Hrow) as (k & p & Hk & Hp & Hn & Hs).
  exists k, p. unfold keyOf, coalesce in Hk.
  split; [|split; [|split; [|split; [|split; [|split]]]]]; auto.
  - intros E. rewrite E in Hk. simpl in Hk. congruence.
  - intros E. now rewrite E in Hk.
  - intros s E. rewrite E in Hk. simpl in Hk. congruence.
  - now apply Array_sort_In.
  - eapply Permutation_NoDup.
    + symmetry. apply Permutation_map, Array_sort_perm.
    + eapply NoDup_names; eauto.
Qed.

(** C5, as amended: with the sort by value, descending, and no group value
    [NaN], the values of the result are non-increasing, and points of equal
    value keep the order in which the groups object enumerates them, which
    is: the keys that are array indices in ascending numeric order, then
    the other keys in order of first encounter. *)
Theorem C5_descending_by_value {rt : JsRuntime}
  (rows : list Row) (config : option Config) (result : list Point) :
  fieldOr config sortKey "y" = "y" ->
  String.eqb (fieldOr config sortDirection "desc") "asc" = false ->
  aggregate rows config = Ok result ->
  exists keys groups pts,
    mapM (keyOf (propertyKey (field config xAxis))) rows = Ok keys /\
    grouping rows config = Ok groups /\
    points rows config = Ok pts /\
    map name pts =
      map fst (map snd (index_entries groups)) ++
      filter (fun k => negb (isArrayIndex k)) (distinct keys) /\
    Sorted indexLe (map fst (map snd (index_entries groups))) /\
    (Forall (fun p => isNaN (value p) = false) pts ->
     StronglySorted (fun p q => (value q <=? value p)%float = true) result /\
     forall p q, before p q result -> (value p =? value q)%float = true -> before p q pts).
Proof.
  intros Hkey Hdir H.
  destruct (aggregate_spec _ _ _ H) as (all & Hall & ->).
  destruct (sorted_spec _ _ _ Hall) as (pts & Hpts & ->).
  destruct (points_spec _ _ _ Hpts) as (es & groups & Hes & [Hkeys Hok] & Hg & Hp).
  assert (Hnd : NoDup pts).
  { apply (NoDup_map_inv name). eapply NoDup_names; eauto. }
  exists (map fst es), groups, pts.
  split; [eapply keys_of_entries; eauto|].
  split; [exact Hg|]. split; [exact Hpts|]. split; [|split].
  - rewrite Hp, names_of_points. unfold Object_entries.
    rewrite map_app, named_keys, Hkeys. reflexivity.
  - apply index_keys_sorted.
  - intros Hnan. split.
    + rewrite Hkey. apply StronglySorted_firstn.
      eapply StronglySorted_impl;
        [|apply (sort_in_active_order "y" (fieldOr config sortDirection "desc") pts Hnan)].
      intros a b. unfold activeOrder. rewrite Hdir. auto.
    + intros p q Hb Hv. apply before_firstn in Hb.
      eapply Array_sort_keeps_ties; eauto.
      unfold comparator. rewrite Hkey, Hdir. simpl.
      rewrite FloatFacts.sub_pos. exact (proj2 (FloatFacts.eqb_not_ltb _ _ Hv)).
Qed.

(** C6: the handler posts exactly one response and lets no exception out;
    the response is the error for a payload without a data array, the
    error made of the exception when the pipeline throws, and the success
    carrying the points otherwise. *)
Theorem C6_one_response {rt : JsRuntime} (event : Message) :
  exists r,
    onmessage event = ([r], Ok tt) /\
    r = match data event with
        | None => Error "No data array provided"
        | Some rows =>
            match aggregate rows (config event) with
            | Ok result => Success result
            | Throw err => Error err
            end
        end.
Proof.
  unfold onmessage. destruct (data event) as [rows|]; simpl.
  - destruct (aggregate rows (config event)) as [result|err]; simpl; eauto.
  - eauto.
Qed.

End WorkerSpec.

(** ** The reference collation *)

Module ReferenceFacts.

Lemma compareBytes_sign (a b : string) :
  Reference.compareBytes a b = (-1)%float \/ Reference.compareBytes a b = 0%float \/
  Reference.compareBytes a b = 1%float.
Proof.
  revert b. induction a as [|x a IH]; intros [|y b]; simpl; auto.
  destruct (_ <? _)%N; auto. destruct (_ <? _)%N; auto.
Qed.

Lemma compareBytes_flip (a b : string) :
  (0 <? Reference.compareBytes a b)%float = true <->
  Reference.compareBytes b a = (-1)%float.
Proof.
  revert b. induction a as [|x a IH]; intros [|y b]; simpl;
    try (split; [discriminate|intros H; inversion H]); try (split; reflexivity).
  destruct (N_of_ascii x <? N_of_ascii y)%N eqn:E1, (N_of_ascii y <? N_of_ascii x)%N eqn:E2;
    try (apply N.ltb_lt in E1, E2; lia).
  - split; [discriminate|intros H; inversion H].
  - split; reflexivity.
  - apply IH.
Qed.

Lemma compareBytes_asym (a b : string) :
  (0 <? Reference.compareBytes a b)%float = true ->
  (0 <? Reference.compareBytes b a)%float = false.
Proof. intros H. apply compareBytes_flip in H. now rewrite H. Qed.

Lemma compareBytes_trans (a b c : string) :
  (0 <? Reference.compareBytes a b)%float = false ->
  (0 <? Reference.compareBytes b c)%float = false ->
  (0 <? Reference.compareBytes a c)%float = false.
Proof.
  revert b c. induction a as [|x a IH]; intros [|y b] [|z c]; simpl; auto;
    try discriminate.
  destruct (N_of_ascii x <? N_of_ascii y)%N eqn:E1;
  destruct (N_of_ascii y <? N_of_ascii x)%N eqn:E2;
  destruct (N_of_ascii y <? N_of_ascii z)%N eqn:E3;
  destruct (N_of_ascii z <? N_of_ascii y)%N eqn:E4;
  destruct (N_of_ascii x <? N_of_ascii z)%N eqn:E5;
  destruct (N_of_ascii z <? N_of_ascii x)%N eqn:E6;
  try discriminate; auto;
  try (apply N.ltb_lt in E1); try (apply N.ltb_lt in E2); try (apply N.ltb_lt in E3);
  try (apply N.ltb_lt in E4); try (apply N.ltb_lt in E5); try (apply N.ltb_lt in E6);
  try (apply N.ltb_ge in E1); try (apply N.ltb_ge in E2); try (apply N.ltb_ge in E3);
  try (apply N.ltb_ge in E4); try (apply N.ltb_ge in E5); try (apply N.ltb_ge in E6);
  try lia.
  apply IH.
Qed.

(** The reference collation puts [a] before [b] exactly when it puts [b]
    after [a]. *)
Lemma compareBytes_mirror (a b : string) :
  (Reference.compareBytes a b <? 0)%float = (0 <? Reference.compareBytes b a)%float.
Proof.
  destruct (0 <? Reference.compareBytes b a)%float eqn:E.
  - apply compareBytes_flip in E. now rewrite E.
  - destruct (compareBytes_sign a b) as [H|[H|H]]; rewrite H; try reflexivity.
    exfalso.
    assert (E' : (0 <? Reference.compareBytes b a)%float = true)
      by (apply compareBytes_flip; exact H).
    congruence.
Qed.

End ReferenceFacts.

(** ** The pipeline on the sample inputs *)

Module WorkerRuns.
Import Worker Inputs MoreInputs ReferenceFacts.

(** C2 as stated fails: of three groups of values 1, [NaN] and 2, sorted
    by value, descending, the result lists the point of value 1 before the
    point of value 2. The comparator makes the [NaN] point a tie of each of
    the other two, so that every point is in order with the one before it;
    a sort that accepts a list whose neighbours are in order (the stable
    insertion here, like a sort that first looks for a run of such
    neighbours) leaves the three points as they are. *)
Lemma C2_counterexample :
  aggregate (rt := Reference.runtime) withNaN (Some (byValueDesc "sum")) =
    Ok [ {| name := "a"; value := 1; size := 1 |};
         {| name := "b"; value := nan; size := 2 |};
         {| name := "c"; value := 2; size := 1 |} ] /\
  (2 <=? 1)%float = false /\
  comparator (rt := Reference.runtime) "y" "desc"
    {| name := "b"; value := nan; size := 2 |} {| name := "a"; value := 1; size := 1 |} = nan /\
  comparator (rt := Reference.runtime) "y" "desc"
    {| name := "c"; value := 2; size := 1 |} {| name := "b"; value := nan; size := 2 |} = nan.
Proof. repeat split; reflexivity. Qed.

(** The sort and the cut both at work: of 1002 groups met in ascending
    order of their values, sorted by value, descending, the result holds
    the 1000 groups of greatest value, greatest first; and the three
    regions sorted by name, descending. *)
Lemma C2_truncation_after_sort_witness :
  (exists result keys pts all,
     aggregate (rt := Reference.runtime) manyRows (Some (byValueDesc "sum")) = Ok result /\
     mapM (keyOf (rt := Reference.runtime) "region") manyRows = Ok keys /\
     points (rt := Reference.runtime) manyRows (Some (byValueDesc "sum")) = Ok pts /\
     Permutation (map name pts) (distinct keys) /\
     Permutation all pts /\
     result = firstn 1000 all /\
     List.length result = Nat.min 1000 (List.length (distinct keys)) /\
     StronglySorted (activeOrder (rt := Reference.runtime) "y" "desc") all /\
     (forall p q, In p result -> In q (skipn 1000 all) ->
                  activeOrder (rt := Reference.runtime) "y" "desc" p q) /\
     List.length (distinct keys) = 1002%nat /\
     pts = map single (seq 0 1002) /\
     result = map single (rev (seq 2 1000))) /\
  (exists pts all,
     aggregate (rt := Reference.runtime) regions (Some (byName "desc")) =
       Ok [ {| name := "B"; value := 5; size := 1 |}; {| name := "A"; value := 30; size := 2 |} ] /\
     points (rt := Reference.runtime) regions (Some (byName "desc")) = Ok pts /\
     Permutation all pts /\
     [ {| name := "B"; value := 5; size := 1 |}; {| name := "A"; value := 30; size := 2 |} ] =
       firstn 1000 all /\
     StronglySorted (activeOrder (rt := Reference.runtime) "x" "desc") all).
Proof.
  split.
  - assert (E : aggregate (rt := Reference.runtime) manyRows (Some (byValueDesc "sum")) =
                Ok (map single (rev (seq 2 1000)))) by (vm_compute; reflexivity).
    destruct (WorkerSpec.C2_truncation_after_sort (rt := Reference.runtime) manyRows
                (Some (byValueDesc "sum")) _ E)
      as (keys & pts & all & Hk & Hp & Hperm & Hall & Hres & Hlen & Hord).
    assert (Ep : points (rt := Reference.runtime) manyRows (Some (byValueDesc "sum")) =
                 Ok (map single (seq 0 1002))) by (vm_compute; reflexivity).
    assert (Ek : List.length (distinct keys) = 1002%nat).
    { assert (Ek' : mapM (keyOf (rt := Reference.runtime) "region") manyRows =
                    Ok (map (fun i => Reference.printZ (Z.of_nat i)) (seq 0 1002)))
        by (vm_compute; reflexivity).
      change (propertyKey (field (Some (byValueDesc "sum")) xAxis)) with "region" in Hk.
      rewrite Ek' in Hk. injection Hk as <-. vm_compute. reflexivity. }
    assert (Epts : pts = map single (seq 0 1002)) by congruence.
    assert (Hc : comparable (rt := Reference.runtime) "y" pts).
    { rewrite Epts. apply Forall_forall. intros p Hin.
      assert (Hnn : forallb (fun p => negb (isNaN (value p))) (map single (seq 0 1002)) = true)
        by (vm_compute; reflexivity).
      eapply forallb_forall in Hnn; eauto. now apply negb_true_iff in Hnn. }
    destruct (Hord Hc) as [Hs Htop].
    exists (map single (rev (seq 2 1000))), keys, pts, all.
    split; [exact E|]. split; [exact Hk|]. split; [exact Hp|]. split; [exact Hperm|].
    split; [exact Hall|]. split; [exact Hres|]. split; [exact Hlen|].
    split; [exact Hs|]. split; [exact Htop|]. split; [exact Ek|]. split; [exact Epts|].
    reflexivity.
  - destruct (WorkerSpec.C2_truncation_after_sort (rt := Reference.runtime) regions
                (Some (byName "desc")) _ eq_refl)
      as (keys & pts & all & _ & Hp & _ & Hall & Hres & _ & Hord).
    destruct (Hord (conj compareBytes_mirror compareBytes_trans)) as [Hs _].
    exists pts, all.
    split; [reflexivity|]. split; [exact Hp|]. split; [exact Hall|].
    split; [exact Hres|]. exact Hs.
Defined.

(** A row whose value cell is no number counts for 0 in the sum and for
    one row in the size: the average over the two rows of the group is 5. *)
Lemma C3_value_and_size_witness :
  aggregate (rt := Reference.runtime) withText (Some (byValueDesc "average")) =
    Ok [ {| name := "A"; value := 5; size := 2 |} ] /\
  NumberOf (rt := Reference.runtime) (cell (row (VStr "A") (VStr "N/A")) "sales") = Ok nan /\
  exists cs,
    cs = [10; 0]%float /\
    mapM (amountOf (rt := Reference.runtime) "sales")
         (rowsOf (rt := Reference.runtime) "region" "A" withText) = Ok cs /\
    Forall2 (fun row c =>
               exists n, NumberOf (rt := Reference.runtime) (cell row "sales") = Ok n /\
                         c = if isNaN n || PrimFloat.is_zero n then 0%float else n)
            (rowsOf (rt := Reference.runtime) "region" "A" withText) cs /\
    Forall (fun c => isNaN c = false) cs /\
    (0 < List.length cs)%nat /\
    2%nat = List.length cs /\
    2%nat = List.length (rowsOf (rt := Reference.runtime) "region" "A" withText) /\
    5%float = (sum cs / nat2float (List.length cs))%float.
Proof.
  split; [reflexivity|]. split; [reflexivity|].
  destruct (WorkerSpec.C3_value_and_size (rt := Reference.runtime)
              withText (Some (byValueDesc "average")) _
              {| name := "A"; value := 5; size := 2 |} eq_refl (or_introl eq_refl))
    as (cs & Hcs & Hco & Hnn & Hpos & Hsize & Hrows & Hval).
  exists cs. split; [|repeat split; assumption].
  change (mapM (amountOf (rt := Reference.runtime) "sales")
               (rowsOf (rt := Reference.runtime) "region" "A" withText))
    with (Ok [10; 0]%float) in Hcs.
  now injection Hcs.
Defined.

(** C4 as stated fails: a row whose key is the empty string, missing in the
    sense of the specification, is counted under the empty name, and no
    point is named Unknown. *)
Lemma C4_counterexample :
  specMissing (cell (row (VStr "") (VNum 5)) "region") = true /\
  aggregate (rt := Reference.runtime) [row (VStr "") (VNum 5)] (Some (byValueDesc "sum")) =
    Ok [ {| name := ""; value := 5; size := 1 |} ].
Proof. split; reflexivity. Qed.

Lemma C4_group_name_witness :
  sorted (rt := Reference.runtime) blanks (Some (byValueDesc "sum")) =
    Ok [ {| name := "null"; value := 7; size := 1 |};
         {| name := ""; value := 5; size := 1 |};
         {| name := "Unknown"; value := 1; size := 2 |} ] /\
  In (row (VStr "null") (VNum 7)) blanks /\
  exists k p,
    (nullish (cell (row (VStr "null") (VNum 7)) "region") = true -> k = "Unknown") /\
    (nullish (cell (row (VStr "null") (VNum 7)) "region") = false ->
     StringOf (rt := Reference.runtime) (cell (row (VStr "null") (VNum 7)) "region") = Ok k) /\
    (forall s, cell (row (VStr "null") (VNum 7)) "region" = Scalar (VStr s) -> k = s) /\
    In p [ {| name := "null"; value := 7; size := 1 |};
           {| name := ""; value := 5; size := 1 |};
           {| name := "Unknown"; value := 1; size := 2 |} ] /\
    name p = k /\
    size p = List.length (rowsOf (rt := Reference.runtime) "region" k blanks) /\
    NoDup (map name [ {| name := "null"; value := 7; size := 1 |};
                      {| name := ""; value := 5; size := 1 |};
                      {| name := "Unknown"; value := 1; size := 2 |} ]).
Proof.
  split; [reflexivity|]. split; [right; left; reflexivity|].
  exact (WorkerSpec.C4_group_name (rt := Reference.runtime)
           blanks (Some (byValueDesc "sum")) _ (row (VStr "null") (VNum 7))
           eq_refl (or_intror (or_introl eq_refl))).
Defined.

(** C5 as stated fails: two groups of equal value, the group 10 met
    first, and the result lists the group 9 first. *)
Lemma C5_counterexample :
  mapM (keyOf (rt := Reference.runtime) "region") numbered = Ok ["10"; "9"] /\
  aggregate (rt := Reference.runtime) numbered (Some (byValueDesc "sum")) =
    Ok [ {| name := "9"; value := 5; size := 1 |};
         {| name := "10"; value := 5; size := 1 |} ].
Proof. split; reflexivity. Qed.

(** A value apart and three equal values: the sort moves the greatest to
    the front and leaves the three in the order of the groups object, the
    keys 9 and 10 first, though met after [b] and in the other order. *)
Lemma C5_descending_by_value_witness :
  fieldOr (Some (byValueDesc "sum")) sortKey "y" = "y" /\
  String.eqb (fieldOr (Some (byValueDesc "sum")) sortDirection "desc") "asc" = false /\
  aggregate (rt := Reference.runtime) tied (Some (byValueDesc "sum")) =
    Ok [ {| name := "a"; value := 7; size := 1 |}; {| name := "9"; value := 5; size := 1 |};
         {| name := "10"; value := 5; size := 1 |}; {| name := "b"; value := 5; size := 1 |} ] /\
  exists keys groups pts,
    keys = ["b"; "10"; "a"; "9"] /\
    pts = [ {| name := "9"; value := 5; size := 1 |}; {| name := "10"; value := 5; size := 1 |};
            {| name := "b"; value := 5; size := 1 |}; {| name := "a"; value := 7; size := 1 |} ] /\
    mapM (keyOf (rt := Reference.runtime) "region") tied = Ok keys /\
    grouping (rt := Reference.runtime) tied (Some (byValueDesc "sum")) = Ok groups /\
    points (rt := Reference.runtime) tied (Some (byValueDesc "sum")) = Ok pts /\
    map name pts =
      map fst (map snd (index_entries groups)) ++
      filter (fun k => negb (isArrayIndex k)) (distinct keys) /\
    Sorted indexLe (map fst (map snd (index_entries groups))) /\
    Forall (fun p => isNaN (value p) = false) pts /\
    StronglySorted (fun p q => (value q <=? value p)%float = true)
      [ {| name := "a"; value := 7; size := 1 |}; {| name := "9"; value := 5; size := 1 |};
        {| name := "10"; value := 5; size := 1 |}; {| name := "b"; value := 5; size := 1 |} ] /\
    (forall p q,
       before p q [ {| name := "a"; value := 7; size := 1 |};
                    {| name := "9"; value := 5; size := 1 |};
                    {| name := "10"; value := 5; size := 1 |};
                    {| name := "b"; value := 5; size := 1 |} ] ->
       (value p =? value q)%float = true -> before p q pts).
Proof.
  split; [reflexivity|]. split; [reflexivity|]. split; [reflexivity|].
  destruct (WorkerSpec.C5_descending_by_value (rt := Reference.runtime)
              tied (Some (byValueDesc "sum")) _ eq_refl eq_refl eq_refl)
    as (keys & groups & pts & Hk & Hg & Hp & Hnames & Hidx & Hord).
  assert (Ek : keys = ["b"; "10"; "a"; "9"]).
  { change (mapM (keyOf (rt := Reference.runtime)
                    (propertyKey (field (Some (byValueDesc "sum")) xAxis))) tied)
      with (Ok ["b"; "10"; "a"; "9"]) in Hk.
    now injection Hk. }
  assert (Ep : pts = [ {| name := "9"; value := 5; size := 1 |};
                       {| name := "10"; value := 5; size := 1 |};
                       {| name := "b"; value := 5; size := 1 |};
                       {| name := "a"; value := 7; size := 1 |} ]).
  { change (points (rt := Reference.runtime) tied (Some (byValueDesc "sum")))
      with (Ok [ {| name := "9"; value := 5; size := 1 |};
                 {| name := "10"; value := 5; size := 1 |};
                 {| name := "b"; value := 5; size := 1 |};
                 {| name := "a"; value := 7; size := 1 |} ]) in Hp.
    now injection Hp. }
  assert (Hnn : Forall (fun p => isNaN (value p) = false) pts).
  { rewrite Ep. repeat constructor. }
  destruct (Hord Hnn) as [Hs Hties].
  exists keys, groups, pts.
  split; [exact Ek|]. split; [exact Ep|]. split; [exact Hk|]. split; [exact Hg|].
  split; [exact Hp|]. split; [exact Hnames|]. split; [exact Hidx|].
  split; [exact Hnn|]. split; [exact Hs|]. exact Hties.
Defined.

(** A group of value [NaN] before the group of greatest value: like the
    three points of the counterexample to C2, the 1001 points are each in
    order with the one before; a sort that accepts such a list (the stable
    insertion here, like a sort that first looks for a run of neighbours in
    order) leaves them as they are, and the cut drops the last, the group
    of value 5000. *)
Example nan_keeps_top_out :
  match aggregate (rt := Reference.runtime) lateTop (Some (byValueDesc "sum")) with
  | Ok result =>
      (List.length result, map name (skipn 998 result),
       existsb (fun p => (value p =? 5000)%float) result)
  | Throw _ => (0%nat, [], false)
  end = (1000%nat, ["998"; "999"], false).
Proof. vm_compute. reflexivity. Qed.

(** A row that is not a number in the value column counts for zero and
    stays in the size of its group. *)
Example text_counts_for_zero :
  aggregate (rt := Reference.runtime) withText (Some (byValueDesc "sum")) =
  Ok [ {| name := "A"; value := 10; size := 2 |} ].
Proof. reflexivity. Qed.

(** The three shapes of a response. *)
Example onmessage_success :
  onmessage (rt := Reference.runtime)
    {| data := Some regions; config := Some (byValueDesc "sum") |} =
  ([ Success [ {| name := "A"; value := 30; size := 2 |};
               {| name := "B"; value := 5; size := 1 |} ] ], Ok tt).
Proof. reflexivity. Qed.

Example onmessage_no_array :
  onmessage (rt := Reference.runtime) {| data := None; config := None |} =
  ([ Error "No data array provided" ], Ok tt).
Proof. reflexivity. Qed.

Example onmessage_exception :
  onmessage (rt := Reference.runtime)
    {| data := Some poisoned; config := Some (byValueDesc "sum") |} =
  ([ Error "TypeError: Cannot convert object to primitive value" ], Ok tt).
Proof. reflexivity. Qed.

End WorkerRuns.

(** ** The histogram *)

Module Histogram.
Import Overview FloatFacts.

Lemma increment_length (c : list nat) (k : nat) :
  List.length (increment c k) = List.length c.
Proof.
  revert k. induction c as [|x c IH]; intros [|k]; simpl; auto.
Qed.

Lemma increment_beyond (c : list nat) (k : nat) :
  (List.length c <= k)%nat -> increment c k = c.
Proof.
  revert k. induction c as [|x c IH]; intros [|k]; simpl; intros H; auto; try lia.
  f_equal. apply IH. lia.
Qed.

Lemma nth_increment (c : list nat) (k j : nat) :
  (k < List.length c)%nat ->
  nth j (increment c k) 0%nat = (nth j c 0 + if (k =? j)%nat then 1 else 0)%nat.
Proof.
  revert k j. induction c as [|x c IH]; intros [|k] [|j]; simpl; intros H; try lia.
  rewrite IH by lia. reflexivity.
Qed.

Lemma list_sum_increment (c : list nat) (k : nat) :
  (k < List.length c)%nat -> list_sum (increment c k) = S (list_sum c).
Proof.
  revert k. induction c as [|x c IH]; intros [|k]; simpl; intros H; try lia.
  rewrite IH by lia. lia.
Qed.

Lemma cellOf_lt (bins : nat) (idx : float) (k : nat) :
  cellOf bins idx = Some k -> (k < bins)%nat.
Proof.
  unfold cellOf. destruct (float2Z idx) as [i|]; [|discriminate].
  destruct (Z.leb_spec 0 i), (Z.ltb_spec i (Z.of_nat bins)); simpl; try discriminate.
  intros [= <-]. lia.
Qed.

(** [bump] adds one to the cell the index selects and does nothing when
    it selects none. *)
Lemma bump_cellOf (c : list nat) (idx : float) :
  bump c idx =
  match cellOf (List.length c) idx with
  | Some k => increment c k
  | None => c
  end.
Proof.
  unfold bump, cellOf. destruct (float2Z idx) as [i|]; auto.
  destruct (Z.leb_spec 0 i); simpl; auto.
  destruct (Z.ltb_spec i (Z.of_nat (List.length c))); auto.
  apply increment_beyond. lia.
Qed.

Lemma bump_length (c : list nat) (idx : float) :
  List.length (bump c idx) = List.length c.
Proof.
  rewrite bump_cellOf. destruct (cellOf _ idx); auto using increment_length.
Qed.

Section Fold.
Variable index : float -> float.

Lemma fold_bump_length (values : list float) (c : list nat) :
  List.length (fold_left (fun counts v => bump counts (index v)) values c) = List.length c.
Proof.
  revert c. induction values as [|v values IH]; intros c; simpl; auto.
  now rewrite IH, bump_length.
Qed.

Lemma fold_bump_nth (values : list float) (c : list nat) (j : nat) :
  nth j (fold_left (fun counts v => bump counts (index v)) values c) 0%nat =
  (nth j c 0 + List.length (filter (countedIn (List.length c) index j) values))%nat.
Proof.
  revert c. induction values as [|v values IH]; intros c; simpl; [lia|].
  rewrite IH, bump_length, bump_cellOf. unfold countedIn at 2.
  destruct (cellOf (List.length c) (index v)) as [k|] eqn:E.
  - rewrite nth_increment by (eapply cellOf_lt; eauto).
    destruct (k =? j)%nat; simpl; lia.
  - lia.
Qed.

Lemma fold_bump_sum (values : list float) (c : list nat) :
  list_sum (fold_left (fun counts v => bump counts (index v)) values c) =
  (list_sum c + List.length (filter (counted (List.length c) index) values))%nat.
Proof.
  revert c. induction values as [|v values IH]; intros c; simpl; [lia|].
  rewrite IH, bump_length, bump_cellOf. unfold counted at 2.
  destruct (cellOf (List.length c) (index v)) as [k|] eqn:E.
  - rewrite list_sum_increment by (eapply cellOf_lt; eauto). simpl. lia.
  - lia.
Qed.

End Fold.

(** The index line 152 computes never lies beyond the array, so the
    write of line 153 never grows it. *)
Lemma binIndex_below_bins (min width : float) (bins : nat) (v : float) (i : Z) :
  (Z.of_nat bins < 2 ^ 53)%Z ->
  float2Z (binIndex min width bins v) = Some i -> (i < Z.of_nat bins)%Z.
Proof.
  intros Hb. unfold binIndex.
  set (B := Z2float (Z.of_nat bins - 1)). set (F := Math_floor ((v - min) / width)).
  destruct (Prim2SF_Z2float (Z.of_nat bins - 1)) as (VB & HoB & HzB & HfB); [lia|].
  fold B in VB, HoB, HzB, HfB.
  destruct (isNaN F) eqn:NF.
  - rewrite Math_min2_nan by (rewrite NF; apply orb_true_r). discriminate.
  - assert (NB : isNaN B = false).
    { rewrite isNaN_spec. destruct (Prim2SF B); auto; discriminate. }
    destruct (Math_min2_cases B F NB NF) as [[E H]|[E H]]; rewrite E; intros Hi.
    + rewrite HzB in Hi. injection Hi as <-. lia.
    + unfold float2Z in Hi. apply SF2Z_ordv in Hi; [|apply Prim2SF_valid].
      fold (ord F) in Hi. rewrite Hi, HoB in H.
      assert (0 < 2 ^ 1074)%Z by (apply pow2_pos; lia). nia.
Qed.

(** A finite value at or above the minimum is counted, when the width is
    finite and above zero. *)
Lemma binIndex_counted (min width : float) (bins : nat) (v : float) :
  (0 < bins)%nat -> (Z.of_nat bins < 2 ^ 53)%Z ->
  isFinite v = true -> isFinite min = true -> (min <=? v)%float = true ->
  isFinite width = true -> (0 <? width)%float = true ->
  counted bins (binIndex min width bins) v = true.
Proof.
  intros Hb0 Hb Fv Fm Hle Fw Hw. unfold counted, cellOf.
  pose proof (sub_nonneg v min Fv Fm Hle) as Hd.
  pose proof (div_nonneg (v - min) width Hd Fw Hw) as Hq.
  pose proof (Math_floor_nonneg _ Hq) as HF.
  pose proof (binIndex_below_bins min width bins v) as Hlt.
  unfold binIndex in *.
  set (B := Z2float (Z.of_nat bins - 1)) in *.
  set (F := Math_floor ((v - min) / width)) in *.
  destruct (Prim2SF_Z2float (Z.of_nat bins - 1)) as (VB & HoB & HzB & HfB); [lia|].
  fold B in VB, HoB, HzB, HfB.
  assert (NB : isNaN B = false).
  { rewrite isNaN_spec. destruct (Prim2SF B); auto; discriminate. }
  assert (NF : isNaN F = false).
  { rewrite isNaN_spec. destruct HF as [E|(f & _ & _ & E)].
    - now rewrite E.
    - destruct (Prim2SF F); auto; discriminate. }
  assert (H1074 : (0 < 2 ^ 1074)%Z) by (apply pow2_pos; lia).
  destruct (Math_min2_cases B F NB NF) as [[E H]|[E H]]; rewrite E in *.
  - rewrite HzB.
    rewrite (proj2 (Z.leb_le 0 _)), (proj2 (Z.ltb_lt _ _)) by lia. reflexivity.
  - destruct HF as [EF|(f & Hf & HzF & _)].
    + exfalso. unfold ord in H at 1. rewrite EF in H. simpl ordv in H.
      rewrite HoB in H.
      assert (2 ^ 53 * 2 ^ 1074 < 2 ^ 2100)%Z
        by (rewrite <- Z.pow_add_r by lia; apply Z.pow_lt_mono_r; lia).
      nia.
    + rewrite HzF. specialize (Hlt f Hb HzF).
      rewrite (proj2 (Z.leb_le 0 _)), (proj2 (Z.ltb_lt _ _)) by lia. reflexivity.
Qed.

Lemma mapi_count {rt : JsRuntime} (f : nat -> string) (c : list nat) (i : nat) :
  map count (mapi (fun x k => {| bin := f k; count := x |}) c i) = c.
Proof.
  revert i. induction c as [|x c IH]; intros i; simpl; auto. now rewrite IH.
Qed.

Lemma length_mapi_count {rt : JsRuntime} (f : nat -> string) (c : list nat) (i : nat) :
  List.length (mapi (fun x k => {| bin := f k; count := x |}) c i) = List.length c.
Proof.
  revert i. induction c as [|x c IH]; intros i; simpl; auto.
Qed.

Lemma list_sum_repeat_0 (n : nat) : list_sum (repeat 0%nat n) = 0%nat.
Proof. induction n; simpl; auto. Qed.

Lemma nth_repeat_0 (n j : nat) : nth j (repeat 0%nat n) 0%nat = 0%nat.
Proof. revert j. induction n; intros [|j]; simpl; auto. Qed.

(** C9, as amended: on the empty list the result is empty; on a list too
    long to be spread into one call the function throws; on any other list
    it returns as many bins as asked for (12 by default), the bin [j]
    counting the values whose index [min(bins - 1, floor((v - min) /
    width))] is [j]; and when the values are finite, the number of bins is
    above zero and the width, [(max - min) / bins] with a zero range
    replaced by 1, is finite and above zero, the counts add up to the
    number of values. *)
Theorem C9_histogram {rt : JsRuntime} {lim : JsLimits}
  (values : list float) (bins : option nat) :
  let n := match bins with Some b => b | None => 12%nat end in
  let min := Math_min values in
  let width := binWidth values n in
  buildHistogram [] bins = Ok [] /\
  ((maxArguments < List.length values)%nat ->
   buildHistogram values bins = Throw tooManyArguments) /\
  (values <> [] -> (List.length values <= maxArguments)%nat ->
   exists hist,
     buildHistogram values bins = Ok hist /\
     List.length hist = n /\
     (forall j, (j < n)%nat ->
        nth j (map count hist) 0%nat =
        List.length (filter (countedIn n (binIndex min width n) j) values)) /\
     ((0 < n)%nat -> (Z.of_nat n < 2 ^ 53)%Z ->
      Forall (fun v => isFinite v = true) values ->
      isFinite width = true -> (0 <? width)%float = true ->
      list_sum (map count hist) = List.length values)).
Proof.
  intros n min width. split; [reflexivity|]. split.
  - intros Hlong. unfold buildHistogram, spread.
    destruct values as [|v vs]; [simpl in Hlong; lia|].
    replace (List.length (v :: vs) <=? maxArguments)%nat with false
      by (symmetry; apply Nat.leb_gt; exact Hlong).
    reflexivity.
  - intros Hne Hfit.
    exists (mapi (fun c i => {| bin := binLabel min width i; count := c |})
                 (fold_left (fun counts v => bump counts (binIndex min width n v))
                            values (repeat 0%nat n)) 0).
    split.
    { unfold buildHistogram, spread. fold n. destruct values as [|v vs]; [congruence|].
      replace (List.length (v :: vs) <=? maxArguments)%nat with true
        by (symmetry; apply Nat.leb_le; exact Hfit).
      reflexivity. }
    rewrite mapi_count, length_mapi_count.
    split; [rewrite fold_bump_length; apply repeat_length|]. split.
    + intros j Hj. rewrite fold_bump_nth, nth_repeat_0, repeat_length. reflexivity.
    + intros Hn0 Hn Hfin Fw Hw.
      rewrite fold_bump_sum, list_sum_repeat_0, repeat_length. simpl.
      destruct (Math_min_finite values Hne Hfin) as [Fm Hmin].
      f_equal. apply forallb_filter_id. apply forallb_forall. intros v Hv.
      apply binIndex_counted; auto.
      * eapply Forall_forall in Hfin; eauto.
      * eapply Forall_forall in Hmin; eauto.
Qed.

End Histogram.

(** ** The histogram on sample inputs *)

Module HistogramRuns.
Import Overview.

(** C9 as stated fails: the empty list gives no bin at all, where the
    bin count is 12. *)
Lemma C9_counterexample :
  buildHistogram (rt := Reference.runtime) (lim := Reference.limits) [] None = Ok [] /\
  buildHistogram (rt := Reference.runtime) (lim := Reference.limits) [] (Some 12%nat) = Ok [].
Proof. split; reflexivity. Qed.

Lemma C9_histogram_witness :
  buildHistogram (rt := Reference.runtime) (lim := Reference.limits) [] None = Ok [] /\
  buildHistogram (rt := Reference.runtime) (lim := Reference.limits)
    (repeat 1%float (S (256 * 256))) None = Throw "RangeError: Maximum call stack size exceeded" /\
  exists hist,
    buildHistogram (rt := Reference.runtime) (lim := Reference.limits)
      [1; 2; 3; 12; 5.5; 7]%float None = Ok hist /\
    List.length hist = 12%nat /\
    map count hist = [1; 1; 1; 0; 1; 0; 1; 0; 0; 0; 0; 1]%nat /\
    list_sum (map count hist) = 6%nat.
Proof.
  destruct (Histogram.C9_histogram (rt := Reference.runtime) (lim := Reference.limits)
              [1; 2; 3; 12; 5.5; 7]%float None) as (Hnil & _ & Hrest).
  destruct (Histogram.C9_histogram (rt := Reference.runtime) (lim := Reference.limits)
              (repeat 1%float (S (256 * 256))) None) as (_ & Hlong & _).
  destruct (Hrest ltac:(discriminate) ltac:(apply Nat.leb_le; vm_compute; reflexivity))
    as (hist & Hhist & Hlen & _ & Hsum).
  split; [exact Hnil|]. split.
  { apply Hlong. apply Nat.ltb_lt. vm_compute. reflexivity. }
  exists hist. split; [exact Hhist|]. split; [exact Hlen|]. split.
  - pose proof Hhist as E. vm_compute in E. injection E as <-. reflexivity.
  - apply Hsum.
    + apply Nat.lt_0_succ.
    + reflexivity.
    + repeat constructor.
    + reflexivity.
    + reflexivity.
Defined.

(** Values all equal: the zero range is replaced by 1 and every value
    falls into the first bin. *)
Example equal_values :
  option_map (map count)
    (match buildHistogram (rt := Reference.runtime) (lim := Reference.limits)
             [3; 3; 3]%float None with Ok hist => Some hist | Throw _ => None end) =
  Some [3; 0; 0; 0; 0; 0; 0; 0; 0; 0; 0; 0]%nat.
Proof. reflexivity. Qed.

(** The conditions under which the counts add up are needed. With an
    infinite value, with a range that overflows and with a width that
    underflows to zero, the index of some value is [NaN], the write of line
    153 goes to a property beside the elements, and the value is in no
    bin: the counts add up to less than the number of values. *)
Example infinite_value :
  option_map (map count)
    (match buildHistogram (rt := Reference.runtime) (lim := Reference.limits)
             [1; 2; infinity]%float None with Ok hist => Some hist | Throw _ => None end) =
  Some [2; 0; 0; 0; 0; 0; 0; 0; 0; 0; 0; 0]%nat.
Proof. reflexivity. Qed.

Example overflowing_range :
  option_map (map count)
    (match buildHistogram (rt := Reference.runtime) (lim := Reference.limits)
             [1e308; -1e308]%float None with Ok hist => Some hist | Throw _ => None end) =
  Some [1; 0; 0; 0; 0; 0; 0; 0; 0; 0; 0; 0]%nat.
Proof. reflexivity. Qed.

Example vanishing_width :
  option_map (map count)
    (match buildHistogram (rt := Reference.runtime) (lim := Reference.limits)
             [0; 5e-324]%float None with Ok hist => Some hist | Throw _ => None end) =
  Some [0; 0; 0; 0; 0; 0; 0; 0; 0; 0; 0; 1]%nat.
Proof. reflexivity. Qed.

End HistogramRuns.

(** ** The quality score *)

Module QualityScore.
Import Overview FloatFacts.

Lemma columns_above_zero (n : nat) :
  (0 < n)%nat -> (Z.of_nat n < 2 ^ 53)%Z -> (nat2float n <=? 0)%float = false.
Proof.
  intros H0 Hn. unfold nat2float.
  destruct (Prim2SF_Z2float (Z.of_nat n)) as (_ & Ho & _ & Hf); [lia|].
  rewrite leb_ord.
  - rewrite Ho, ord_0. apply Z.leb_gt.
    assert (0 < 2 ^ 1074)%Z by (apply pow2_pos; lia). nia.
  - rewrite is_nan_spec. destruct (Prim2SF (Z2float (Z.of_nat n))); auto; discriminate.
  - reflexivity.
Qed.

Lemma above_zero_not_below (x : float) :
  (0 <? x)%float = true -> (x <=? 0)%float = false.
Proof.
  intros H. destruct (ltb_true_not_nan _ _ H) as [N0 Nx].
  rewrite ltb_ord in H by auto. rewrite leb_ord by auto.
  apply Z.ltb_lt in H. apply Z.leb_gt. exact H.
Qed.

(** C7, as amended: the score is 0 when the summary or the dataset is
    absent, when the dataset has no column and when [totalRows] is at most
    0; in every other case, a [totalRows] that is [NaN] included, it is, in
    double arithmetic and in this order of evaluation, [clamp(round(100 *
    (1 - (missingPenalty + duplicatePenalty))), 0, 100)], each penalty
    being 0 unless its denominator is above 0, replaced by 0 when that is
    not finite; so for a [totalRows] that is [NaN] it is 100. In every case
    it is an integer from 0 to 100. *)
Theorem C7_quality_score (summary : option Types.DataSummary) (dataset : option Dataset) :
  (exists k, (0 <= k <= 100)%Z /\ computeQualityScore summary dataset = Z2float k) /\
  (summary = None \/ dataset = None -> computeQualityScore summary dataset = 0%float) /\
  (forall s ds, summary = Some s -> dataset = Some ds ->
     (columns ds = [] \/ (Types.totalRows s <=? 0)%float = true ->
      computeQualityScore summary dataset = 0%float) /\
     (columns ds <> [] -> (Z.of_nat (List.length (columns ds)) < 2 ^ 53)%Z ->
      (Types.totalRows s <=? 0)%float = false ->
      computeQualityScore summary dataset =
        (let score := scoreOf (Types.missingValues s) (Types.duplicates s) (Types.totalRows s)
                              (List.length (columns ds)) in
         if isFinite score then score else 0%float) /\
      (isNaN (Types.totalRows s) = true ->
       computeQualityScore summary dataset = 100%float))).
Proof.
  split; [|split].
  - unfold computeQualityScore.
    destruct summary as [s|], dataset as [ds|]; try (exists 0%Z; split; [lia | reflexivity]).
    destruct (List.length (columns ds) =? 0)%nat; [exists 0%Z; split; [lia | reflexivity]|].
    destruct (_ || _); [exists 0%Z; split; [lia | reflexivity]|].
    apply clamped_round_range.
  - intros [-> | ->]; [reflexivity|]. destruct summary; reflexivity.
  - intros s ds -> ->. split.
    + intros [E|E]; unfold computeQualityScore.
      * rewrite E. reflexivity.
      * destruct (List.length (columns ds) =? 0)%nat; [reflexivity|].
        rewrite E. reflexivity.
    + intros Hne Hn Hrows.
      assert (E : computeQualityScore (Some s) (Some ds) =
                  (let score := scoreOf (Types.missingValues s) (Types.duplicates s)
                                        (Types.totalRows s) (List.length (columns ds)) in
                   if isFinite score then score else 0%float)).
      { unfold computeQualityScore.
        destruct (columns ds) as [|c cs] eqn:Ec; [congruence|].
        assert (Hl : (0 < List.length (c :: cs))%nat) by (simpl; lia).
        replace (List.length (c :: cs) =? 0)%nat with false
          by (symmetry; apply Nat.eqb_neq; lia).
        rewrite Hrows, (columns_above_zero _ Hl Hn). reflexivity. }
      split; [exact E|].
      intros Hnan. rewrite E. apply nan_unique in Hnan. rewrite Hnan.
      unfold scoreOf. rewrite mul_nan_l. reflexivity.
Qed.

End QualityScore.

(** ** The quality score on a sample summary *)

Module QualityScoreRuns.
Import Overview Inputs.

(** C7 as stated fails: for 2 missing cells and 1 duplicate in 4 rows of 5
    columns the code returns 78, and the formula of the specification gives
    79, evaluated on doubles as written as well as in exact arithmetic
    (100 * (1 - 0.09 - 0.125) = 78.5). *)
Lemma C7_counterexample :
  computeQualityScore (Some smallSummary) (Some fiveColumns) = 78%float /\
  specScore 2 1 4 5 = 79%float /\
  specScoreExact 2 1 4 5 = 79%Z.
Proof. repeat split; reflexivity. Qed.

Lemma C7_quality_score_witness :
  (exists k, (0 <= k <= 100)%Z /\
             computeQualityScore (Some smallSummary) (Some fiveColumns) = Z2float k) /\
  computeQualityScore None (Some fiveColumns) = 0%float /\
  computeQualityScore (Some emptySummary) (Some fiveColumns) = 0%float /\
  computeQualityScore (Some smallSummary) (Some fiveColumns) =
    (let score := scoreOf 2 1 4 5 in if isFinite score then score else 0%float) /\
  computeQualityScore (Some smallSummary) (Some fiveColumns) = 78%float /\
  computeQualityScore (Some uncounted) (Some fiveColumns) =
    (let score := scoreOf 2 1 nan 5 in if isFinite score then score else 0%float) /\
  computeQualityScore (Some uncounted) (Some fiveColumns) = 100%float.
Proof.
  destruct (QualityScore.C7_quality_score (Some smallSummary) (Some fiveColumns))
    as (Hrange & _ & Hsome).
  destruct (QualityScore.C7_quality_score None (Some fiveColumns)) as (_ & Hnone & _).
  destruct (QualityScore.C7_quality_score (Some emptySummary) (Some fiveColumns))
    as (_ & _ & Hempty).
  destruct (QualityScore.C7_quality_score (Some uncounted) (Some fiveColumns))
    as (_ & _ & Hnan).
  destruct (Hsome smallSummary fiveColumns eq_refl eq_refl) as (_ & Hformula).
  destruct (Hempty emptySummary fiveColumns eq_refl eq_refl) as (Hzero & _).
  destruct (Hnan uncounted fiveColumns eq_refl eq_refl) as (_ & Hformula').
  destruct (Hformula ltac:(discriminate) eq_refl eq_refl) as [Hf _].
  destruct (Hformula' ltac:(discriminate) eq_refl eq_refl) as [Hf' H100].
  split; [exact Hrange|]. split; [apply Hnone; now left|].
  split; [apply Hzero; now right|]. split; [exact Hf|]. split; [reflexivity|].
  split; [exact Hf'|]. exact (H100 eq_refl).
Defined.

(** A summary whose counts are not numbers scores 0. *)
Example nan_scores_zero :
  computeQualityScore
    (Some {| Types.totalRows := 4; Types.totalColumns := 5; Types.missingValues := nan;
             Types.duplicates := 1; Types.memoryUsage := "0 B" |})
    (Some fiveColumns) = 0%float.
Proof. reflexivity. Qed.

End QualityScoreRuns.

(** ** The correlation matrix *)

Module Correlation.
Import Overview FloatFacts.

Lemma combine_nil_r {A B : Type} (l : list A) : combine l (@nil B) = [].
Proof. destruct l; reflexivity. Qed.

Lemma fold_pearsonStep_swap (x y : list float) (mx my num dx dy : float) :
  fold_left (pearsonStep my mx) (combine y x) (num, dy, dx) =
  (let '(n, a, b) := fold_left (pearsonStep mx my) (combine x y) (num, dx, dy) in
   (n, b, a)).
Proof.
  revert y num dx dy. induction x as [|a x IH]; intros y num dx dy.
  - now rewrite combine_nil_r.
  - destruct y as [|b y]; [reflexivity|].
    simpl. rewrite (mul_comm (b - my) (a - mx)). apply IH.
Qed.

(** [pearson] does not depend on the order of its arguments. *)
Lemma pearson_sym (xs ys : list float) : pearson xs ys = pearson ys xs.
Proof.
  unfold pearson. rewrite (Nat.min_comm (List.length ys)).
  destruct (Nat.min (List.length xs) (List.length ys) =? 0)%nat; [reflexivity|].
  rewrite (fold_pearsonStep_swap (firstn _ xs) (firstn _ ys)).
  destruct (fold_left _ (combine (firstn _ xs) (firstn _ ys)) _) as [[num dx] dy].
  now rewrite (mul_comm dy dx).
Qed.

Lemma entry_sym (series : JsObject (list float)) (ni nj : string) :
  entry series ni nj = entry series nj ni.
Proof.
  unfold entry. rewrite (Nat.min_comm (List.length (lookup series nj))).
  destruct (_ =? 0)%nat; [reflexivity|]. apply pearson_sym.
Qed.

Section Matrix.
Variable f : string -> string -> float.
Variable names : list string.

Lemma matrix_row (i : nat) :
  (i < List.length names)%nat ->
  nth i (matrixOf f names) [] = map (fun nj => f (nth i names "") nj) names.
Proof.
  intros Hi. unfold matrixOf.
  rewrite (nth_indep _ [] (map (fun nj => f "" nj) names)) by (now rewrite length_map).
  apply (map_nth (fun ni => map (fun nj => f ni nj) names)).
Qed.

Lemma matrix_entry (i j : nat) :
  (i < List.length names)%nat -> (j < List.length names)%nat ->
  nth j (nth i (matrixOf f names) []) 0%float = f (nth i names "") (nth j names "").
Proof.
  intros Hi Hj. rewrite matrix_row by exact Hi.
  rewrite (nth_indep _ 0%float (f (nth i names "") "")) by (now rewrite length_map).
  apply (map_nth (fun nj => f (nth i names "") nj)).
Qed.

Lemma matrix_row_length (i : nat) :
  (i < List.length names)%nat ->
  List.length (nth i (matrixOf f names) []) = List.length names.
Proof.
  intros Hi. rewrite matrix_row by exact Hi. apply length_map.
Qed.

Lemma matrix_outside (i j : nat) :
  (List.length names <= i)%nat \/ (List.length names <= j)%nat ->
  nth j (nth i (matrixOf f names) []) 0%float = 0%float.
Proof.
  intros H. destruct (Nat.lt_ge_cases i (List.length names)) as [Hi|Hi].
  - apply nth_overflow. rewrite matrix_row_length by exact Hi. lia.
  - rewrite (nth_overflow (matrixOf f names))
      by (unfold matrixOf; now rewrite length_map).
    now destruct j.
Qed.

Lemma matrix_symmetric :
  (forall a b, f a b = f b a) ->
  forall i j,
    nth j (nth i (matrixOf f names) []) 0%float =
    nth i (nth j (matrixOf f names) []) 0%float.
Proof.
  intros Hf i j.
  destruct (Nat.lt_ge_cases i (List.length names)) as [Hi|Hi],
           (Nat.lt_ge_cases j (List.length names)) as [Hj|Hj].
  - rewrite !matrix_entry by assumption. apply Hf.
  - rewrite !matrix_outside by auto. reflexivity.
  - rewrite !matrix_outside by auto. reflexivity.
  - rewrite !matrix_outside by auto. reflexivity.
Qed.

End Matrix.

(** A series that does not deviate from its computed mean correlates to
    zero: the loop leaves [num] and [dx] at zero, the denominator is
    replaced by 1, and zero comes out. *)
Lemma fold_flat (mx my : float) (l : list (float * float)) (num dx dy : float) :
  Forall (fun xy => SFzero (Prim2SF (fst xy - mx)) = true /\
                    isFinite (snd xy - my) = true) l ->
  SFzero (Prim2SF num) = true -> SFzero (Prim2SF dx) = true ->
  SFzero (Prim2SF (fst (fst (fold_left (pearsonStep mx my) l (num, dx, dy))))) = true /\
  SFzero (Prim2SF (snd (fst (fold_left (pearsonStep mx my) l (num, dx, dy))))) = true.
Proof.
  revert num dx dy. induction l as [|[a b] l IH]; intros num dx dy Hl Hn Hd.
  - simpl. auto.
  - inversion Hl as [|? ? [Ha Hb] Hl']; subst. simpl in Ha, Hb. simpl.
    apply IH; auto.
    + apply add_zero_zero; auto. now apply mul_zero_finite.
    + apply add_zero_zero; auto. apply mul_zero_finite; auto. now apply zero_finite.
Qed.

Lemma pearson_flat (xs ys : list float) :
  List.length xs = List.length ys ->
  Forall (fun d => SFzero (Prim2SF d) = true) (deviations xs) ->
  Forall (fun d => isFinite d = true) (deviations ys) ->
  SFzero (Prim2SF (pearson xs ys)) = true.
Proof.
  intros Hlen Hx Hy. unfold pearson. rewrite <- Hlen, Nat.min_id.
  destruct (List.length xs =? 0)%nat; [reflexivity|].
  rewrite firstn_all. rewrite Hlen, firstn_all.
  destruct (fold_flat (mean xs) (mean ys) (combine xs ys) 0 0 0) as [Hn Hd];
    try reflexivity.
  { apply Forall_forall. intros [a b] Hin. simpl. split.
    - apply in_combine_l in Hin. unfold deviations in Hx.
      rewrite Forall_map in Hx. eapply Forall_forall in Hx; eauto.
    - apply in_combine_r in Hin. unfold deviations in Hy.
      rewrite Forall_map in Hy. eapply Forall_forall in Hy; eauto. }
  destruct (fold_left _ (combine xs ys) _) as [[num dx] dy]. simpl in Hn, Hd.
  unfold orElse. rewrite (sqrt_zero_mul_falsy dx dy Hd).
  now apply zero_div_one.
Qed.

Lemma buildSeries_get {rt : JsRuntime} (data : list Row) (names : list string)
  (s0 : JsObject (list float)) (n : string) :
  (forall k v, obj_get s0 k = Some v -> v = seriesOf data k) ->
  (forall k v,
     obj_get (fold_left (fun series name => obj_set series name (seriesOf data name))
                        names s0) k = Some v -> v = seriesOf data k) /\
  (In n names ->
   obj_get (fold_left (fun series name => obj_set series name (seriesOf data name))
                      names s0) n = Some (seriesOf data n)).
Proof.
  revert s0. induction names as [|m names IH]; intros s0 H0; simpl.
  - split; [exact H0 | tauto].
  - assert (H1 : forall k v, obj_get (obj_set s0 m (seriesOf data m)) k = Some v ->
                             v = seriesOf data k).
    { intros k v. destruct (string_dec k m) as [->|Hne].
      - rewrite ObjectFacts.obj_get_set_same. congruence.
      - rewrite ObjectFacts.obj_get_set_other by exact Hne. apply H0. }
    destruct (IH _ H1) as [Hall Hin]. split; [exact Hall|].
    intros [->|Hn]; [|auto].
    destruct (obj_get (fold_left _ names (obj_set s0 n (seriesOf data n))) n) as [v|] eqn:E.
    + now rewrite (Hall _ _ E).
    + exfalso. clear - E.
      assert (Hs : obj_get (obj_set s0 n (seriesOf data n)) n <> None)
        by (rewrite ObjectFacts.obj_get_set_same; discriminate).
      revert E Hs. generalize (obj_set s0 n (seriesOf data n)).
      induction names as [|m names IH]; simpl; intros s E Hs; [congruence|].
      apply (IH _ E). destruct (string_dec n m) as [->|Hne].
      * rewrite ObjectFacts.obj_get_set_same. discriminate.
      * now rewrite ObjectFacts.obj_get_set_other.
Qed.

Lemma lookup_buildSeries {rt : JsRuntime} (data : list Row) (names : list string) (n : string) :
  In n names -> lookup (buildSeries data names) n = seriesOf data n.
Proof.
  intros Hn. unfold lookup, buildSeries.
  destruct (buildSeries_get data names [] n) as [_ H]; [discriminate|].
  now rewrite (H Hn).
Qed.

(** C8, as amended: the matrix is symmetric, each entry being the same
    double as its mirror image ([NaN] included); the entry of two eligible
    columns is [pearson] of their series cut to the shorter length, and 0
    when that length is 0; it is a zero when the first series does not
    deviate from its computed mean and the deviations of the second are
    finite, the zero denominator being replaced by 1. No bound on the
    entries is part of the statement. *)
Theorem C8_correlation {rt : JsRuntime} (columns : list Column) (data : list Row) :
  let names := fst (buildCorrelation columns data) in
  let matrix := snd (buildCorrelation columns data) in
  let cut i j :=
    firstn (Nat.min (List.length (seriesOf data (nth i names "")))
                    (List.length (seriesOf data (nth j names ""))))
           (seriesOf data (nth i names "")) in
  (forall i j, nth j (nth i matrix []) 0%float = nth i (nth j matrix []) 0%float) /\
  (forall i j, (i < List.length names)%nat -> (j < List.length names)%nat ->
     nth j (nth i matrix []) 0%float =
       (if (List.length (cut i j) =? 0)%nat then 0%float
        else pearson (cut i j) (cut j i)) /\
     (Forall (fun d => SFzero (Prim2SF d) = true) (deviations (cut i j)) ->
      Forall (fun d => isFinite d = true) (deviations (cut j i)) ->
      SFzero (Prim2SF (nth j (nth i matrix []) 0%float)) = true)).
Proof.
  intros names matrix cut. unfold matrix, buildCorrelation. simpl snd.
  split.
  - apply matrix_symmetric, entry_sym.
  - intros i j Hi Hj.
    assert (Hlen : forall a b, List.length (cut a b) =
                   Nat.min (List.length (seriesOf data (nth a names "")))
                           (List.length (seriesOf data (nth b names "")))).
    { intros a b. unfold cut. rewrite length_firstn. lia. }
    assert (E : nth j (nth i (matrixOf (entry (buildSeries data names)) names) []) 0%float =
                if (List.length (cut i j) =? 0)%nat then 0%float
                else pearson (cut i j) (cut j i)).
    { rewrite matrix_entry by assumption. unfold entry.
      rewrite !lookup_buildSeries by (apply nth_In; assumption).
      rewrite Hlen. unfold cut.
      rewrite (Nat.min_comm (List.length (seriesOf data (nth j names "")))).
      reflexivity. }
    unfold names in E at 1 2. unfold buildCorrelation in E. simpl fst in E.
    fold names in E. split; [exact E|].
    intros Hx Hy. unfold names in *. unfold buildCorrelation in *. simpl fst in *.
    rewrite E. destruct (_ =? 0)%nat; [reflexivity|].
    apply pearson_flat; auto.
    rewrite !Hlen. apply Nat.min_comm.
Qed.

End Correlation.

(** ** The correlation matrix on sample data *)

Module CorrelationRuns.
Import Overview Inputs.

(** C8 as stated fails: a column whose squares overflow gets [NaN] on the
    diagonal, which lies in no interval, and a column constant at 0.1,
    whose computed mean is not 0.1, correlates to itself with 1, not 0. *)
Lemma C8_counterexample :
  buildCorrelation (rt := Reference.runtime) [column "a"; column "b"] wild =
    (["a"; "b"], [[nan; 0]; [0; 1]]%float) /\
  ((-1 <=? nan) && (nan <=? 1))%float = false.
Proof. split; reflexivity. Qed.

Lemma C8_correlation_witness :
  buildCorrelation (rt := Reference.runtime) [column "a"; column "b"] tame =
    (["a"; "b"], [[1; 0]; [0; 0]]%float) /\
  Forall (fun d => SFzero (Prim2SF d) = true) (deviations [3; 3; 3; 3; 3]%float) /\
  Forall (fun d => isFinite d = true) (deviations [1; 2; 3; 4; 5]%float) /\
  SFzero (Prim2SF (nth 0 (nth 1 [[1; 0]; [0; 0]]%float []) 0%float)) = true.
Proof.
  split; [reflexivity|].
  assert (Hx : Forall (fun d => SFzero (Prim2SF d) = true) (deviations [3; 3; 3; 3; 3]%float))
    by (repeat constructor).
  assert (Hy : Forall (fun d => isFinite d = true) (deviations [1; 2; 3; 4; 5]%float))
    by (repeat constructor).
  split; [exact Hx|]. split; [exact Hy|].
  destruct (Correlation.C8_correlation (rt := Reference.runtime) [column "a"; column "b"] tame)
    as (_ & H).
  destruct (H 1%nat 0%nat (Nat.lt_succ_diag_r 1) Nat.lt_0_2) as (_ & Hz).
  exact (Hz Hx Hy).
Defined.

End CorrelationRuns.

(** ** The summary computer *)

Module Summary.
Import DataContext ObjectFacts.

Section Scan.
Context {rt : JsRuntime}.
Variable columnNames : list string.

Lemma scanRow_spec (row : Row) (cols : list string) (missing : nat) (flag : bool) (rowData : Row) :
  scanRow row cols missing flag rowData =
  ((missing + List.length (filter (fun c => isMissing (get row c)) cols))%nat,
   flag && forallb (fun c => isMissing (get row c)) cols,
   fold_left (fun o c => obj_set o c (get row c)) cols rowData).
Proof.
  revert missing flag rowData. induction cols as [|c cols IH]; intros missing flag rowData; simpl.
  - now rewrite Nat.add_0_r, andb_true_r.
  - destruct (isMissing (get row c)); rewrite IH; simpl.
    + f_equal. f_equal. lia.
    + now rewrite andb_false_r.
Qed.

Lemma scan_spec (st : Scan) (row : Row) :
  scan columnNames st row =
  {| missing := (missing st + missingIn columnNames row)%nat;
     rowHashes := if allNull columnNames row then rowHashes st
                  else StrSet_add (rowHashes st) (JSON_stringify (rebuilt columnNames row));
     rowValues := if allNull columnNames row then rowValues st
                  else rowValues st ++ [rebuilt columnNames row] |}.
Proof.
  unfold scan. rewrite scanRow_spec. simpl andb.
  fold (allNull columnNames row) (rebuilt columnNames row) (missingIn columnNames row).
  destruct (allNull columnNames row); reflexivity.
Qed.

Lemma scanAll_hashes (rows : list Row) (st : Scan) :
  rowHashes (fold_left (scan columnNames) rows st) =
  fold_left StrSet_add
    (map (fun row => JSON_stringify (rebuilt columnNames row))
         (filter (fun row => negb (allNull columnNames row)) rows))
    (rowHashes st).
Proof.
  revert st. induction rows as [|row rows IH]; intros st; simpl; auto.
  rewrite IH, scan_spec. simpl.
  destruct (allNull columnNames row); reflexivity.
Qed.

Lemma scanAll_values (rows : list Row) (st : Scan) :
  rowValues (fold_left (scan columnNames) rows st) =
  rowValues st ++ map (rebuilt columnNames)
                      (filter (fun row => negb (allNull columnNames row)) rows).
Proof.
  revert st. induction rows as [|row rows IH]; intros st; simpl.
  - now rewrite app_nil_r.
  - rewrite IH, scan_spec. simpl.
    destruct (allNull columnNames row); simpl; auto.
    now rewrite <- app_assoc.
Qed.

End Scan.

(** C1, as the code has it: the duplicate count of a dataset with rows is
    the number of all its rows, the rows of nulls included, less the number
    of distinct canonical serializations of the rows that are not all
    null. The comment of line 57 and the specification subtract from the
    number of rows that are not all null ([specDuplicates]). *)
Theorem C1_duplicates_reported {rt : JsRuntime} (cols : list ColumnInfo) (rows : list Row) :
  rows <> [] ->
  option_map Types.duplicates
    (calculateMetricsFromData (Some {| columns := Some cols; data := Some rows |})) =
  Some (nat2float (List.length rows) -
        nat2float (List.length (serializations (map name cols) rows)))%float.
Proof.
  intros Hne. unfold calculateMetricsFromData. simpl.
  destruct rows as [|r rows]; [congruence|].
  simpl Nat.eqb. cbv iota. simpl option_map. unfold scanAll.
  rewrite scanAll_hashes. reflexivity.
Qed.

End Summary.

(** ** The summary of two identical rows and a row of nulls *)

Module SummaryRuns.
Import DataContext Inputs.

(** Two identical rows and one row of nulls: the summary reports 2
    duplicates, where the count over the rows that are not all null is 1. *)
Lemma C1_counterexample :
  option_map Types.duplicates
    (calculateMetricsFromData (rt := Reference.runtime) (Some twoAndNull)) = Some 2%float /\
  specDuplicates (rt := Reference.runtime) ["id"; "name"]
    [ person (VNum 1) (VStr "x"); person (VNum 1) (VStr "x"); person VNull VNull ] = 1%float /\
  option_map Types.missingValues
    (calculateMetricsFromData (rt := Reference.runtime) (Some twoAndNull)) = Some 2%float.
Proof. repeat split; reflexivity. Qed.

Lemma C1_duplicates_reported_witness :
  [ person (VNum 1) (VStr "x"); person (VNum 1) (VStr "x"); person VNull VNull ] <> [] /\
  option_map Types.duplicates
    (calculateMetricsFromData (rt := Reference.runtime) (Some twoAndNull)) = Some (3 - 1)%float.
Proof.
  split; [discriminate|].
  apply (Summary.C1_duplicates_reported (rt := Reference.runtime)
           [ {| name := "id" |}; {| name := "name" |} ]
           [ person (VNum 1) (VStr "x"); person (VNum 1) (VStr "x"); person VNull VNull ]).
  discriminate.
Defined.

Example serialization_of_a_row :
  JSON_stringify (rt := Reference.runtime) (rebuilt ["id"; "name"] (person (VNum 1) (VStr "x"))) =
  ("{" ++ chr 34 ++ "id" ++ chr 34 ++ ":1," ++ chr 34 ++ "name" ++ chr 34 ++ ":"
       ++ chr 34 ++ "x" ++ chr 34 ++ "}")%string.
Proof. reflexivity. Qed.

Example empty_dataset :
  calculateMetricsFromData (rt := Reference.runtime)
    (Some {| columns := Some [ {| name := "id" |} ]; data := Some [] |}) =
  Some {| Types.totalRows := 0; Types.totalColumns := 1; Types.missingValues := 0;
          Types.duplicates := 0; Types.memoryUsage := "0 B" |}.
Proof. reflexivity. Qed.

End SummaryRuns.

(** ** The quick-chart columns *)

Module QuickColumns.
Import Overview.

(** C10: a first column that is typed numeric, has a name and shows
    between 2 and 20 distinct non-empty values in the sample is picked
    both as the numeric and as the categorical column. *)
Theorem C10_same_column_twice {rt : JsRuntime}
  (col : Column) (rest : list Column) (data : list Row) :
  typedNumeric col = true ->
  name col <> "" ->
  (1 < uniqueCount (map (fun r => get r (name col)) (firstn 50 data)) <= 20)%nat ->
  pickQuickColumns (col :: rest) data = (Some (name col), Some (name col)).
Proof.
  intros Ht Hn [Hlo Hhi].
  apply Nat.ltb_lt in Hlo. apply Nat.leb_le in Hhi. apply String.eqb_neq in Hn.
  unfold pickQuickColumns. cbn [pickLoop]. unfold pickStep. cbn [chosen negb].
  rewrite Ht. cbv zeta. rewrite Hlo, Hhi. cbn [andb chosen].
  rewrite Hn. reflexivity.
Qed.

End QuickColumns.

Module QuickColumnsRuns.
Import Overview Inputs.

Lemma C10_same_column_twice_witness :
  typedNumeric (rt := Reference.runtime)
    {| name := "n"; type := Some "Numeric" |} = true /\
  "n" <> "" /\
  (1 < uniqueCount (map (fun r => get r "n") (firstn 50 twoValues)) <= 20)%nat /\
  pickQuickColumns (rt := Reference.runtime) typed twoValues = (Some "n", Some "n").
Proof.
  split; [reflexivity|]. split; [discriminate|].
  split; [split; [apply Nat.lt_succ_diag_r | repeat constructor]|].
  apply (QuickColumns.C10_same_column_twice (rt := Reference.runtime)
           {| name := "n"; type := Some "Numeric" |} [] twoValues).
  - reflexivity.
  - discriminate.
  - split; [apply Nat.lt_succ_diag_r | repeat constructor].
Defined.

(** Without a declared type the same happens once five sampled values are
    numeric. *)
Example untyped_column_twice :
  pickQuickColumns (rt := Reference.runtime)
    [ {| name := "n"; type := None |} ]
    [ [("n", VNum 1)]; [("n", VNum 2)]; [("n", VNum 3)]; [("n", VNum 4)]; [("n", VNum 5)] ] =
  (Some "n", Some "n").
Proof. reflexivity. Qed.

End QuickColumnsRuns.

(** ** The worker: the other orders, totals and failures *)

Module WorkerOrder.
Import ObjectFacts OrderFacts GroupingFacts Worker WorkerSpec.

(** X1: with the sort by value, ascending, and no group value [NaN], the
    values of the result are non-decreasing, and points of equal value keep
    the order the points had before the sort. *)
Theorem ascending_by_value {rt : JsRuntime}
  (rows : list Row) (config : option Config) (result pts : list Point) :
  fieldOr config sortKey "y" = "y" ->
  fieldOr config sortDirection "desc" = "asc" ->
  points rows config = Ok pts ->
  aggregate rows config = Ok result ->
  Forall (fun p => isNaN (value p) = false) pts ->
  StronglySorted (fun p q => (value p <=? value q)%float = true) result /\
  forall p q, before p q result -> (value p =? value q)%float = true -> before p q pts.
Proof.
  intros Hkey Hdir Hpts H Hnan.
  destruct (aggregate_spec _ _ _ H) as (all & Hall & ->).
  destruct (sorted_spec _ _ _ Hall) as (pts' & Hpts' & ->).
  assert (pts' = pts) by congruence. subst pts'.
  assert (Hnd : NoDup pts).
  { apply (NoDup_map_inv name). eapply NoDup_names; eauto. }
  rewrite Hkey, Hdir. split.
  - apply StronglySorted_firstn.
    exact (sort_in_active_order "y" "asc" pts Hnan).
  - intros p q Hb Hv. apply before_firstn in Hb.
    eapply Array_sort_keeps_ties; eauto.
    unfold comparator. simpl.
    rewrite FloatFacts.sub_pos. exact (proj1 (FloatFacts.eqb_not_ltb _ _ Hv)).
Qed.

(** X2: with any sort key other than [y] the points are ordered by name: when
    [localeCompare] never puts each of two strings after the other, no
    point is followed by one that [localeCompare] puts before it (after it,
    for a direction other than [asc]); when the order is transitive as
    well, this holds between any two points of the result. *)
Theorem ordered_by_name {rt : JsRuntime}
  (rows : list Row) (config : option Config) (result : list Point) :
  (forall a b, (0 <? localeCompare a b)%float = true ->
               (0 <? localeCompare b a)%float = false) ->
  String.eqb (fieldOr config sortKey "y") "y" = false ->
  aggregate rows config = Ok result ->
  let follows p q :=
    if String.eqb (fieldOr config sortDirection "desc") "asc"
    then (0 <? localeCompare (name p) (name q))%float = false
    else (0 <? localeCompare (name q) (name p))%float = false in
  Sorted follows result /\
  ((forall a b c, (0 <? localeCompare a b)%float = false ->
                  (0 <? localeCompare b c)%float = false ->
                  (0 <? localeCompare a c)%float = false) ->
   StronglySorted follows result).
Proof.
  intros Hasym Hkey H follows.
  destruct (aggregate_spec _ _ _ H) as (all & Hall & ->).
  destruct (sorted_spec _ _ _ Hall) as (pts & Hpts & ->).
  unfold comparator. rewrite Hkey.
  assert (Hs : Sorted follows
                 (Array_sort (fun a b =>
                    if String.eqb (fieldOr config sortDirection "desc") "asc"
                    then localeCompare (name a) (name b)
                    else localeCompare (name b) (name a)) pts)).
  { unfold follows. destruct (String.eqb (fieldOr config sortDirection "desc") "asc").
    - apply (Array_sort_sorted (fun a b => localeCompare (name a) (name b))).
      intros a b. apply Hasym.
    - apply (Array_sort_sorted (fun a b => localeCompare (name b) (name a))).
      intros a b. apply Hasym. }
  split; [now apply Sorted_firstn|].
  intros Htrans. apply Sorted_StronglySorted; [|now apply Sorted_firstn].
  unfold follows. intros a b c.
  destruct (String.eqb (fieldOr config sortDirection "desc") "asc"); intros Hab Hbc.
  - eapply Htrans; eauto.
  - eapply Htrans; eauto.
Qed.

End WorkerOrder.

Module WorkerTotals.
Import ObjectFacts OrderFacts GroupingFacts Worker WorkerSpec.

Lemma list_sum_perm (l l' : list nat) : Permutation l l' -> list_sum l = list_sum l'.
Proof. induction 1; simpl; lia. Qed.

Lemma list_sum_firstn (n : nat) (l : list nat) : (list_sum (firstn n l) <= list_sum l)%nat.
Proof.
  revert n. induction l as [|x l IH]; intros [|n]; simpl; try lia.
  specialize (IH n). lia.
Qed.

Lemma members_length_cons (k : string) (e : string * float) (es : list (string * float)) :
  List.length (members k (e :: es)) =
  ((if String.eqb (fst e) k then 1 else 0) + List.length (members k es))%nat.
Proof. unfold members. simpl. destruct (String.eqb (fst e) k); reflexivity. Qed.

Lemma one_key (x : string) (l : list string) :
  NoDup l -> In x l ->
  list_sum (map (fun k => if String.eqb x k then 1 else 0)%nat l) = 1%nat.
Proof.
  induction 1 as [|k l Hk Hnd IH]; simpl; [tauto|].
  intros [->|Hin].
  - rewrite String.eqb_refl. f_equal.
    clear IH Hnd. induction l as [|k' l IH]; simpl; auto.
    destruct (String.eqb x k') eqn:E.
    + apply String.eqb_eq in E. subst. exfalso. apply Hk. now left.
    + apply IH. intros Hx. apply Hk. now right.
  - destruct (String.eqb x k) eqn:E.
    + apply String.eqb_eq in E. subst. contradiction.
    + now apply IH.
Qed.

Lemma list_sum_map_add (A : Type) (f g : A -> nat) (l : list A) :
  list_sum (map (fun x => f x + g x)%nat l) = (list_sum (map f l) + list_sum (map g l))%nat.
Proof. induction l; simpl; lia. Qed.

(** Every entry is filed under exactly one of the keys. *)
Lemma members_partition (es : list (string * float)) (l : list string) :
  NoDup l -> incl (map fst es) l ->
  list_sum (map (fun k => List.length (members k es)) l) = List.length es.
Proof.
  intros Hnd. induction es as [|e es IH]; intros Hincl.
  - clear. induction l; simpl; auto.
  - rewrite (map_ext _ _ (fun k => members_length_cons k e es)).
    rewrite (list_sum_map_add _ (fun k => if String.eqb (fst e) k then 1 else 0)%nat).
    rewrite one_key; auto.
    + simpl. f_equal. apply IH. intros x Hx. apply Hincl. now right.
    + apply Hincl. now left.
Qed.

(** X3: the sizes of the points add up to the number of rows as long as no
    point is cut off, that is with at most 1000 distinct group keys; they
    never add up to more. *)
Theorem sizes_add_up {rt : JsRuntime}
  (rows : list Row) (config : option Config) (result : list Point) :
  aggregate rows config = Ok result ->
  exists keys,
    mapM (keyOf (propertyKey (field config xAxis))) rows = Ok keys /\
    (list_sum (map size result) <= List.length rows)%nat /\
    ((List.length (distinct keys) <= 1000)%nat ->
     list_sum (map size result) = List.length rows).
Proof.
  intros H.
  destruct (aggregate_spec _ _ _ H) as (all & Hall & ->).
  destruct (sorted_spec _ _ _ Hall) as (pts & Hpts & ->).
  destruct (points_spec _ _ _ Hpts) as (es & groups & Hes & [Hkeys Hok] & _ & ->).
  set (cmp := comparator _ _).
  assert (Hlen : List.length es = List.length rows).
  { clear - Hes. revert es Hes. induction rows as [|r rows IH]; simpl; intros es H.
    - now injection H as <-.
    - destruct (entryOf _ _ r); simpl in H; [|discriminate].
      destruct (mapM _ rows) as [es'|]; simpl in H; [|discriminate].
      injection H as <-. simpl. f_equal. now apply IH. }
  assert (Hnd : NoDup (map fst groups)) by (rewrite Hkeys; apply distinct_NoDup).
  assert (Hall' : list_sum (map size (map (pointOf (fieldOr config aggregation "sum"))
                                         (Object_entries groups))) = List.length rows).
  { rewrite <- Hlen, map_map. simpl.
    rewrite (list_sum_perm _ (map (fun kg => g_count (snd kg)) groups))
      by (apply Permutation_map, Object_entries_perm).
    rewrite <- (members_partition es (map fst groups) Hnd).
    - rewrite map_map. f_equal. apply map_ext_in. intros [k g] Hin. simpl.
      apply In_obj_get in Hin; auto. now destruct (Hok _ _ Hin) as (_ & Hc & _).
    - rewrite Hkeys. intros x Hx. now apply distinct_In. }
  exists (map fst es). split; [eapply keys_of_entries; eauto|]. split.
  - rewrite <- Hall', <- firstn_map.
    etransitivity; [apply list_sum_firstn|].
    apply Nat.eq_le_incl, list_sum_perm, Permutation_map, Array_sort_perm.
  - intros Hfew. rewrite firstn_all2.
    + rewrite <- Hall'. apply list_sum_perm, Permutation_map, Array_sort_perm.
    + rewrite Array_sort_length, length_map.
      rewrite (Permutation_length (Object_entries_perm groups)).
      rewrite <- (length_map fst), Hkeys. exact Hfew.
Qed.

End WorkerTotals.

Module WorkerFailure.
Import ObjectFacts OrderFacts GroupingFacts Worker WorkerSpec WorkerTerms.

Section Failure.
Context {rt : JsRuntime}.
Variables xk yk : string.

Lemma entryOf_rowError (row : Row) :
  match rowError xk yk row with
  | Some err => entryOf xk yk row = Throw err
  | None => exists e, entryOf xk yk row = Ok e
  end.
Proof.
  unfold rowError, entryOf, amountOf, keyOf, coalesce.
  destruct (cell row yk) as [v| |err]; simpl; auto;
    destruct (cell row xk) as [[]| |err']; simpl; eauto.
Qed.

Lemma mapM_firstError (rows : list Row) :
  match firstError xk yk rows with
  | Some err => mapM (entryOf xk yk) rows = Throw err
  | None => exists es, mapM (entryOf xk yk) rows = Ok es
  end.
Proof.
  induction rows as [|row rows IH]; simpl; eauto.
  pose proof (entryOf_rowError row) as Hr.
  destruct (rowError xk yk row) as [err|].
  - now rewrite Hr.
  - destruct Hr as (e & ->). simpl.
    destruct (firstError xk yk rows) as [err|].
    + now rewrite IH.
    + destruct IH as (es & ->). simpl. eauto.
Qed.

End Failure.

(** X4: the one response of the handler is the success exactly when the
    payload carries an array and no row has, in the value column or in the
    key column, a cell whose conversion throws; otherwise it is the error
    made of what the first such row throws, its value cell before its key
    cell. Text that is no number, missing cells and missing rows make no
    failure. *)
Theorem response_by_first_failure {rt : JsRuntime} (event : Message) :
  exists r,
    onmessage event = ([r], Ok tt) /\
    match data event with
    | None => r = Error "No data array provided"
    | Some rows =>
        match firstError (propertyKey (field (config event) xAxis))
                         (propertyKey (field (config event) yAxis)) rows with
        | Some err => r = Error err
        | None => exists result,
            r = Success result /\ aggregate rows (config event) = Ok result
        end
    end.
Proof.
  unfold onmessage. destruct (data event) as [rows|]; simpl; [|eauto].
  pose proof (mapM_firstError (propertyKey (field (config event) xAxis))
                              (propertyKey (field (config event) yAxis)) rows) as Hf.
  destruct (firstError _ _ rows) as [err|].
  - rewrite (aggregate_throw _ _ _ Hf). simpl. eauto.
  - destruct Hf as (es & Hes). destruct (aggregate_total _ _ _ Hes) as (result & ->).
    simpl. eauto.
Qed.

End WorkerFailure.

Module WorkerMoreRuns.
Import Worker Inputs MoreInputs ReferenceFacts.

(** The sort moves the group of greatest value to the end and leaves the
    three groups of equal value in the order they had. *)
Lemma ascending_by_value_witness :
  fieldOr (Some byValueAsc) sortKey "y" = "y" /\
  fieldOr (Some byValueAsc) sortDirection "desc" = "asc" /\
  points (rt := Reference.runtime) tiedLate (Some byValueAsc) =
    Ok [ {| name := "9"; value := 5; size := 1 |}; {| name := "10"; value := 5; size := 1 |};
         {| name := "a"; value := 7; size := 1 |}; {| name := "b"; value := 5; size := 1 |} ] /\
  aggregate (rt := Reference.runtime) tiedLate (Some byValueAsc) =
    Ok [ {| name := "9"; value := 5; size := 1 |}; {| name := "10"; value := 5; size := 1 |};
         {| name := "b"; value := 5; size := 1 |}; {| name := "a"; value := 7; size := 1 |} ] /\
  Forall (fun p => isNaN (value p) = false)
    [ {| name := "9"; value := 5; size := 1 |}; {| name := "10"; value := 5; size := 1 |};
      {| name := "a"; value := 7; size := 1 |}; {| name := "b"; value := 5; size := 1 |} ] /\
  StronglySorted (fun p q => (value p <=? value q)%float = true)
    [ {| name := "9"; value := 5; size := 1 |}; {| name := "10"; value := 5; size := 1 |};
      {| name := "b"; value := 5; size := 1 |}; {| name := "a"; value := 7; size := 1 |} ] /\
  (forall p q,
     before p q [ {| name := "9"; value := 5; size := 1 |};
                  {| name := "10"; value := 5; size := 1 |};
                  {| name := "b"; value := 5; size := 1 |};
                  {| name := "a"; value := 7; size := 1 |} ] ->
     (value p =? value q)%float = true ->
     before p q [ {| name := "9"; value := 5; size := 1 |};
                  {| name := "10"; value := 5; size := 1 |};
                  {| name := "a"; value := 7; size := 1 |};
                  {| name := "b"; value := 5; size := 1 |} ]).
Proof.
  assert (Hnn : Forall (fun p => isNaN (value p) = false)
                  [ {| name := "9"; value := 5; size := 1 |};
                    {| name := "10"; value := 5; size := 1 |};
                    {| name := "a"; value := 7; size := 1 |};
                    {| name := "b"; value := 5; size := 1 |} ])
    by (repeat constructor).
  split; [reflexivity|]. split; [reflexivity|]. split; [reflexivity|].
  split; [reflexivity|]. split; [exact Hnn|].
  exact (WorkerOrder.ascending_by_value (rt := Reference.runtime)
           tiedLate (Some byValueAsc) _ _ eq_refl eq_refl eq_refl eq_refl Hnn).
Defined.

Lemma ordered_by_name_witness :
  aggregate (rt := Reference.runtime) regions (Some (byName "desc")) =
    Ok [ {| name := "B"; value := 5; size := 1 |}; {| name := "A"; value := 30; size := 2 |} ] /\
  StronglySorted
    (fun p q => (0 <? Reference.compareBytes (name q) (name p))%float = false)
    [ {| name := "B"; value := 5; size := 1 |}; {| name := "A"; value := 30; size := 2 |} ].
Proof.
  split; [reflexivity|].
  exact (proj2 (WorkerOrder.ordered_by_name (rt := Reference.runtime)
                  regions (Some (byName "desc")) _ compareBytes_asym eq_refl eq_refl)
               compareBytes_trans).
Defined.

Lemma sizes_add_up_witness :
  aggregate (rt := Reference.runtime) regions (Some byValueAsc) =
    Ok [ {| name := "B"; value := 5; size := 1 |}; {| name := "A"; value := 30; size := 2 |} ] /\
  exists keys,
    mapM (keyOf (rt := Reference.runtime) "region") regions = Ok keys /\
    (list_sum (map size [ {| name := "B"; value := 5; size := 1 |};
                          {| name := "A"; value := 30; size := 2 |} ]) <= 3)%nat /\
    ((List.length (distinct keys) <= 1000)%nat ->
     list_sum (map size [ {| name := "B"; value := 5; size := 1 |};
                          {| name := "A"; value := 30; size := 2 |} ]) = 3%nat).
Proof.
  split; [reflexivity|].
  exact (WorkerTotals.sizes_add_up (rt := Reference.runtime)
           regions (Some byValueAsc) _ eq_refl).
Defined.

(** The value cell of a row is converted before its key cell. *)
Example value_cell_first :
  onmessage (rt := Reference.runtime)
    {| data := Some [ Inputs.row (VStr "A") (VStr "n/a");
                      Some [("region", Throwing "key"); ("sales", Throwing "value")] ];
       config := Some byValueAsc |} =
  ([ Error "value" ], Ok tt).
Proof. reflexivity. Qed.

End WorkerMoreRuns.

(** ** The summary computer: bounds and what it reads *)

Module SummaryBounds.
Import DataContext ObjectFacts FloatFacts Summary.

Section Scan.
Context {rt : JsRuntime}.
Variable columnNames : list string.

Lemma scanAll_missing (rows : list Row) (st : Scan) :
  missing (fold_left (scan columnNames) rows st) =
  (missing st + list_sum (map (missingIn columnNames) rows))%nat.
Proof.
  revert st. induction rows as [|row rows IH]; intros st; simpl; [lia|].
  rewrite IH, scan_spec. simpl. lia.
Qed.

Lemma missingIn_le (row : Row) : (missingIn columnNames row <= List.length columnNames)%nat.
Proof. apply filter_length_le. Qed.

Lemma missing_total_le (rows : list Row) :
  (list_sum (map (missingIn columnNames) rows) <= List.length rows * List.length columnNames)%nat.
Proof.
  induction rows as [|row rows IH]; simpl; [lia|].
  pose proof (missingIn_le row). lia.
Qed.

Lemma serializations_le (rows : list Row) :
  (List.length (serializations columnNames rows) <= List.length rows)%nat.
Proof.
  unfold serializations.
  etransitivity; [apply distinct_length|].
  rewrite length_map. apply filter_length_le.
Qed.

(** The rebuilt row, the missing count and the all-null flag read the row
    through the listed columns only. *)
Lemma rebuilt_ext (r r' : Row) :
  (forall c, In c columnNames -> get r c = get r' c) ->
  rebuilt columnNames r = rebuilt columnNames r' /\
  allNull columnNames r = allNull columnNames r' /\
  missingIn columnNames r = missingIn columnNames r'.
Proof.
  intros H. unfold rebuilt, allNull, missingIn. split; [|split].
  - generalize (@nil (string * JsValue)). revert H.
    induction columnNames as [|c cs IH]; intros H acc; simpl; auto.
    rewrite (H c) by now left. apply IH. intros c' Hc'. apply H. now right.
  - revert H. induction columnNames as [|c cs IH]; intros H; simpl; auto.
    rewrite (H c) by now left. f_equal. apply IH. intros c' Hc'. apply H. now right.
  - f_equal. apply filter_ext_in. intros c Hc. now rewrite H.
Qed.

End Scan.

Lemma nat2float_finite (n : nat) :
  (Z.of_nat n < 2 ^ 53)%Z ->
  isFinite (nat2float n) = true /\ ord (nat2float n) = (Z.of_nat n * 2 ^ 1074)%Z.
Proof.
  intros H. unfold nat2float.
  destruct (Prim2SF_Z2float (Z.of_nat n)) as (_ & Ho & _ & Hf); [lia|].
  rewrite isFinite_spec. auto.
Qed.

Lemma nat2float_le (a b : nat) :
  (a <= b)%nat -> (Z.of_nat b < 2 ^ 53)%Z -> (nat2float a <=? nat2float b)%float = true.
Proof.
  intros Hab Hb.
  destruct (nat2float_finite a) as [Fa Oa]; [lia|].
  destruct (nat2float_finite b) as [Fb Ob]; [lia|].
  rewrite leb_ord by (apply finite_not_nan; assumption).
  rewrite Oa, Ob. apply Z.leb_le.
  assert (0 < 2 ^ 1074)%Z by (apply pow2_pos; lia). nia.
Qed.

(** The summary, field by field. *)
Lemma summary_fields {rt : JsRuntime} (cols : list ColumnInfo) (rows : list Row) :
  exists s,
    calculateMetricsFromData (Some {| columns := Some cols; data := Some rows |}) = Some s /\
    Types.totalRows s = nat2float (List.length rows) /\
    Types.totalColumns s = nat2float (List.length cols) /\
    Types.missingValues s = nat2float (list_sum (map (missingIn (map name cols)) rows)) /\
    Types.duplicates s =
      (nat2float (List.length rows) -
       nat2float (List.length (serializations (map name cols) rows)))%float.
Proof.
  unfold calculateMetricsFromData. simpl.
  destruct rows as [|r rows].
  - simpl. eexists. repeat split; reflexivity.
  - simpl Nat.eqb. cbv iota.
    eexists. split; [reflexivity|]. simpl Types.totalRows. simpl Types.totalColumns.
    simpl Types.missingValues. simpl Types.duplicates.
    unfold scanAll. rewrite scanAll_hashes, scanAll_missing. simpl missing. simpl rowHashes.
    repeat split; reflexivity.
Qed.

(** X5: for a dataset whose rows are objects and none of whose columns is
    named like a property of [Object.prototype], a summary that is
    returned holds: the row and column counts; as [missingValues] the
    number of missing cells under the listed columns, which is at most the
    number of cells; as [duplicates] the number of rows less a number of
    serializations that is at most the number of rows, so never a number
    below zero. *)
Theorem summary_bounds {rt : JsRuntime}
  (cols : list ColumnInfo) (rows : list Row) (s : Types.DataSummary) :
  Forall (fun c => plainName (name c) = true) cols ->
  calculateMetricsFromData (Some {| columns := Some cols; data := Some rows |}) = Some s ->
  exists m u,
    Types.totalRows s = nat2float (List.length rows) /\
    Types.totalColumns s = nat2float (List.length cols) /\
    Types.missingValues s = nat2float m /\
    m = list_sum (map (missingIn (map name cols)) rows) /\
    (m <= List.length rows * List.length cols)%nat /\
    Types.duplicates s = (nat2float (List.length rows) - nat2float u)%float /\
    u = List.length (serializations (map name cols) rows) /\
    (u <= List.length rows)%nat /\
    ((Z.of_nat (List.length rows) < 2 ^ 53)%Z ->
     SFnonneg (Prim2SF (Types.duplicates s)) = true).
Proof.
  intros _ Hret.
  pose proof (missing_total_le (map name cols) rows) as Hm. rewrite length_map in Hm.
  pose proof (serializations_le (map name cols) rows) as Hu.
  destruct (summary_fields cols rows) as (s' & Hs & Hr & Hc & Hmv & Hd).
  assert (s' = s) by congruence. subst s'.
  exists (list_sum (map (missingIn (map name cols)) rows)),
         (List.length (serializations (map name cols) rows)).
  split; [exact Hr|]. split; [exact Hc|]. split; [exact Hmv|].
  split; [reflexivity|]. split; [exact Hm|]. split; [exact Hd|].
  split; [reflexivity|]. split; [exact Hu|].
  intros Hsmall. rewrite Hd. apply sub_nonneg.
  - now apply nat2float_finite.
  - apply nat2float_finite. lia.
  - now apply nat2float_le.
Qed.

(** X6: the counts read a row through the listed columns only: properties
    outside the columns and the order of a row's keys change neither the
    number of missing values nor the number of duplicates. *)
Theorem summary_reads_columns_only {rt : JsRuntime}
  (cols : list ColumnInfo) (rows rows' : list Row) :
  Forall2 (fun r r' => forall c, In c (map name cols) -> get r c = get r' c) rows rows' ->
  let summary rows := calculateMetricsFromData (Some {| columns := Some cols; data := Some rows |}) in
  option_map Types.missingValues (summary rows) = option_map Types.missingValues (summary rows') /\
  option_map Types.duplicates (summary rows) = option_map Types.duplicates (summary rows') /\
  option_map Types.totalRows (summary rows) = option_map Types.totalRows (summary rows').
Proof.
  intros H summary.
  assert (Hlen : List.length rows = List.length rows') by (eapply Forall2_length; eauto).
  assert (Hmiss : map (missingIn (map name cols)) rows = map (missingIn (map name cols)) rows').
  { induction H as [|r r' rows rows' Hr _ IH]; simpl; auto.
    f_equal; auto. now apply rebuilt_ext. }
  assert (Hser : serializations (map name cols) rows = serializations (map name cols) rows').
  { unfold serializations. f_equal.
    clear Hlen Hmiss. induction H as [|r r' rows rows' Hr _ IH]; simpl; auto.
    destruct (rebuilt_ext _ _ _ Hr) as (Hb & Ha & _). rewrite Ha.
    destruct (allNull _ r'); simpl; auto. now rewrite Hb, IH. }
  destruct (summary_fields cols rows) as (s & Hs & Hr & _ & Hmv & Hd).
  destruct (summary_fields cols rows') as (s' & Hs' & Hr' & _ & Hmv' & Hd').
  unfold summary. rewrite Hs, Hs'. simpl.
  rewrite Hmv, Hmv', Hd, Hd', Hr, Hr', Hmiss, Hser, Hlen. auto.
Qed.

End SummaryBounds.

Module SummaryMoreRuns.
Import DataContext Inputs MoreInputs.

(** Three rows of two columns, two of them the same and the third all
    missing: 2 missing cells of 6, and 3 rows less 1 serialization. *)
Lemma summary_bounds_witness :
  Forall (fun c => plainName (name c) = true) idAndName /\
  exists s m u,
    calculateMetricsFromData (rt := Reference.runtime)
      (Some {| columns := Some idAndName; data := Some plain |}) = Some s /\
    (m = 2 /\ u = 1)%nat /\
    Types.totalRows s = nat2float 3 /\
    Types.totalColumns s = nat2float 2 /\
    Types.missingValues s = nat2float m /\
    (m <= 3 * 2)%nat /\
    Types.duplicates s = (nat2float 3 - nat2float u)%float /\
    (u <= 3)%nat /\
    SFnonneg (Prim2SF (Types.duplicates s)) = true.
Proof.
  assert (Hnames : Forall (fun c => plainName (name c) = true) idAndName)
    by (repeat constructor).
  split; [exact Hnames|].
  destruct (SummaryBounds.summary_bounds (rt := Reference.runtime) idAndName plain _
              Hnames eq_refl)
    as (m & u & Hr & Hc & Hmv & Hm & Hmle & Hd & Hu & Hule & Hpos).
  eexists. exists m, u.
  split; [reflexivity|]. split; [exact (conj Hm Hu)|].
  split; [exact Hr|]. split; [exact Hc|]. split; [exact Hmv|]. split; [exact Hmle|].
  split; [exact Hd|]. split; [exact Hule|].
  apply Hpos. reflexivity.
Defined.

Lemma summary_reads_columns_only_witness :
  Forall2 (fun r r' => forall c, In c (map name idAndName) -> get r c = get r' c)
          annotated plain /\
  option_map Types.missingValues
    (calculateMetricsFromData (rt := Reference.runtime)
       (Some {| columns := Some idAndName; data := Some annotated |})) = Some 2%float /\
  option_map Types.missingValues
    (calculateMetricsFromData (rt := Reference.runtime)
       (Some {| columns := Some idAndName; data := Some plain |})) = Some 2%float /\
  option_map Types.duplicates
    (calculateMetricsFromData (rt := Reference.runtime)
       (Some {| columns := Some idAndName; data := Some annotated |})) =
  option_map Types.duplicates
    (calculateMetricsFromData (rt := Reference.runtime)
       (Some {| columns := Some idAndName; data := Some plain |})).
Proof.
  assert (H : Forall2 (fun r r' => forall c, In c (map name idAndName) -> get r c = get r' c)
                      annotated plain).
  { repeat constructor; intros c [<-|[<-|[]]]; reflexivity. }
  split; [exact H|]. split; [reflexivity|]. split; [reflexivity|].
  exact (proj1 (proj2 (SummaryBounds.summary_reads_columns_only (rt := Reference.runtime)
                         idAndName annotated plain H))).
Defined.

End SummaryMoreRuns.

(** ** The column picks and the shape of the correlation matrix *)

Module Picks.
Import Overview OverviewTerms FloatFacts.

Lemma threshold_table :
  forallb (fun n => forallb (fun k =>
     Bool.eqb (Math_max2 5 (Math_floor (nat2float n * 0.6)) <=? nat2float k)%float
              (threshold n <=? k)%nat) (seq 0 51)) (seq 0 51) = true.
Proof. vm_compute. reflexivity. Qed.

Section Picks.
Context {rt : JsRuntime}.

(** On a sample of at most 50 values the test of lines 124 and 212 is the
    comparison of integers. *)
Lemma mostlyNumeric_threshold (sample : list JsValue) :
  (List.length sample <= 50)%nat ->
  mostlyNumeric sample =
  (threshold (List.length sample) <=? List.length (filter numLike sample))%nat.
Proof.
  intros Hn. unfold mostlyNumeric.
  pose proof (filter_length_le numLike sample) as Hk.
  pose proof threshold_table as T.
  rewrite forallb_forall in T.
  specialize (T (List.length sample)). rewrite forallb_forall in T.
  apply eqb_prop, T; apply in_seq; lia.
Qed.

Lemma advance_cons (qualifies : Column -> bool) (c : Column) (cs : list Column)
  (pick : option string) :
  advance qualifies (c :: cs) pick =
  advance qualifies cs
    (if chosen pick then pick else if qualifies c then Some (name c) else pick).
Proof. reflexivity. Qed.

Lemma advance_chosen (qualifies : Column -> bool) (columns : list Column) (pick : option string) :
  chosen pick = true -> advance qualifies columns pick = pick.
Proof.
  intros H. induction columns as [|c cs IH]; [reflexivity|].
  now rewrite advance_cons, H.
Qed.

Lemma advance_firstNamed (qualifies : Column -> bool) (columns : list Column) (pick : option string) :
  chosen pick = false ->
  advance qualifies columns pick =
  match find (fun c => qualifies c && negb (String.eqb (name c) "")) columns with
  | Some c => Some (name c)
  | None => if existsb qualifies columns then Some "" else pick
  end.
Proof.
  revert pick. induction columns as [|c cs IH]; intros pick H; [reflexivity|].
  rewrite advance_cons, H. simpl find. simpl existsb.
  destruct (qualifies c); simpl.
  - destruct (String.eqb (name c) "") eqn:E; simpl.
    + rewrite IH by (simpl; now rewrite E).
      apply String.eqb_eq in E. rewrite E.
      destruct (find _ cs); auto. now destruct (existsb qualifies cs).
    + apply advance_chosen. simpl. now rewrite E.
  - now apply IH.
Qed.

Lemma pickLoop_advance (columns : list Column) (data : list Row) (n c : option string) :
  pickLoop columns data n c =
  (advance (numericLooking data) columns n, advance (fewValued data) columns c).
Proof.
  revert n c. induction columns as [|col cols IH]; intros n c; [reflexivity|].
  simpl pickLoop. unfold pickStep.
  set (n' := if negb (chosen n) then _ else n).
  set (c' := if negb (chosen c) then _ else c).
  assert (Hn : advance (numericLooking data) (col :: cols) n =
               advance (numericLooking data) cols n').
  { rewrite advance_cons. unfold n', numericLooking.
    destruct (chosen n); simpl; auto.
    destruct (typedNumeric col); simpl; auto. }
  assert (Hc : advance (fewValued data) (col :: cols) c =
               advance (fewValued data) cols c').
  { rewrite advance_cons. unfold c', fewValued. destruct (chosen c); simpl; auto. }
  rewrite Hn, Hc.
  destruct (chosen n' && chosen c') eqn:E.
  - apply andb_prop in E as [En Ec]. now rewrite !advance_chosen.
  - apply IH.
Qed.

(** X7: the two picks do not depend on each other: the numeric column is the
    first column with a name that is typed numeric or whose sample is
    mostly number-like, the categorical column the first column with a
    name whose sample shows 2 to 20 distinct non-empty values; a pick is
    the empty name when only nameless columns qualify, and [null] when no
    column does. *)
Theorem picks_are_first_matches (columns : list Column) (data : list Row) :
  pickQuickColumns columns data =
  (firstNamed (numericLooking data) columns, firstNamed (fewValued data) columns).
Proof.
  unfold pickQuickColumns. rewrite pickLoop_advance.
  now rewrite !advance_firstNamed.
Qed.

Lemma Set_add_length (s : list JsValue) (v : JsValue) :
  (List.length (Set_add s v) <= S (List.length s))%nat.
Proof.
  unfold Set_add. destruct (existsb _ s); [lia|]. rewrite length_app. simpl. lia.
Qed.

Lemma Set_of_length (values : list JsValue) :
  (List.length (Set_of values) <= List.length values)%nat.
Proof.
  unfold Set_of.
  assert (H : forall s, (List.length (fold_left Set_add values s) <=
                         List.length s + List.length values)%nat).
  { induction values as [|v vs IH]; intros s; simpl; [lia|].
    specialize (IH (Set_add s v)). pose proof (Set_add_length s v). lia. }
  apply (H []).
Qed.

Lemma sample_length (n : nat) (data : list Row) (nm : string) :
  List.length (map (fun r => get r nm) (firstn n data)) = Nat.min n (List.length data).
Proof. now rewrite length_map, length_firstn. Qed.

Lemma few_rows_not_numeric (n : nat) (data : list Row) (nm : string) :
  (n <= 50)%nat -> (List.length data < 5)%nat ->
  mostlyNumeric (map (fun r => get r nm) (firstn n data)) = false.
Proof.
  intros Hn Hd.
  pose proof (sample_length n data nm) as Hl.
  rewrite mostlyNumeric_threshold by lia.
  pose proof (filter_length_le numLike (map (fun r => get r nm) (firstn n data))).
  apply Nat.leb_gt. unfold threshold. lia.
Qed.

(** X8: small data: with fewer than five rows only a declared type makes a
    column numeric, and with fewer than two rows no column is categorical. *)
Theorem few_rows_no_pick (columns : list Column) (data : list Row) :
  ((List.length data < 5)%nat -> Forall (fun c => typedNumeric c = false) columns ->
   fst (pickQuickColumns columns data) = None) /\
  ((List.length data < 2)%nat -> snd (pickQuickColumns columns data) = None).
Proof.
  unfold pickQuickColumns. rewrite pickLoop_advance, !advance_firstNamed by reflexivity.
  fold (firstNamed (numericLooking data) columns) (firstNamed (fewValued data) columns).
  cbn [fst snd]. split.
  - intros Hd Ht.
    assert (H : forall c, In c columns -> numericLooking data c = false).
    { intros c Hc. unfold numericLooking.
      rewrite Forall_forall in Ht. rewrite (Ht c Hc). cbn [orb].
      apply few_rows_not_numeric; lia. }
    unfold firstNamed. clear Ht.
    induction columns as [|c cs IH]; [reflexivity|]. simpl.
    rewrite (H c) by now left. simpl. apply IH. intros c' Hc'. apply H. now right.
  - intros Hd.
    assert (H : forall c, fewValued data c = false).
    { intros c. unfold fewValued, uniqueCount.
      set (sample := map _ _).
      pose proof (Set_of_length (filter nonEmpty sample)).
      pose proof (filter_length_le nonEmpty sample).
      pose proof (sample_length 50 data (name c)). fold sample in H1.
      apply andb_false_iff. left. apply Nat.ltb_ge. lia. }
    unfold firstNamed.
    induction columns as [|c cs IH]; [reflexivity|]. simpl.
    rewrite (H c). simpl. exact IH.
Qed.

(** X9: the correlation matrix is square, with one row and one column for
    each column of the dataset whose sample of 50 rows holds at least
    [max(5, floor(0.6 n))] number-like values; with fewer than five rows it
    is empty. *)
Theorem correlation_shape (columns : list Column) (data : list Row) :
  let names := fst (buildCorrelation columns data) in
  let matrix := snd (buildCorrelation columns data) in
  List.length matrix = List.length names /\
  Forall (fun row => List.length row = List.length names) matrix /\
  (forall n, In n names <->
     In n (map name columns) /\
     (threshold (Nat.min 50 (List.length data)) <=
      List.length (filter numLike (map (fun r => get r n) (firstn 50 data))))%nat) /\
  ((List.length data < 5)%nat -> names = [] /\ matrix = []).
Proof.
  intros names matrix. unfold matrix, names, buildCorrelation. simpl.
  set (nm := filter (eligible data) (map name columns)).
  assert (He : forall n, eligible data n =
                 (threshold (Nat.min 50 (List.length data)) <=?
                  List.length (filter numLike (map (fun r => get r n) (firstn 50 data))))%nat).
  { intros n. unfold eligible. rewrite mostlyNumeric_threshold.
    - now rewrite sample_length.
    - rewrite sample_length. lia. }
  split; [|split; [|split]].
  - unfold matrixOf. now rewrite length_map.
  - unfold matrixOf. apply Forall_forall. intros row Hrow.
    apply in_map_iff in Hrow as (n & <- & _). now rewrite length_map.
  - intros n. unfold nm. rewrite filter_In, He, Nat.leb_le. tauto.
  - intros Hd.
    assert (Hnm : nm = []).
    { unfold nm. induction (map name columns) as [|n ns IH]; [reflexivity|]. simpl.
      unfold eligible at 1. rewrite few_rows_not_numeric by lia. exact IH. }
    rewrite Hnm. split; reflexivity.
Qed.

End Picks.

End Picks.

Module PicksRuns.
Import Overview OverviewTerms Inputs MoreInputs.

Lemma few_rows_no_pick_witness :
  (List.length fourRows < 5)%nat /\
  Forall (fun c => typedNumeric (rt := Reference.runtime) c = false) [column "n"] /\
  pickQuickColumns (rt := Reference.runtime) [column "n"] fourRows = (None, Some "n") /\
  fst (pickQuickColumns (rt := Reference.runtime) [column "n"] fourRows) = None /\
  (List.length [ [("n", VNum 1)] : Overview.Row ] < 2)%nat /\
  snd (pickQuickColumns (rt := Reference.runtime) [column "n"] [ [("n", VNum 1)] ]) = None.
Proof.
  assert (H5 : (List.length fourRows < 5)%nat) by (repeat constructor).
  assert (Ht : Forall (fun c => typedNumeric (rt := Reference.runtime) c = false) [column "n"])
    by (repeat constructor).
  assert (H2 : (List.length [ [("n", VNum 1)] : Overview.Row ] < 2)%nat) by (repeat constructor).
  split; [exact H5|]. split; [exact Ht|]. split; [reflexivity|].
  split; [exact (proj1 (Picks.few_rows_no_pick (rt := Reference.runtime) [column "n"] fourRows)
                   H5 Ht)|].
  split; [exact H2|].
  exact (proj2 (Picks.few_rows_no_pick (rt := Reference.runtime) [column "n"] [ [("n", VNum 1)] ]) H2).
Defined.

(** A nameless column that qualifies is passed over for a later one. *)
Example nameless_column_passed_over :
  pickQuickColumns (rt := Reference.runtime)
    [ {| name := ""; type := Some "number" |}; {| name := "n"; type := Some "integer" |} ]
    fourRows = (Some "n", Some "n").
Proof. reflexivity. Qed.

End PicksRuns.

(** ** The score of clean data and the progress bar *)

Module ScoreShown.
Import Overview FloatFacts ProgressBar.

Lemma zero_div_above (x : float) : (0 <? x)%float = true -> (0 / x)%float = 0%float.
Proof.
  intros H. apply Prim2SF_inj. rewrite div_spec.
  rewrite FloatAxioms.ltb_spec in H. change (Prim2SF 0) with (S754_zero false) in *.
  destruct (Prim2SF x) as [s|s| |s m e]; try (destruct s); try discriminate; reflexivity.
Qed.

(** X10: data without missing cells and duplicates scores 100. *)
Theorem clean_data_scores_100 (s : Types.DataSummary) (ds : Dataset) :
  columns ds <> [] -> (Z.of_nat (List.length (columns ds)) < 2 ^ 53)%Z ->
  (0 <? Types.totalRows s)%float = true ->
  Types.missingValues s = 0%float -> Types.duplicates s = 0%float ->
  computeQualityScore (Some s) (Some ds) = 100%float.
Proof.
  intros Hc Hsmall Hr Hm Hd. unfold computeQualityScore.
  destruct (columns ds) as [|c cs] eqn:E; [congruence|].
  simpl Nat.eqb. cbv iota.
  rewrite (QualityScore.above_zero_not_below _ Hr).
  rewrite QualityScore.columns_above_zero by (simpl in *; lia).
  simpl orb. cbv iota zeta. rewrite Hr, Hm, Hd.
  pose proof (zero_div_above _ Hr) as Hrows. rewrite Hrows.
  destruct (0 <? Types.totalRows s * nat2float (List.length (c :: cs)))%float eqn:Ecells.
  - pose proof (zero_div_above _ Ecells) as Hcells. rewrite Hcells. reflexivity.
  - reflexivity.
Qed.

Lemma ord_bounded_finite (x : float) :
  isNaN x = false -> (- 2 ^ 2100 < ord x < 2 ^ 2100)%Z -> isFinite x = true.
Proof.
  rewrite isNaN_spec, isFinite_spec. unfold ord.
  destruct (Prim2SF x) as [s|s| |s m e]; try reflexivity; try discriminate.
  intros _. destruct s; simpl; lia.
Qed.

Lemma score_integer (summary : option Types.DataSummary) (dataset : option Dataset) :
  exists k, (0 <= k <= 100)%Z /\ computeQualityScore summary dataset = Z2float k.
Proof.
  unfold computeQualityScore.
  destruct summary as [s|], dataset as [ds|]; try (exists 0%Z; split; [lia | reflexivity]).
  destruct (List.length (columns ds) =? 0)%nat; [exists 0%Z; split; [lia | reflexivity]|].
  destruct (_ || _); [exists 0%Z; split; [lia | reflexivity]|].
  apply clamped_round_range.
Qed.

Lemma safeValue_table :
  forallb (fun k => Leibniz.eqb (safeValue (Z2float (Z.of_nat k))) (Z2float (Z.of_nat k)))
          (seq 0 101) = true.
Proof. vm_compute. reflexivity. Qed.

Lemma safeValue_fixes (k : Z) : (0 <= k <= 100)%Z -> safeValue (Z2float k) = Z2float k.
Proof.
  intros H. pose proof safeValue_table as T. rewrite forallb_forall in T.
  specialize (T (Z.to_nat k)). rewrite Z2Nat.id in T by lia.
  apply Leibniz.eqb_spec, T, in_seq. lia.
Qed.

(** X11: the bar shows an integer from 0 to 100 for every number it is given,
    [NaN] and the infinities included, and shows a quality score as it
    is. *)
Theorem bar_shows_score (value : float)
  (summary : option Types.DataSummary) (dataset : option Dataset) :
  (exists k, (0 <= k <= 100)%Z /\ safeValue value = Z2float k) /\
  safeValue (computeQualityScore summary dataset) = computeQualityScore summary dataset.
Proof.
  split.
  - unfold safeValue. destruct (isFinite value) eqn:F; [|exists 0%Z; split; [lia|reflexivity]].
    destruct (clamped_round_range value) as (k & Hk & E).
    destruct (isFinite (Math_max2 0 (Math_min2 100 (Math_round value)))) eqn:F'; [eauto|].
    exfalso.
    assert (Nr : isNaN (Math_round value) = false).
    { destruct (Math_round_cases value) as [[-> _] | [[s Hs] | (n & _ & Hn & ->)]].
      - now apply finite_not_nan.
      - rewrite isNaN_spec, Hs. reflexivity.
      - apply finite_not_nan. rewrite isFinite_spec.
        now destruct (Prim2SF_Z2float n Hn) as (_ & _ & _ & ->). }
    assert (N100 : isNaN 100 = false) by reflexivity.
    assert (N0 : isNaN 0 = false) by reflexivity.
    assert (P : (0 < 2 ^ 1074)%Z) by (apply pow2_pos; lia).
    assert (Q : (100 * 2 ^ 1074 < 2 ^ 2100)%Z).
    { apply Z.ltb_lt. vm_compute. reflexivity. }
    destruct (Math_min2_cases 100 (Math_round value) N100 Nr) as [[Em Hm] | [Em Hm]];
      rewrite Em in F'.
    + vm_compute in F'. discriminate.
    + destruct (Math_max2_cases 0 (Math_round value) N0 Nr) as [[Ex Hx] | [Ex Hx]];
        rewrite Ex in F'.
      * vm_compute in F'. discriminate.
      * rewrite ord_bounded_finite in F'; [discriminate | exact Nr |].
        rewrite ord_0 in Hx. rewrite ord_100 in Hm. lia.
  - destruct (score_integer summary dataset) as (k & Hk & ->).
    now apply safeValue_fixes.
Qed.

End ScoreShown.

Module ScoreShownRuns.
Import Overview Inputs MoreInputs ProgressBar.

Lemma clean_data_scores_100_witness :
  columns fiveColumns <> [] /\
  (0 <? Types.totalRows cleanSummary)%float = true /\
  computeQualityScore (Some cleanSummary) (Some fiveColumns) = 100%float.
Proof.
  split; [discriminate|]. split; [reflexivity|].
  apply (ScoreShown.clean_data_scores_100 cleanSummary fiveColumns);
    [discriminate | reflexivity | reflexivity | reflexivity | reflexivity].
Defined.

Example bar_clamps :
  map safeValue [-3; 0.4; 49.5; 250; nan; infinity]%float = [0; 0; 50; 100; 0; 0]%float.
Proof. reflexivity. Qed.

End ScoreShownRuns.

(** ** The category counts *)

Module CategoryCounts.
Import Overview OverviewCharts ObjectFacts OrderFacts FloatFacts.

Lemma occurrences_snoc (k k' : string) (keys : list string) :
  occurrences k (keys ++ [k']) =
  (occurrences k keys + (if String.eqb k k' then 1 else 0))%nat.
Proof.
  unfold occurrences. rewrite filter_app, length_app. simpl.
  destruct (String.eqb k k'); reflexivity.
Qed.

Lemma occurrences_none (k : string) (keys : list string) :
  ~ In k keys -> occurrences k keys = 0%nat.
Proof.
  unfold occurrences. induction keys as [|k' keys IH]; simpl; auto.
  intros H. destruct (String.eqb k k') eqn:E.
  - apply String.eqb_eq in E. subst. exfalso. apply H. now left.
  - apply IH. intros Hin. apply H. now right.
Qed.

Lemma occurrences_cons (k k' : string) (keys : list string) :
  occurrences k (k' :: keys) =
  ((if String.eqb k' k then 1 else 0) + occurrences k keys)%nat.
Proof.
  unfold occurrences. simpl. rewrite (String.eqb_sym k k').
  destruct (String.eqb k' k); reflexivity.
Qed.

(** Every key is counted under exactly one of the distinct keys. *)
Lemma occurrences_partition (keys l : list string) :
  NoDup l -> incl keys l ->
  list_sum (map (fun k => occurrences k keys) l) = List.length keys.
Proof.
  intros Hnd. induction keys as [|k keys IH]; intros Hincl.
  - clear. induction l; simpl; auto.
  - rewrite (map_ext _ _ (fun x => occurrences_cons x k keys)).
    rewrite (WorkerTotals.list_sum_map_add _ (fun x => if String.eqb k x then 1 else 0)%nat).
    rewrite WorkerTotals.one_key; auto.
    + simpl. f_equal. apply IH. intros x Hx. apply Hincl. now right.
    + apply Hincl. now left.
Qed.

Section Counting.
Context {rt : JsRuntime}.

Lemma Counted_step (keys : list string) (m : JsMap nat) (v : JsValue) :
  Counted keys m -> Counted (keys ++ [categoryKey v]) (countKey m v).
Proof.
  intros [Hkeys Hok]. unfold countKey, Map_set, Map_get. split.
  - now rewrite keys_obj_set, Hkeys, distinct_snoc.
  - intros k n Hget. destruct (string_dec k (categoryKey v)) as [->|Hne].
    + rewrite obj_get_set_same in Hget. injection Hget as <-.
      rewrite occurrences_snoc, String.eqb_refl.
      destruct (obj_get m (categoryKey v)) as [c|] eqn:E.
      * destruct (Hok _ _ E) as [-> Hpos].
        destruct (occurrences (categoryKey v) keys); simpl; lia.
      * apply obj_get_None in E. rewrite Hkeys, distinct_In in E.
        rewrite (occurrences_none _ _ E). simpl. lia.
    + rewrite obj_get_set_other in Hget by exact Hne.
      destruct (Hok _ _ Hget) as [-> Hpos]. rewrite occurrences_snoc.
      destruct (String.eqb k (categoryKey v)) eqn:E.
      * apply String.eqb_eq in E. contradiction.
      * lia.
Qed.

Lemma Counted_fold (values : list JsValue) (keys : list string) (m : JsMap nat) :
  Counted keys m ->
  Counted (keys ++ map categoryKey values) (fold_left countKey values m).
Proof.
  revert keys m. induction values as [|v vs IH]; intros keys m H; simpl.
  - now rewrite app_nil_r.
  - replace (keys ++ categoryKey v :: map categoryKey vs)
      with ((keys ++ [categoryKey v]) ++ map categoryKey vs)
      by now rewrite <- app_assoc.
    apply IH, Counted_step, H.
Qed.

Lemma Counted_all (values : list JsValue) :
  Counted (map categoryKey values) (fold_left countKey values []).
Proof.
  apply (Counted_fold values [] []). split; [reflexivity | discriminate].
Qed.

(** X12: the result holds one entry for each of the first [topN] categories of
    the sorted list: the names are distinct, each entry counts the values
    of its category, blank values under the one name [(blank)], and when
    there are at most [topN] categories every category is listed and the
    counts add up to the number of values. *)
Theorem category_counts (values : list JsValue) (topN : option nat) :
  let keys := map categoryKey values in
  let result := buildCategoryCounts values topN in
  let n := match topN with Some n => n | None => 15%nat end in
  List.length result = Nat.min n (List.length (distinct keys)) /\
  NoDup (map name result) /\
  (forall p, In p result ->
     In (name p) keys /\ value p = occurrences (name p) keys /\ (0 < value p)%nat) /\
  ((List.length (distinct keys) <= n)%nat ->
   list_sum (map value result) = List.length values /\
   forall k, In k keys -> In k (map name result)).
Proof.
  intros keys result n. unfold result, buildCategoryCounts. fold n.
  destruct (Counted_all values) as [Hkeys Hok]. fold keys in Hkeys, Hok.
  set (m := fold_left countKey values []) in *.
  set (arr := map (fun e => {| name := fst e; value := snd e |}) m).
  set (cmp := fun a b : Count => (nat2float (value b) - nat2float (value a))%float).
  assert (Hnames : map name arr = distinct keys).
  { unfold arr. rewrite map_map. simpl. exact Hkeys. }
  assert (Hlen : List.length (Array_sort cmp arr) = List.length (distinct keys)).
  { now rewrite Array_sort_length, <- Hnames, length_map. }
  assert (Hnd : NoDup (map name (Array_sort cmp arr))).
  { eapply Permutation_NoDup; [symmetry; apply Permutation_map, Array_sort_perm|].
    rewrite Hnames. apply distinct_NoDup. }
  assert (Hin : forall p, In p arr ->
            In (name p) keys /\ value p = occurrences (name p) keys /\ (0 < value p)%nat).
  { intros p Hp. unfold arr in Hp. apply in_map_iff in Hp as ([k c] & <- & Hkc). simpl.
    assert (Hk : In k keys).
    { apply distinct_In. rewrite <- Hkeys. apply in_map_iff. now exists (k, c). }
    apply In_obj_get in Hkc; [|rewrite Hkeys; apply distinct_NoDup].
    destruct (Hok _ _ Hkc). auto. }
  split; [|split; [|split]].
  - rewrite length_firstn, Hlen. reflexivity.
  - rewrite <- firstn_map.
    apply (NoDup_app_remove_r _ (skipn n (map name (Array_sort cmp arr)))).
    now rewrite firstn_skipn.
  - intros p Hp. apply In_firstn, Array_sort_In in Hp. auto.
  - intros Hfew. rewrite firstn_all2 by lia. split.
    + rewrite (WorkerTotals.list_sum_perm _ (map value arr))
        by apply Permutation_map, Array_sort_perm.
      replace (List.length values) with (List.length keys) by apply length_map.
      rewrite <- (occurrences_partition keys (distinct keys)).
      * rewrite <- Hnames, map_map. f_equal. apply map_ext_in.
        intros p Hp. now destruct (Hin p Hp) as (_ & -> & _).
      * apply distinct_NoDup.
      * intros k Hk. now apply distinct_In.
    + intros k Hk.
      eapply Permutation_in; [symmetry; apply Permutation_map, Array_sort_perm|].
      rewrite Hnames. now apply distinct_In.
Qed.

Lemma count_order (a b : nat) :
  (Z.of_nat a < 2 ^ 53)%Z -> (Z.of_nat b < 2 ^ 53)%Z ->
  (0 <? nat2float b - nat2float a)%float = (a <? b)%nat.
Proof.
  intros Ha Hb. rewrite sub_pos.
  destruct (SummaryBounds.nat2float_finite a Ha) as [Fa Oa].
  destruct (SummaryBounds.nat2float_finite b Hb) as [Fb Ob].
  rewrite ltb_ord by (apply finite_not_nan; assumption).
  rewrite Oa, Ob.
  assert (0 < 2 ^ 1074)%Z by (apply pow2_pos; lia).
  destruct (a <? b)%nat eqn:E.
  - apply Nat.ltb_lt in E. apply Z.ltb_lt. nia.
  - apply Nat.ltb_ge in E. apply Z.ltb_ge. nia.
Qed.

(** X13: the entries stand in order of falling counts, and entries of equal
    count in the order in which their categories first occur among the
    values. *)
Theorem category_order (values : list JsValue) (topN : option nat) :
  (Z.of_nat (List.length values) < 2 ^ 53)%Z ->
  let result := buildCategoryCounts values topN in
  StronglySorted (fun p q => (value q <= value p)%nat) result /\
  (forall p q, before p q result -> value p = value q ->
     before (name p) (name q) (distinct (map categoryKey values))).
Proof.
  intros Hsmall result. unfold result, buildCategoryCounts.
  set (n := match topN with Some n => n | None => 15%nat end).
  destruct (Counted_all values) as [Hkeys Hok].
  set (keys := map categoryKey values) in *.
  set (m := fold_left countKey values []) in *.
  set (arr := map (fun e => {| name := fst e; value := snd e |}) m).
  set (cmp := fun a b : Count => (nat2float (value b) - nat2float (value a))%float).
  assert (Hnames : map name arr = distinct keys).
  { unfold arr. rewrite map_map. simpl. exact Hkeys. }
  assert (Hnd : NoDup arr).
  { apply (NoDup_map_inv name). rewrite Hnames. apply distinct_NoDup. }
  assert (Hbound : forall p, In p arr -> (Z.of_nat (value p) < 2 ^ 53)%Z).
  { intros p Hp. unfold arr in Hp. apply in_map_iff in Hp as ([k c] & <- & Hkc). simpl.
    apply In_obj_get in Hkc; [|rewrite Hkeys; apply distinct_NoDup].
    destruct (Hok _ _ Hkc) as [-> _].
    assert (occurrences k keys <= List.length values)%nat.
    { unfold occurrences. etransitivity; [apply filter_length_le|].
      unfold keys. now rewrite length_map. }
    lia. }
  assert (Hb' : forall p, In p (Array_sort cmp arr) -> (Z.of_nat (value p) < 2 ^ 53)%Z).
  { intros p Hp. apply Hbound. now apply Array_sort_In in Hp. }
  assert (Hsort : Sorted (inOrder cmp) (Array_sort cmp arr)).
  { clear Hb'. revert Hbound. generalize arr as l. clear.
    induction l as [|x l IH]; intros Hb; simpl; [constructor|].
    assert (IH' : Sorted (inOrder cmp) (Array_sort cmp l)).
    { apply IH. intros p Hp. apply Hb. now right. }
    assert (Hs : forall p, In p (Array_sort cmp l) -> (Z.of_nat (value p) < 2 ^ 53)%Z).
    { intros p Hp. apply Hb. right. now apply Array_sort_In in Hp. }
    assert (Hx : (Z.of_nat (value x) < 2 ^ 53)%Z) by (apply Hb; now left).
    revert IH' Hs. generalize (Array_sort cmp l) as s.
    induction s as [|y s IHs]; intros Hsorted Hs; simpl.
    - repeat constructor.
    - destruct (0 <? cmp x y)%float eqn:E.
      + inversion Hsorted as [|? ? Hs' Hhd]; subst.
        constructor.
        * apply IHs; auto. intros p Hp. apply Hs. now right.
        * assert (Hxy : inOrder cmp y x).
          { unfold inOrder, cmp in *.
            rewrite count_order in * by (auto; apply Hs; now left).
            apply Nat.ltb_lt in E. apply Nat.ltb_ge. lia. }
          destruct s as [|z s]; simpl.
          -- constructor. exact Hxy.
          -- destruct (0 <? cmp x z)%float.
             ++ constructor. now inversion Hhd.
             ++ constructor. exact Hxy.
      + constructor; [assumption|]. constructor. exact E. }
  split.
  - apply Sorted_StronglySorted; [intros a b c; lia|].
    apply Sorted_firstn.
    eapply (Sorted_weaken _ _ (fun p => (Z.of_nat (value p) < 2 ^ 53)%Z)); [| |exact Hsort].
    + intros a b Ha Hb. unfold inOrder, cmp. rewrite count_order by auto.
      intros H. apply Nat.ltb_ge in H. exact H.
    + apply Forall_forall. exact Hb'.
  - intros p q Hb Hv. apply before_firstn in Hb.
    assert (Hnd' : NoDup (Array_sort cmp arr)).
    { eapply Permutation_NoDup; [symmetry; apply Array_sort_perm | exact Hnd]. }
    destruct (before_In _ _ _ Hb) as [Hp' Hq'].
    apply Array_sort_In in Hp', Hq'.
    assert (Hne : p <> q).
    { intros ->. now apply (before_refl_NoDup q _ Hnd'). }
    rewrite <- Hnames.
    destruct (before_total p q arr Hp' Hq' Hne) as [H|Hqp]; [now apply before_map|].
    exfalso. apply (before_asym p q _ Hnd' Hb).
    apply Array_sort_stable; auto.
    unfold cmp. rewrite count_order by auto. rewrite Hv. apply Nat.ltb_irrefl.
Qed.

End Counting.

End CategoryCounts.

Module CategoryCountsRuns.
Import Overview OverviewCharts Inputs MoreInputs.

Lemma category_order_witness :
  (Z.of_nat (List.length fruit) < 2 ^ 53)%Z /\
  buildCategoryCounts (rt := Reference.runtime) fruit (Some 3%nat) =
    [ {| name := "(blank)"; value := 3 |}; {| name := "pear"; value := 2 |};
      {| name := "fig"; value := 2 |} ] /\
  distinct (map (categoryKey (rt := Reference.runtime)) fruit) =
    [ "pear"; "fig"; "(blank)"; "kiwi" ] /\
  StronglySorted (fun p q => (value q <= value p)%nat)
    (buildCategoryCounts (rt := Reference.runtime) fruit (Some 3%nat)).
Proof.
  split; [reflexivity|]. split; [reflexivity|]. split; [reflexivity|].
  exact (proj1 (CategoryCounts.category_order (rt := Reference.runtime) fruit (Some 3%nat)
                  eq_refl)).
Defined.

End CategoryCountsRuns.

(** ** The table sort *)

Module TableSort.
Import Overview OverviewCharts ObjectFacts OrderFacts FloatFacts.

Section Ext.
Context {A : Type}.
Variables f g : A -> A -> float.

Lemma sort_insert_ext (x : A) (s : list A) :
  (forall y, In y s -> f x y = g x y) -> sort_insert f x s = sort_insert g x s.
Proof.
  induction s as [|y s IH]; intros H; simpl; auto.
  rewrite (H y) by now left.
  destruct (0 <? g x y)%float; auto.
  f_equal. apply IH. intros z Hz. apply H. now right.
Qed.

(** The sort reads the comparator on the elements of the array only. *)
Lemma Array_sort_ext (l : list A) :
  (forall x y, In x l -> In y l -> f x y = g x y) -> Array_sort f l = Array_sort g l.
Proof.
  induction l as [|x l IH]; intros H; simpl; auto.
  rewrite IH by (intros a b Ha Hb; apply H; now right).
  apply sort_insert_ext. intros y Hy. apply Array_sort_In in Hy.
  apply H; [now left | now right].
Qed.

End Ext.

Section Sorting.
Context {rt : JsRuntime} {so : JsStringOrder}.

Lemma isNumber_spec (v : JsValue) :
  isNumber v = true -> isNaN (ToNumber v) = false /\ isFinite (ToNumber v) = true.
Proof.
  destruct v; try discriminate. simpl. intros H.
  apply andb_prop in H as [Hn Hf]. split; auto.
  now destruct (isNaN n).
Qed.

(** X14: on rows that all hold a number under the key, the table sort returns
    the same rows ordered by that number, rising for [asc] and falling for
    any other direction, and a row is never moved behind a later row
    unless their numbers ask for it: rows with equal numbers keep their
    order. *)
Theorem table_sort_by_number (rows : list Row) (key dir : string) :
  Forall (fun r => isNumber (get r key) = true) rows ->
  let num r := ToNumber (get r key) in
  let result := sortRows rows key dir in
  Permutation result rows /\
  StronglySorted (fun a b => if String.eqb dir "asc"
                             then (num a <=? num b)%float = true
                             else (num b <=? num a)%float = true) result /\
  (forall a b, before a b rows ->
     (if String.eqb dir "asc" then (num b <? num a)%float else (num a <? num b)%float) = false ->
     before a b result).
Proof.
  intros Hnum num result. unfold result, sortRows.
  set (cmp := fun a b : Row =>
                if String.eqb dir "asc" then (num a - num b)%float else (num b - num a)%float).
  assert (Hext : Array_sort (compareRows key dir) rows = Array_sort cmp rows).
  { apply Array_sort_ext. intros x y Hx Hy. unfold compareRows, cmp, num.
    rewrite Forall_forall in Hnum. now rewrite (Hnum x Hx), (Hnum y Hy). }
  rewrite Hext.
  assert (Hgt : forall a b, (0 <? cmp a b)%float =
                  if String.eqb dir "asc" then (num b <? num a)%float else (num a <? num b)%float).
  { intros a b. unfold cmp. destruct (String.eqb dir "asc"); apply sub_pos. }
  assert (Hnan : Forall (fun r => isNaN (num r) = false) (Array_sort cmp rows)).
  { apply Forall_forall. intros r Hr. apply Array_sort_In in Hr.
    rewrite Forall_forall in Hnum. now apply isNumber_spec, Hnum. }
  split; [apply Array_sort_perm|]. split.
  - apply Sorted_StronglySorted.
    + intros a b c. destruct (String.eqb dir "asc"); intros Hab Hbc.
      * exact (leb_trans _ _ _ Hab Hbc).
      * exact (leb_trans _ _ _ Hbc Hab).
    + eapply (Sorted_weaken (inOrder cmp) _ (fun r => isNaN (num r) = false));
        [| exact Hnan |].
      * intros a b Na Nb. unfold inOrder. rewrite Hgt.
        destruct (String.eqb dir "asc"); intros H; now apply not_ltb_leb.
      * apply Array_sort_sorted. intros a b. rewrite !Hgt.
        destruct (String.eqb dir "asc"); apply ltb_asym.
  - intros a b Hb Hc. apply Array_sort_stable; auto. now rewrite Hgt.
Qed.

End Sorting.

End TableSort.

Module TableSortRuns.
Import Overview OverviewCharts Inputs MoreInputs.

Lemma table_sort_by_number_witness :
  Forall (fun r => isNumber (get r "n") = true) scores /\
  map (fun r => get r "who")
      (sortRows (rt := Reference.runtime) scores "n" "asc") =
    [ VStr "a"; VStr "b"; VStr "c"; VStr "d" ] /\
  Permutation (sortRows (rt := Reference.runtime) scores "n" "asc") scores.
Proof.
  assert (H : Forall (fun r => isNumber (get r "n") = true) scores) by (repeat constructor).
  split; [exact H|]. split; [reflexivity|].
  exact (proj1 (TableSort.table_sort_by_number (rt := Reference.runtime) scores "n" "asc" H)).
Defined.

(** Text is compared without regard to case, and a missing cell as the
    empty text. *)
Example table_sort_by_text :
  map (fun r => get r "who")
      (sortRows (rt := Reference.runtime)
         [ [("who", VStr "b")]; [("who", VStr "C")]; []; [("who", VStr "A")] ] "who" "desc") =
    [ VStr "C"; VStr "b"; VStr "A"; VUndefined ].
Proof. reflexivity. Qed.

End TableSortRuns.

(** ** The chart state *)

Module ChartState.
Import Visualizations.

(** X15: choosing an axis takes effect, and two different axes stay different:
    choosing for one axis the column of the other exchanges the two. *)
Theorem axes_stay_distinct (st : ChartState) (axis value : string) :
  xAxis st <> yAxis st -> axis = "x" \/ axis = "y" ->
  let st' := chartStateReducer st (SET_AXIS axis value) in
  xAxis st' <> yAxis st' /\
  (axis = "x" -> xAxis st' = value) /\
  (axis = "y" -> yAxis st' = value) /\
  (value = (if String.eqb axis "x" then yAxis st else xAxis st) ->
   xAxis st' = yAxis st /\ yAxis st' = xAxis st).
Proof.
  intros Hne Haxis. simpl.
  destruct Haxis as [-> | ->]; simpl.
  - destruct (String.eqb value (yAxis st)) eqn:E; simpl.
    + apply String.eqb_eq in E. subst value.
      split; [congruence|]. split; [auto|]. split; [discriminate|]. auto.
    + apply String.eqb_neq in E.
      split; [exact E|]. split; [auto|]. split; [discriminate|].
      intros ->. contradiction.
  - destruct (String.eqb value (xAxis st)) eqn:E; simpl.
    + apply String.eqb_eq in E. subst value.
      split; [congruence|]. split; [discriminate|]. split; auto.
    + apply String.eqb_neq in E.
      split; [congruence|]. split; [discriminate|]. split; [auto|].
      intros ->. contradiction.
Qed.

Lemma without_columns (fs : list Filter) (col : string) :
  map column (without fs col) = filter (fun c => negb (String.eqb c col)) (map column fs).
Proof.
  unfold without. induction fs as [|f fs IH]; simpl; auto.
  destruct (String.eqb (column f) col); simpl; now rewrite IH.
Qed.

Lemma NoDup_replace (fs : list Filter) (f : Filter) :
  NoDup (map column fs) -> NoDup (map column (without fs (column f) ++ [f])).
Proof.
  intros H. rewrite map_app, without_columns. simpl.
  apply NoDup_app.
  - now apply NoDup_filter.
  - repeat constructor. intros [].
  - intros c Hc [<-|[]]. apply filter_In in Hc as [_ Hc].
    now rewrite String.eqb_refl in Hc.
Qed.

Lemma reducer_keeps_one_filter (st : ChartState) (a : Action) :
  carriesFilters a = false ->
  NoDup (map column (filters st)) ->
  NoDup (map column (filters (chartStateReducer st a))).
Proof.
  intros Ha H. destruct a as [axis v|p|k d|p|c v|c v| |p|p|p|t]; simpl; auto.
  - destruct (_ && _); simpl; auto. destruct (_ && _); simpl; auto.
    destruct (String.eqb axis "x"); simpl; auto.
  - apply (NoDup_replace _ {| column := c; value := v; type := range |}), H.
  - apply (NoDup_replace _ {| column := c; value := v; type := categorical |}), H.
  - constructor.
  - simpl in Ha. destruct (p_filters p); [discriminate | exact H].
Qed.

(** X16: however the state is driven by actions that bring no filter list of
    their own, it never holds two filters on the same column; a filter
    that is added replaces the one on its column, goes last, and leaves
    the filters on the other columns as they were. *)
Theorem one_filter_per_column (st : ChartState) (actions : list Action)
  (col : string) (v : Value) :
  NoDup (map column (filters st)) ->
  forallb (fun a => negb (carriesFilters a)) actions = true ->
  let st' := fold_left chartStateReducer actions st in
  let st'' := chartStateReducer st' (ADD_FILTER col v) in
  NoDup (map column (filters st')) /\
  NoDup (map column (filters st'')) /\
  filters st'' = without (filters st') col ++
                 [ {| column := col; value := v; type := categorical |} ] /\
  (forall f, column f <> col -> (In f (filters st'') <-> In f (filters st'))) /\
  (forall f, In f (filters st'') -> column f = col ->
     f = {| column := col; value := v; type := categorical |}).
Proof.
  intros Hnd Hacts st' st''.
  assert (H' : NoDup (map column (filters st'))).
  { unfold st'. clear st' st''. revert st Hnd Hacts.
    induction actions as [|a actions IH]; intros st Hnd Hacts; simpl; auto.
    simpl in Hacts. apply andb_prop in Hacts as [Ha Hacts].
    apply IH; auto. apply reducer_keeps_one_filter; auto.
    now destruct (carriesFilters a). }
  split; [exact H'|]. split; [|split; [reflexivity|split]].
  - apply (reducer_keeps_one_filter st' (ADD_FILTER col v)); auto.
  - intros f Hf. simpl. rewrite in_app_iff. unfold without. rewrite filter_In. simpl.
    split.
    + intros [[Hin _] | [<-|[]]]; auto. now contradiction Hf.
    + intros Hin. left. split; auto.
      apply String.eqb_neq in Hf. now rewrite Hf.
  - intros f Hin Hc. simpl in Hin. apply in_app_iff in Hin as [Hin | [<-|[]]]; auto.
    unfold without in Hin. apply filter_In in Hin as [_ Hin].
    rewrite Hc, String.eqb_refl in Hin. discriminate.
Qed.

Lemma without_without (fs : list Filter) (f : Filter) :
  without (without fs (column f) ++ [f]) (column f) = without fs (column f).
Proof.
  unfold without. rewrite filter_app. simpl. rewrite String.eqb_refl. simpl.
  rewrite app_nil_r. induction fs as [|g fs IH]; simpl; auto.
  destruct (String.eqb (column g) (column f)) eqn:E; simpl; auto.
  now rewrite E, IH.
Qed.

(** X17: applying an action twice gives what applying it once gives, as long
    as the two axes differ. *)
Theorem reducer_idempotent (st : ChartState) (a : Action) :
  xAxis st <> yAxis st ->
  chartStateReducer (chartStateReducer st a) a = chartStateReducer st a.
Proof.
  intros Hne. destruct a as [axis v|p|k d|p|c v|c v| |p|p|p|t]; simpl; auto.
  - destruct (String.eqb axis "x") eqn:Ex, (String.eqb axis "y") eqn:Ey,
             (String.eqb v (yAxis st)) eqn:E1, (String.eqb v (xAxis st)) eqn:E2;
      simpl; rewrite ?Ex, ?Ey, ?E1, ?E2, ?String.eqb_refl; simpl;
      rewrite ?Ex, ?Ey, ?E1, ?E2, ?String.eqb_refl; simpl; try reflexivity;
      try (apply String.eqb_eq in Ex; apply String.eqb_eq in Ey; congruence);
      try (apply String.eqb_eq in E1; apply String.eqb_eq in E2; congruence).
  - unfold withFilters. simpl. f_equal.
    now rewrite (without_without _ {| column := c; value := v; type := range |}).
  - unfold withFilters. simpl. f_equal.
    now rewrite (without_without _ {| column := c; value := v; type := categorical |}).
  - destruct p as [px py pa pk pd pc pf pl pp]. simpl.
    destruct px, py, pa, pk, pd, pc, pf, pl, pp; reflexivity.
Qed.

End ChartState.

Module ChartStateRuns.
Import Inputs MoreInputs Visualizations.

Lemma axes_stay_distinct_witness :
  xAxis charted <> yAxis charted /\
  chartStateReducer charted (SET_AXIS "x" "sales") =
    withAxes charted "sales" "region" /\
  xAxis (chartStateReducer charted (SET_AXIS "x" "sales")) <>
  yAxis (chartStateReducer charted (SET_AXIS "x" "sales")).
Proof.
  assert (H : xAxis charted <> yAxis charted) by discriminate.
  split; [exact H|]. split; [reflexivity|].
  exact (proj1 (ChartState.axes_stay_distinct charted "x" "sales" H (or_introl eq_refl))).
Defined.

Lemma one_filter_per_column_witness :
  NoDup (map column (filters charted)) /\
  map (fun f => (column f, type f))
      (filters (fold_left chartStateReducer
                  [ ADD_FILTER "region" (Prim (VStr "A"));
                    SET_RANGE_FILTER "sales" (Prim (VNum 5));
                    ADD_FILTER "region" (Prim (VStr "B")) ] charted)) =
    [ ("sales", range); ("region", categorical) ] /\
  NoDup (map column
           (filters (fold_left chartStateReducer
                       [ ADD_FILTER "region" (Prim (VStr "A"));
                         SET_RANGE_FILTER "sales" (Prim (VNum 5));
                         ADD_FILTER "region" (Prim (VStr "B")) ] charted))).
Proof.
  assert (H : NoDup (map column (filters charted))) by constructor.
  split; [exact H|]. split; [reflexivity|].
  exact (proj1 (ChartState.one_filter_per_column charted
                  [ ADD_FILTER "region" (Prim (VStr "A"));
                    SET_RANGE_FILTER "sales" (Prim (VNum 5));
                    ADD_FILTER "region" (Prim (VStr "B")) ]
                  "region" (Prim (VStr "C")) H eq_refl)).
Defined.

Lemma reducer_idempotent_witness :
  xAxis charted <> yAxis charted /\
  chartStateReducer (chartStateReducer charted (SET_AXIS "y" "region")) (SET_AXIS "y" "region") =
  chartStateReducer charted (SET_AXIS "y" "region").
Proof.
  assert (H : xAxis charted <> yAxis charted) by discriminate.
  split; [exact H|].
  exact (ChartState.reducer_idempotent charted (SET_AXIS "y" "region") H).
Defined.

(** With equal axes an exchange is undone by its repetition. *)
Example equal_axes_not_idempotent :
  let st := withAxes charted "region" "region" in
  yAxis (chartStateReducer st (SET_AXIS "x" "region")) = "region" /\
  chartStateReducer st (SET_AXIS "z" "region") = st.
Proof. split; reflexivity. Qed.

End ChartStateRuns.

(** ** The worker and its caller *)

Module Exchange.
Import Visualizations.

(** X18: a request is sent only for data with both axes chosen, and then the
    worker's answer is handled once: the processing flag, raised for the
    request, is down again, the points are those of the aggregation when it
    succeeds and the points held before when it throws. Without a request
    nothing changes. *)
Theorem exchange_outcome {rt : JsRuntime} (v : View) (data : option (list Worker.Row)) :
  match request (state v) data with
  | None =>
      (data = None \/ xAxis (state v) = "" \/ yAxis (state v) = "") /\
      exchange v data = v
  | Some message =>
      exists rows,
        data = Some rows /\ Worker.data message = Some rows /\
        xAxis (state v) <> "" /\ yAxis (state v) <> "" /\
        state (exchange v data) = withProcessing (state v) false /\
        chartData (exchange v data) =
          match Worker.aggregate rows (Worker.config message) with
          | Ok result => result
          | Throw _ => chartData v
          end
  end.
Proof.
  unfold exchange. destruct (request (state v) data) as [message|] eqn:E.
  - unfold request in E. destruct data as [rows|]; [|discriminate].
    destruct (String.eqb (xAxis (state v)) "") eqn:Ex; [discriminate|].
    destruct (String.eqb (yAxis (state v)) "") eqn:Ey; [discriminate|].
    simpl in E. injection E as <-. exists rows.
    apply String.eqb_neq in Ex, Ey.
    split; [reflexivity|]. split; [reflexivity|]. split; [exact Ex|]. split; [exact Ey|].
    unfold Worker.onmessage. cbn [Worker.data Worker.config].
    destruct (Worker.aggregate rows _) as [result|err]; simpl; auto.
  - split; [|reflexivity]. unfold request in E. destruct data as [rows|]; [|auto].
    destruct (String.eqb (xAxis (state v)) "") eqn:Ex.
    + apply String.eqb_eq in Ex. auto.
    + destruct (String.eqb (yAxis (state v)) "") eqn:Ey; [|discriminate].
      apply String.eqb_eq in Ey. auto.
Qed.

End Exchange.

Module ExchangeRuns.
Import Inputs MoreInputs Visualizations.

Example exchange_success :
  exchange (rt := Reference.runtime) {| state := charted; chartData := [] |} (Some regions) =
  {| state := charted;
     chartData := [ {| Worker.name := "A"; Worker.value := 30; Worker.size := 2 |};
                    {| Worker.name := "B"; Worker.value := 5; Worker.size := 1 |} ] |}.
Proof. reflexivity. Qed.

Example exchange_failure :
  exchange (rt := Reference.runtime)
    {| state := charted;
       chartData := [ {| Worker.name := "kept"; Worker.value := 1; Worker.size := 1 |} ] |}
    (Some poisoned) =
  {| state := charted;
     chartData := [ {| Worker.name := "kept"; Worker.value := 1; Worker.size := 1 |} ] |}.
Proof. reflexivity. Qed.

End ExchangeRuns.

(** ** The deep comparison of layouts *)

Module DeepEqual.
Import Visualizations ObjectFacts OrderFacts FloatFacts.

Lemma Value_nested_ind (P : Value -> Prop) :
  (forall v, P (Prim v)) ->
  (forall r ps, Forall (fun kv => P (snd kv)) ps -> P (Obj r ps)) ->
  forall a, P a.
Proof.
  intros HP HO. fix IH 1. intros [v | r ps]; [apply HP|]. apply HO.
  induction ps as [|kv ps IHps]; constructor; [apply IH | exact IHps].
Qed.

Lemma float_eqb_sym (x y : float) : (x =? y)%float = (y =? x)%float.
Proof.
  rewrite !FloatAxioms.eqb_spec. unfold SFeqb.
  pose proof (Prim2SF_valid x) as Vx. pose proof (Prim2SF_valid y) as Vy.
  destruct (SFnan (Prim2SF x)) eqn:Nx.
  { destruct (Prim2SF x); try discriminate. destruct (Prim2SF y); reflexivity. }
  destruct (SFnan (Prim2SF y)) eqn:Ny.
  { destruct (Prim2SF y); try discriminate. destruct (Prim2SF x); reflexivity. }
  rewrite !SFcompare_ordv by auto.
  rewrite (Z.compare_antisym (ordv (Prim2SF x)) (ordv (Prim2SF y))).
  destruct (ordv (Prim2SF x) ?= ordv (Prim2SF y))%Z; reflexivity.
Qed.

Lemma strictEquals_sym (a b : Value) : strictEquals a b = strictEquals b a.
Proof.
  destruct a as [x|r pa], b as [y|r' pb]; simpl; auto.
  - destruct x as [| |x|x|x], y as [| |y|y|y]; simpl; auto.
    + destruct x, y; reflexivity.
    + apply float_eqb_sym.
    + apply String.eqb_sym.
  - apply Nat.eqb_sym.
Qed.

Lemma noRepeat_NoDup (keys : list string) : noRepeat keys = true <-> NoDup keys.
Proof.
  induction keys as [|k keys IH]; simpl.
  - split; [constructor | reflexivity].
  - rewrite andb_true_iff, IH, negb_true_iff. split.
    + intros [Hk Hnd]. constructor; auto.
      intros Hin. apply existsb_eqb_In in Hin. congruence.
    + intros Hnd. inversion Hnd as [|? ? Hk Hnd']; subst. split; auto.
      destruct (existsb (String.eqb k) keys) eqn:E; auto.
      apply existsb_eqb_In in E. contradiction.
Qed.

Lemma wellFormed_obj (r : nat) (ps : list (string * Value)) :
  wellFormed (Obj r ps) = true ->
  NoDup (map fst ps) /\ Forall (fun kv => wellFormed (snd kv) = true) ps.
Proof.
  simpl. rewrite andb_true_iff, noRepeat_NoDup, forallb_forall, Forall_forall. tauto.
Qed.

Lemma Object_keys_In {A : Type} (ps : list (string * A)) (k : string) :
  In k (Object_keys ps) <-> In k (map fst ps).
Proof.
  unfold Object_keys.
  split; apply Permutation_in; [|symmetry]; apply Permutation_map, Object_entries_perm.
Qed.

Lemma Object_keys_length {A : Type} (ps : list (string * A)) :
  List.length (Object_keys ps) = List.length ps.
Proof.
  unfold Object_keys. rewrite length_map. apply Permutation_length, Object_entries_perm.
Qed.

Lemma forallb_perm {A : Type} (f : A -> bool) (l l' : list A) :
  Permutation l l' -> forallb f l = forallb f l'.
Proof.
  induction 1; simpl; auto.
  - now rewrite IHPermutation.
  - destruct (f x), (f y); reflexivity.
  - congruence.
Qed.

Lemma prop_In (ps : list (string * Value)) (k : string) (v : Value) :
  NoDup (map fst ps) -> In (k, v) ps -> prop ps k = v.
Proof. intros Hnd Hin. unfold prop. now rewrite (In_obj_get _ _ _ Hnd Hin). Qed.

Lemma In_prop (ps : list (string * Value)) (k : string) :
  In k (map fst ps) -> In (k, prop ps k) ps.
Proof.
  intros Hin. unfold prop. destruct (obj_get ps k) as [v|] eqn:E.
  - now apply obj_get_In.
  - apply obj_get_None in E. contradiction.
Qed.

(** Two objects that are not the same object. *)
Lemma isEqual_props (r r' : nat) (pa pb : list (string * Value)) :
  NoDup (map fst pa) ->
  isEqual (Obj r pa) (Obj r' pb) = true <->
  r = r' \/
  (List.length pa = List.length pb /\
   forall k, In k (map fst pa) ->
     In k (map fst pb) /\ isEqual (prop pa k) (prop pb k) = true).
Proof.
  intros Hnd. cbn [isEqual strictEquals].
  destruct (Nat.eqb r r') eqn:Er.
  { apply Nat.eqb_eq in Er. tauto. }
  apply Nat.eqb_neq in Er.
  set (table := map (fun kv => (fst kv, isEqual (snd kv))) pa).
  rewrite (Permutation_length (Object_entries_perm table)).
  unfold table at 1. rewrite length_map, Object_keys_length.
  rewrite (forallb_perm _ _ _ (Object_entries_perm table)).
  destruct (List.length pa =? List.length pb)%nat eqn:El; simpl.
  - apply Nat.eqb_eq in El. rewrite forallb_forall. split.
    + intros H. right. split; auto. intros k Hk.
      pose proof (In_prop pa k Hk) as Hin.
      specialize (H (k, isEqual (prop pa k))). simpl in H.
      apply andb_prop in H as [H1 H2].
      * split; auto. apply existsb_eqb_In in H1. now apply Object_keys_In.
      * unfold table. apply in_map_iff. now exists (k, prop pa k).
    + intros [->|[_ H]]; [congruence|].
      intros [k f] Hkf. unfold table in Hkf. apply in_map_iff in Hkf as ([k' va] & E & Hin).
      simpl in E. injection E as -> <-. simpl.
      assert (Hk : In k (map fst pa)) by (apply in_map_iff; now exists (k, va)).
      destruct (H k Hk) as [H1 H2].
      rewrite (prop_In pa k va Hnd Hin) in H2. rewrite H2, andb_true_r.
      apply existsb_eqb_In. now apply Object_keys_In.
  - apply Nat.eqb_neq in El. split; [discriminate|]. intros [->|[E _]]; congruence.
Qed.

Lemma isEqual_sym_true (a : Value) :
  forall b, wellFormed a = true -> wellFormed b = true ->
            isEqual a b = true -> isEqual b a = true.
Proof.
  induction a as [v | r pa IH] using Value_nested_ind; intros b Wa Wb H.
  - destruct b as [w | r' pb]; simpl in *.
    + pose proof (strictEquals_sym (Prim v) (Prim w)) as S. simpl in S.
      rewrite <- S. exact H.
    + discriminate.
  - destruct b as [w | r' pb]; [discriminate|].
    destruct (wellFormed_obj _ _ Wa) as [Na Fa].
    destruct (wellFormed_obj _ _ Wb) as [Nb Fb].
    apply (isEqual_props r r' pa pb Na) in H.
    apply (isEqual_props r' r pb pa Nb).
    destruct H as [->|[Hlen H]]; [now left|]. right. split; [congruence|].
    assert (Hincl : incl (map fst pb) (map fst pa)).
    { apply NoDup_length_incl; auto.
      - rewrite !length_map. lia.
      - intros k Hk. now apply H. }
    intros k Hk. split; [now apply Hincl|].
    pose proof (Hincl k Hk) as Hka.
    destruct (H k Hka) as [_ He].
    pose proof (In_prop pa k Hka) as Hina.
    pose proof (In_prop pb k Hk) as Hinb.
    rewrite Forall_forall in IH, Fa, Fb.
    exact (IH _ Hina (prop pb k) (Fa _ Hina) (Fb _ Hinb) He).
Qed.

(** X19: the deep comparison does not depend on the order of its arguments. *)
Theorem isEqual_symmetric (a b : Value) :
  wellFormed a = true -> wellFormed b = true -> isEqual a b = isEqual b a.
Proof.
  intros Wa Wb.
  destruct (isEqual a b) eqn:E1, (isEqual b a) eqn:E2; auto.
  - apply isEqual_sym_true in E1; auto. congruence.
  - apply isEqual_sym_true in E2; auto. congruence.
Qed.

(** X20: two objects that are not the same object compare equal exactly when
    they have the same keys, in whatever order, and values that compare
    equal under each key. *)
Theorem isEqual_by_keys (r r' : nat) (pa pb : list (string * Value)) :
  wellFormed (Obj r pa) = true -> wellFormed (Obj r' pb) = true -> r <> r' ->
  isEqual (Obj r pa) (Obj r' pb) = true <->
  (forall k, In k (map fst pa) <-> In k (map fst pb)) /\
  (forall k, In k (map fst pa) -> isEqual (prop pa k) (prop pb k) = true).
Proof.
  intros Wa Wb Hr.
  destruct (wellFormed_obj _ _ Wa) as [Na _].
  destruct (wellFormed_obj _ _ Wb) as [Nb _].
  rewrite (isEqual_props r r' pa pb Na). split.
  - intros [->|[Hlen H]]; [congruence|]. split; [|intros k Hk; now apply H].
    intros k. split; [intros Hk; now apply H|].
    apply NoDup_length_incl; auto.
    + rewrite !length_map. lia.
    + intros k' Hk'. now apply H.
  - intros [Hkeys H]. right. split.
    + rewrite <- (length_map fst pa), <- (length_map fst pb).
      apply Permutation_length, NoDup_Permutation; auto.
    + intros k Hk. split; [now apply Hkeys | now apply H].
Qed.

End DeepEqual.

Module DeepEqualRuns.
Import Inputs MoreInputs Visualizations.

Lemma isEqual_symmetric_witness :
  wellFormed reported = true /\ wellFormed stored = true /\
  isEqual reported stored = true /\ isEqual stored reported = true.
Proof.
  split; [reflexivity|]. split; [reflexivity|]. split; [reflexivity|].
  rewrite <- (DeepEqual.isEqual_symmetric reported stored eq_refl eq_refl).
  reflexivity.
Defined.

Lemma isEqual_by_keys_witness :
  wellFormed (Obj 30 [("a", Prim (VNum 1)); ("b", Prim VNull)]) = true /\
  wellFormed (Obj 31 [("b", Prim VNull); ("a", Prim (VNum 1))]) = true /\
  30%nat <> 31%nat /\
  isEqual (Obj 30 [("a", Prim (VNum 1)); ("b", Prim VNull)])
          (Obj 31 [("b", Prim VNull); ("a", Prim (VNum 1))]) = true.
Proof.
  split; [reflexivity|]. split; [reflexivity|]. split; [discriminate|].
  apply (DeepEqual.isEqual_by_keys 30 31 [("a", Prim (VNum 1)); ("b", Prim VNull)]
           [("b", Prim VNull); ("a", Prim (VNum 1))] eq_refl eq_refl);
    [discriminate|].
  split.
  - intros k. simpl. tauto.
  - intros k [<-|[<-|[]]]; reflexivity.
Defined.

(** A value that holds [NaN] is not equal to its copy, and a layout
    changes only when the report differs. *)
Example nan_breaks_equality :
  isEqual (Obj 40 [("x", Prim (VNum nan))]) (Obj 41 [("x", Prim (VNum nan))]) = false /\
  handleLayoutChange initialState INITIAL_LAYOUTS = initialState.
Proof. split; reflexivity. Qed.

End DeepEqualRuns.

(** ** The initial axes *)

Module InitialAxes.
Import Visualizations.

Lemma nth_error_0_In {A : Type} (l : list A) (x : A) : nth_error l 0 = Some x -> In x l.
Proof. destruct l; simpl; [discriminate|]. intros [= ->]. now left. Qed.

Lemma orElseName_cases (a b : option string) :
  (Overview.chosen a = true /\ orElseName a b = a) \/
  (Overview.chosen a = false /\ orElseName a b = b).
Proof. unfold orElseName. destruct (Overview.chosen a); auto. Qed.

Lemma all_numeric (columns : list string) (data : option (list Overview.Row)) :
  categoricalColumns columns data = [] -> numericColumns columns data = columns.
Proof.
  unfold categoricalColumns, numericColumns.
  induction columns as [|c cs IH]; simpl; auto.
  destruct (isTypeofNumber _); simpl; [|discriminate].
  intros H. now rewrite IH.
Qed.

(** X21: the axes are initialised once there are columns and no key axis yet.
    Both then name columns of the dataset. When the first row holds a
    number under every column, both are the first column; when a named
    column without a number and a named column with one come first of
    their kinds, the axes are these two and differ. *)
Theorem initial_axes (st : ChartState) (columns : list string)
  (data : option (list Overview.Row)) :
  match initialAxes st columns data with
  | None => columns = [] \/ xAxis st <> ""
  | Some (x, y) =>
      columns <> [] /\ xAxis st = "" /\
      (exists nx ny, x = Some nx /\ y = Some ny /\ In nx columns /\ In ny columns) /\
      (forall first rest, columns = first :: rest -> first <> "" ->
         categoricalColumns columns data = [] -> x = Some first /\ y = Some first) /\
      (forall c n,
         nth_error (categoricalColumns columns data) 0 = Some c -> c <> "" ->
         nth_error (numericColumns columns data) 0 = Some n -> n <> "" ->
         x = Some c /\ y = Some n /\ c <> n)
  end.
Proof.
  unfold initialAxes.
  destruct columns as [|first rest].
  { simpl. now left. }
  cbn [List.length Nat.eqb negb andb Overview.chosen].
  destruct (String.eqb (xAxis st) "") eqn:Ex; cbn [negb].
  2:{ right. now apply String.eqb_neq. }
  apply String.eqb_eq in Ex.
  set (columns := first :: rest).
  set (cat := categoricalColumns columns data).
  set (num := numericColumns columns data).
  split; [discriminate|]. split; [exact Ex|]. split; [|split].
  - assert (Hx : exists nx, orElseName (nth_error cat 0) (nth_error columns 0) = Some nx /\
                            In nx columns).
    { destruct (orElseName_cases (nth_error cat 0) (nth_error columns 0)) as [[Hc ->]|[_ ->]].
      - destruct (nth_error cat 0) as [c|] eqn:E; [|discriminate].
        exists c. split; auto. apply nth_error_0_In in E.
        unfold cat, categoricalColumns in E. now apply filter_In in E.
      - exists first. split; [reflexivity | now left]. }
    assert (Hy : exists ny, orElseName (nth_error num 0)
                              (orElseName (nth_error columns 1) (nth_error columns 0)) = Some ny /\
                            In ny columns).
    { destruct (orElseName_cases (nth_error num 0)
                  (orElseName (nth_error columns 1) (nth_error columns 0))) as [[Hc ->]|[_ ->]].
      - destruct (nth_error num 0) as [c|] eqn:E; [|discriminate].
        exists c. split; auto. apply nth_error_0_In in E.
        unfold num, numericColumns in E. now apply filter_In in E.
      - destruct (orElseName_cases (nth_error columns 1) (nth_error columns 0))
          as [[Hc ->]|[_ ->]].
        + destruct (nth_error columns 1) as [c|] eqn:E; [|discriminate].
          exists c. split; auto. eapply nth_error_In; eauto.
        + exists first. split; [reflexivity | now left]. }
    destruct Hx as (nx & Hx & Hinx), Hy as (ny & Hy & Hiny). exists nx, ny. auto.
  - intros f r [= <- <-] Hf Hcat. fold columns cat in Hcat.
    pose proof (all_numeric columns data Hcat) as Hnum. fold num in Hnum.
    rewrite Hcat, Hnum. unfold orElseName. simpl.
    apply String.eqb_neq in Hf. now rewrite Hf.
  - intros c n Hc Hcn Hn Hnn. fold cat in Hc. fold num in Hn. rewrite Hc, Hn.
    unfold orElseName. simpl.
    apply String.eqb_neq in Hcn, Hnn. rewrite Hcn, Hnn. simpl.
    split; [reflexivity|]. split; [reflexivity|].
    apply nth_error_0_In in Hc, Hn.
    unfold cat, categoricalColumns in Hc. unfold num, numericColumns in Hn.
    apply filter_In in Hc as [_ Hc]. apply filter_In in Hn as [_ Hn].
    intros ->. rewrite Hn in Hc. discriminate.
Qed.

End InitialAxes.

Module InitialAxesRuns.
Import Inputs MoreInputs Visualizations.

(** Both axes start on the same column when the first row holds numbers
    only, and the exchange of the reducer does not part them. *)
Example same_initial_axes :
  initialAxes initialState ["a"; "b"] allNumbers = Some (Some "a", Some "a") /\
  let st := withAxes initialState "a" "a" in
  chartStateReducer st (SET_AXIS "y" "a") = st.
Proof. split; reflexivity. Qed.

Example mixed_initial_axes :
  initialAxes initialState ["region"; "sales"]
    (Some [ [("region", VStr "A"); ("sales", VNum 10)] ]) =
  Some (Some "region", Some "sales") /\
  initialAxes initialState ["region"; "sales"] None = Some (Some "region", Some "sales") /\
  initialAxes charted ["region"; "sales"] None = None.
Proof. repeat split; reflexivity. Qed.

End InitialAxesRuns.

(** ** The environment file *)

Module EnvFile.
Import FirebaseConfig ObjectFacts.

Section Loading.
Context {np : NodeProcess}.

Lemma loadLine_get (env : Env) (line : string) (k : string) :
  obj_get (loadLine env line) k =
  match obj_get env k with
  | Some v => Some v
  | None =>
      match assignment line with
      | Some (key, value) =>
          if String.eqb key k && negb (inheritedByEnv k) then Some value else None
      | None => None
      end
  end.
Proof.
  unfold loadLine, inEnv. destruct (assignment line) as [[key value]|].
  - destruct (string_dec key k) as [->|Hne].
    + rewrite String.eqb_refl. destruct (obj_get env k) as [v|] eqn:E; auto.
      destruct (inheritedByEnv k); simpl; auto. apply obj_get_set_same.
    + assert (Ek : String.eqb key k = false) by now apply String.eqb_neq.
      rewrite Ek. simpl.
      destruct (obj_get env key); [|destruct (inheritedByEnv key)];
        rewrite ?obj_get_set_other by auto; destruct (obj_get env k); auto.
  - destruct (obj_get env k); auto.
Qed.

Lemma obj_set_new {A : Type} (o : JsObject A) (k : string) (v : A) :
  obj_get o k = None -> obj_set o k v = o ++ [(k, v)].
Proof.
  induction o as [|[k' v'] o IH]; simpl; auto.
  destruct (String.eqb k' k); [discriminate|]. intros H. now rewrite IH.
Qed.

Lemma loadLine_extends (env : Env) (line : string) :
  exists added, loadLine env line = env ++ added.
Proof.
  unfold loadLine, inEnv. destruct (assignment line) as [[key value]|].
  - destruct (obj_get env key) eqn:E.
    + exists []. now rewrite app_nil_r.
    + destruct (inheritedByEnv key).
      * exists []. now rewrite app_nil_r.
      * exists [(key, value)]. now apply obj_set_new.
  - exists []. now rewrite app_nil_r.
Qed.

Lemma fold_loadLine (lines : list string) (env : Env) (k : string) :
  obj_get (fold_left loadLine lines env) k =
  match obj_get env k with
  | Some v => Some v
  | None =>
      if inheritedByEnv k then None
      else obj_get (flat_map (fun line => match assignment line with
                                          | Some kv => [kv]
                                          | None => []
                                          end) lines) k
  end.
Proof.
  revert env. induction lines as [|line lines IH]; intros env; simpl.
  - destruct (obj_get env k); auto. now destruct (inheritedByEnv k).
  - rewrite IH, loadLine_get.
    destruct (obj_get env k) as [v|]; auto.
    destruct (assignment line) as [[key value]|]; simpl; auto.
    destruct (String.eqb key k); simpl; auto.
    destruct (inheritedByEnv k); auto.
Qed.

(** X22: a variable that is set keeps its value; one that is not takes the
    value of the first line of the file that assigns it, unless its name
    is one the environment object inherits; nothing else is set, the
    variables there before keep their places ahead of the new ones, and a
    file that is missing or cannot be read changes nothing. *)
Theorem env_file_fills_gaps (file : File) (env : Env) :
  (forall k,
     obj_get (loadEnvFromFile file env) k =
     match obj_get env k with
     | Some v => Some v
     | None =>
         if inheritedByEnv k then None
         else match file with
              | Content content => obj_get (assignments content) k
              | _ => None
              end
     end) /\
  (exists added, loadEnvFromFile file env = env ++ added).
Proof.
  split.
  - intros k. destruct file as [| |content]; simpl.
    + destruct (obj_get env k); auto. now destruct (inheritedByEnv k).
    + destruct (obj_get env k); auto. now destruct (inheritedByEnv k).
    + apply fold_loadLine.
  - destruct file as [| |content]; simpl; try (exists []; now rewrite app_nil_r).
    generalize (splitLines content ""). intros lines. revert env.
    induction lines as [|line lines IH]; intros env; simpl.
    + exists []. now rewrite app_nil_r.
    + destruct (loadLine_extends env line) as (a1 & ->).
      destruct (IH (env ++ a1)) as (a2 & ->).
      exists (a1 ++ a2). now rewrite app_assoc.
Qed.

End Loading.

End EnvFile.

Module EnvFileRuns.
Import FirebaseConfig MoreInputs.

(** Comments, lines without an equals sign and lines without a key assign
    nothing; the first assignment of a name counts; the value keeps what
    follows its first equals sign; the white space around keys and values
    goes. *)
Example env_file_loaded :
  loadEnvFromFile (Content envFile) [("DEMO_MODE", "true")] =
    [("DEMO_MODE", "true"); ("PORT", "8080"); ("URL", "http://h/?a=b")] /\
  loadEnvFromFile Missing [("DEMO_MODE", "true")] = [("DEMO_MODE", "true")].
Proof. split; reflexivity. Qed.

Example trim_strips_unicode_space :
  trim (String (ascii_of_nat 239) (String (ascii_of_nat 187) (String (ascii_of_nat 191)
          ("  a b " ++ String (ascii_of_nat 194) (String (ascii_of_nat 160) ""))))) = "a b".
Proof. reflexivity. Qed.

End EnvFileRuns.
